(** * ytarchive: the fragmented live capture engine, embedded in Rocq

    A shallow embedding of the parts of [ytarchive.py] that the
    specification's testable properties are about, followed by the
    theorems that settle them.  Python values are modelled as follows:

    - [bytes] as [list byte]; a slice [data[a:b]] with non-negative
      bounds as a [take] of a [drop];
    - [int] as [Z] (Python integers are unbounded);
    - [str] as [string], holding the UTF-8 encoding of the text;
    - a [dict] as a [gmap];
    - [float] as the Standard Library's [spec_float] at binary64;
    - [while True] loops whose termination is not evident as fuelled
      fixpoints returning [option], [None] standing for a loop that
      is still running when the fuel is spent. *)

From Stdlib Require Import ZArith QArith Lia Bool.
From Stdlib Require Import Strings.Byte Strings.Ascii Strings.String.
From Stdlib Require Import Numbers.DecimalString Sorting.Sorted.
From Stdlib Require Floats.SpecFloat.
From stdpp Require Import base option list gmap strings.

Local Open Scope Z_scope.

(** ** Bytes and slices *)

#[global] Instance byte_eq_dec : EqDecision byte := Byte.byte_eq_dec.

(** The numeric value of a byte, 0..255. *)
Definition byte_val (b : byte) : Z := Z.of_N (Byte.to_N b).

(** [len(data)] as a Python integer. *)
Definition len {A} (l : list A) : Z := Z.of_nat (length l).

(** [data[lo:hi]] for [0 <= lo <= hi]: indices beyond the end are
    clipped, as Python does. *)
Definition slice (data : list byte) (lo hi : Z) : list byte :=
  take (Z.to_nat (hi - lo)) (drop (Z.to_nat lo) data).

(** [data[:hi]] and [data[lo:]] for non-negative bounds. *)
Definition slice_to (data : list byte) (hi : Z) : list byte :=
  take (Z.to_nat hi) data.

Definition slice_from (data : list byte) (lo : Z) : list byte :=
  drop (Z.to_nat lo) data.

(** [int(bs.hex(), 16)]: the big-endian value of [bs].  On the empty
    slice [int('', 16)] raises [ValueError], rendered as [None]. *)
Definition be_value (bs : list byte) : Z :=
  fold_left (fun acc b => acc * 256 + byte_val b) bs 0.

Definition int_of_hex (bs : list byte) : option Z :=
  match bs with
  | [] => None
  | _ => Some (be_value bs)
  end.

(** ** [bytes.decode()]: strict UTF-8

    [in_range lo hi b] is [lo <= b <= hi] on the byte's value. *)
Definition in_range (lo hi : Z) (b : byte) : bool :=
  (lo <=? byte_val b) && (byte_val b <=? hi).

Definition is_cont (b : byte) : bool := in_range 128 191 b.

(** Well-formed UTF-8 byte sequences (the table of the Unicode
    standard that CPython's decoder enforces): no overlong forms, no
    surrogates, nothing above U+10FFFF, no truncated sequence. *)
Fixpoint utf8_valid (bs : list byte) : bool :=
  match bs with
  | [] => true
  | b0 :: r0 =>
    if in_range 0 127 b0 then utf8_valid r0
    else if in_range 194 223 b0 then
      match r0 with
      | b1 :: r1 => is_cont b1 && utf8_valid r1
      | _ => false
      end
    else if in_range 224 239 b0 then
      match r0 with
      | b1 :: b2 :: r2 =>
        (if byte_val b0 =? 224 then in_range 160 191 b1
         else if byte_val b0 =? 237 then in_range 128 159 b1
         else is_cont b1)
        && is_cont b2 && utf8_valid r2
      | _ => false
      end
    else if in_range 240 244 b0 then
      match r0 with
      | b1 :: b2 :: b3 :: r3 =>
        (if byte_val b0 =? 240 then in_range 144 191 b1
         else if byte_val b0 =? 244 then in_range 128 143 b1
         else is_cont b1)
        && is_cont b2 && is_cont b3 && utf8_valid r3
      | _ => false
      end
    else false
  end.

(** [bs.decode()]: [None] is [UnicodeDecodeError]; the decoded text is
    kept as the string of its UTF-8 bytes. *)
Definition decode (bs : list byte) : option string :=
  if utf8_valid bs then Some (string_of_list_byte bs) else None.

(** ** [get_atoms] and [remove_sidx] *)

(** One entry of the [atoms] dictionary: [{"ofs": ofs, "len": alen}]. *)
Record atom := Atom { atom_ofs : Z; atom_len : Z }.

#[global] Instance atom_eq_dec : EqDecision atom.
Proof. solve_decision. Defined.

(** The part of the loop body of [get_atoms] inside [try], up to the
    name: read the length, give up when it exceeds [len(data)], decode
    the name.  [None] is the [break] (taken directly or through
    [except Exception]). *)
Definition read_header (data : list byte) (ofs : Z) : option (string * Z) :=
  match int_of_hex (slice data ofs (ofs + 4)) with
  | None => None
  | Some alen =>
    if alen >? len data then None
    else match decode (slice data (ofs + 4) (ofs + 8)) with
         | None => None
         | Some aname => Some (aname, alen)
         end
  end.

(** The [while True] loop of [get_atoms]. *)
Fixpoint get_atoms_loop (fuel : nat) (data : list byte)
    (atoms : gmap string atom) (ofs : Z) : option (gmap string atom) :=
  match fuel with
  | O => None
  | S fuel' =>
    match read_header data ofs with
    | None => Some atoms
    | Some (aname, alen) =>
      let atoms' := <[aname := Atom ofs alen]> atoms in
      let ofs' := ofs + alen in
      if ofs' + 8 >=? len data then Some atoms'
      else get_atoms_loop fuel' data atoms' ofs'
    end
  end.

(** [get_atoms(data)].  A run that returns makes at most
    [len(data)] iterations ([get_atoms_fuel_enough] below), so [None]
    here is exactly a loop that never ends. *)
Definition get_atoms (data : list byte) : option (gmap string atom) :=
  get_atoms_loop (S (length data)) data ∅ 0.

(** [remove_sidx(data)]; [None] when [get_atoms] does not return. *)
Definition remove_sidx (data : list byte) : option (list byte) :=
  atoms ← get_atoms data;
  match atoms !! "sidx"%string with
  | None => Some data
  | Some sidx =>
    let ofs := atom_ofs sidx in
    let rlen := atom_ofs sidx + atom_len sidx in
    Some (slice_to data ofs ++ slice_from data rlen)
  end.

(** The atoms in the order the loop visits them: the sequence of
    assignments [atoms[aname] = ...] that [get_atoms] performs. *)
Fixpoint scan_loop (fuel : nat) (data : list byte) (ofs : Z)
    : option (list (string * atom)) :=
  match fuel with
  | O => None
  | S fuel' =>
    match read_header data ofs with
    | None => Some []
    | Some (aname, alen) =>
      if ofs + alen + 8 >=? len data then Some [(aname, Atom ofs alen)]
      else cons (aname, Atom ofs alen) <$> scan_loop fuel' data (ofs + alen)
    end
  end.

Definition scan_atoms (data : list byte) : option (list (string * atom)) :=
  scan_loop (S (length data)) data 0.

Definition bytes_of (s : string) : list byte := list_byte_of_string s.

(** A well-formed box: the 32-bit big-endian size (header included),
    the four-character name, the payload. *)
Definition byte_of_Z (z : Z) : byte :=
  default x00 (Byte.of_N (Z.to_N (z mod 256))).

Definition be32 (n : Z) : list byte :=
  [byte_of_Z (n / 16777216); byte_of_Z (n / 65536); byte_of_Z (n / 256); byte_of_Z n].

Definition box (name : string) (payload : list byte) : list byte :=
  be32 (8 + len payload) ++ bytes_of name ++ payload.

(** The big-step reading of the loop of [get_atoms] from offset [ofs]:
    [Scan data ofs l] holds when the loop, entered at [ofs], ends
    after recording exactly the atoms [l], in this order. *)
Inductive Scan (data : list byte) : Z -> list (string * atom) -> Prop :=
  | Scan_stop ofs :
      read_header data ofs = None -> Scan data ofs []
  | Scan_last ofs aname alen :
      read_header data ofs = Some (aname, alen) ->
      len data <= ofs + alen + 8 ->
      Scan data ofs [(aname, Atom ofs alen)]
  | Scan_more ofs aname alen l :
      read_header data ofs = Some (aname, alen) ->
      ofs + alen + 8 < len data ->
      Scan data (ofs + alen) l ->
      Scan data ofs ((aname, Atom ofs alen) :: l).

Definition record_atoms (l : list (string * atom)) (atoms : gmap string atom)
    : gmap string atom :=
  fold_left (fun m e => <[e.1 := e.2]> m) l atoms.

Definition names (l : list (string * atom)) : list string := l.*1.


(** Whether the scan recorded an atom named [sidx]. *)
Definition is_sidx (e : string * atom) : bool := String.eqb e.1 "sidx".

Definition has_sidx (l : list (string * atom)) : bool := existsb is_sidx l.

(** [lone_sidx data first l]: the atoms [l] hold exactly one [sidx];
    every atom before it is at least as long as a header (8 bytes);
    and when it is the very first atom ([first]), more than 8 bytes of
    [data] follow it. *)
Fixpoint lone_sidx (data : list byte) (first : bool)
    (l : list (string * atom)) : bool :=
  match l with
  | [] => false
  | e :: l' =>
    if is_sidx e
    then negb (has_sidx l') && (negb first || (atom_len e.2 + 8 <? len data))
    else (8 <=? atom_len e.2) && lone_sidx data false l'
  end.

(** At most one [sidx] atom, placed as [lone_sidx] says. *)
Definition at_most_one_sidx (data : list byte) (l : list (string * atom)) : bool :=
  negb (has_sidx l) || lone_sidx data true l.

(** The data seen box by box.  A box is a name and a payload; it is
    well formed when the name is four bytes of valid text and the size
    fits in 32 bits.  [layout ofs bs] are the atoms of consecutive
    boxes [bs] laid out from offset [ofs]. *)
Definition well_formed_box (b : string * list byte) : bool :=
  Nat.eqb (length (bytes_of b.1)) 4 && utf8_valid (bytes_of b.1)
  && (8 + len b.2 <? 4294967296).

Definition encode_boxes (bs : list (string * list byte)) : list byte :=
  concat ((fun b => box b.1 b.2) <$> bs).

Fixpoint layout (ofs : Z) (bs : list (string * list byte))
    : list (string * atom) :=
  match bs with
  | [] => []
  | b :: bs' => (b.1, Atom ofs (8 + len b.2)) :: layout (ofs + (8 + len b.2)) bs'
  end.

(** The loop of [get_atoms] reads the boxes [bs] of
    [encode_boxes bs ++ rest], all of them and nothing more: every box
    but the first starts more than 8 bytes before the end of the data
    (the test [ofs+8 >= len(data)] that ends the loop), and behind the
    last box at most 8 bytes are left, or a header that cannot be
    read. *)
Definition boxes_scanned (bs : list (string * list byte)) (rest : list byte)
    : bool :=
  let data := encode_boxes bs ++ rest in
  forallb (fun e => atom_ofs e.2 + 8 <? len data) (tail (layout 0 bs))
  && ((len rest <=? 8)
      || match read_header data (len (encode_boxes bs)) with
         | None => true
         | Some _ => false
         end).

(** Sample inputs: two [sidx] atoms in a row, and an atom whose
    length field is zero. *)
Definition two_sidx : list byte :=
  box "sidx" [x01] ++ box "sidx" [x02] ++ box "moof" [] ++ [x00].

Definition one_sidx : list byte :=
  box "styp" [] ++ box "sidx" [x01; x02] ++ box "moof" [] ++ [x00].

(** One [sidx] box followed by a box that is a bare header at the very
    end of the data, which the scan does not reach. *)
Definition sidx_then_bare_sidx : list byte := box "sidx" [] ++ box "sidx" [].

(** Two [sidx] boxes told apart by their payloads, the second one a
    bare header at the very end of the data. *)
Definition sidx_boxes_bare_last : list (string * list byte) :=
  [("sidx"%string, [x01]); ("sidx"%string, [])].

(** An atom of length 4 in front of a [sidx] box: once the box is
    spliced out, the bytes that follow are read as the name of that
    atom. *)
Definition short_atom_then_sidx : list byte :=
  be32 4 ++ box "sidx" [] ++ bytes_of "sidx" ++ [x00; x00; x00; x00; x00].

Definition zero_length_atom : list byte :=
  [x00; x00; x00; x00] ++ bytes_of "free" ++ [x00].

(** ** Text: the [str] methods the code uses

    Texts are ASCII here: [lower] and [strip] act on the ASCII letters
    and the ASCII white space that Python's [str.lower] and
    [str.strip] act on, and leave every other byte alone. *)

Local Open Scope string_scope.
Local Open Scope list_scope.
Local Open Scope Z_scope.

Definition char_val (c : ascii) : Z := Z.of_N (N_of_ascii c).

Definition is_upper (c : ascii) : bool :=
  (65 <=? char_val c) && (char_val c <=? 90).

Definition lower_char (c : ascii) : ascii :=
  if is_upper c then ascii_of_N (N_of_ascii c + 32) else c.

(** [s.lower()] *)
Fixpoint lower (s : string) : string :=
  match s with
  | EmptyString => EmptyString
  | String c s' => String (lower_char c) (lower s')
  end.

(** White space for [str.strip()]: tab, line feed, vertical tab, form
    feed, carriage return, the four separators 0x1c..0x1f and space. *)
Definition is_space (c : ascii) : bool :=
  ((9 <=? char_val c) && (char_val c <=? 13))
  || ((28 <=? char_val c) && (char_val c <=? 32)).

Fixpoint lstrip (s : string) : string :=
  match s with
  | EmptyString => EmptyString
  | String c s' => if is_space c then lstrip s' else s
  end.

Fixpoint rstrip (s : string) : string :=
  match s with
  | EmptyString => EmptyString
  | String c s' =>
    match rstrip s' with
    | EmptyString => if is_space c then EmptyString else String c EmptyString
    | r => String c r
    end
  end.

(** [s.strip()] *)
Definition strip (s : string) : string := rstrip (lstrip s).

(** [s.split(sep)] for a one-character separator: always at least one
    piece. *)
Fixpoint split (sep : ascii) (s : string) : list string :=
  match s with
  | EmptyString => [EmptyString]
  | String c s' =>
    if Ascii.eqb c sep then EmptyString :: split sep s'
    else match split sep s' with
         | p :: ps => String c p :: ps
         | [] => [String c EmptyString]
         end
  end.

(** [sep.join(qs)] *)
Fixpoint join (sep : string) (qs : list string) : string :=
  match qs with
  | [] => EmptyString
  | [q] => q
  | q :: qs' => q +:+ sep +:+ join sep qs'
  end.

(** [s.find(sub)]: the index of the first occurrence, or -1. *)
Fixpoint find_from (sub s : string) (i : Z) : Z :=
  if String.prefix sub s then i
  else match s with
       | EmptyString => -1
       | String _ s' => find_from sub s' (i + 1)
       end.

Definition find (s sub : string) : Z := find_from sub s 0.

(** [x in xs] for a list of strings. *)
Definition in_list (x : string) (xs : list string) : bool :=
  existsb (String.eqb x) xs.

(** ** Constants and the quality table *)

Definition RECHECK_TIME : Z := 15.
Definition FRAG_MAX_TRIES : Z := 10.
Definition HOUR : Z := 60 * 60.
Definition BUF_SIZE : Z := 8192.
Definition AUDIO_ITAG : Z := 140.
Definition DEFAULT_VIDEO_QUALITY : string := "best".

(** A value of [VIDEO_LABEL_ITAGS]: [0] for ["audio_only"], a pair of
    itags for a video label. *)
Inductive label_itags :=
  | AudioOnly
  | Codecs (h264 vp9 : Z).

Definition VIDEO_LABEL_ITAGS : list (string * label_itags) :=
  [ ("audio_only", AudioOnly);
    ("144p", Codecs 160 278);
    ("240p", Codecs 133 242);
    ("360p", Codecs 134 243);
    ("480p", Codecs 135 244);
    ("720p", Codecs 136 247);
    ("720p60", Codecs 298 302);
    ("1080p", Codecs 137 248);
    ("1080p60", Codecs 299 303) ].

(** [list(VIDEO_LABEL_ITAGS.keys())] *)
Definition quality_labels : list string := VIDEO_LABEL_ITAGS.*1.

(** ** [parse_quality_list] *)

(** The [for q in selected_quarities] loop; [selected_qualities] is the
    list built so far. *)
Fixpoint select_qualities (formats : list string) (selected_quarities : list string)
    (selected_qualities : list string) : list string :=
  match selected_quarities with
  | [] => selected_qualities
  | q :: rest =>
    let stripped := strip q in
    if in_list stripped formats || String.eqb stripped "best"
    then select_qualities formats rest (selected_qualities ++ [q])
    else select_qualities formats rest selected_qualities
  end.

Definition parse_quality_list (formats : list string) (quality : string)
    : list string :=
  let quality := strip (lower quality) in
  let selected_quarities := split "/" quality in
  select_qualities formats selected_quarities [].

(** What the specification expects of it: the elements of [qs] that are
    in the table or equal to ["best"]. *)
Definition known_quality (formats : list string) (q : string) : bool :=
  in_list q formats || String.eqb q "best".

(** A label as a user would type it once normalised: ASCII, no slash,
    no upper-case letter, no white space at either end. *)
Fixpoint is_ascii_text (s : string) : bool :=
  match s with
  | EmptyString => true
  | String c s' => (char_val c <? 128) && is_ascii_text s'
  end.

Fixpoint has_char (c : ascii) (s : string) : bool :=
  match s with
  | EmptyString => false
  | String c' s' => Ascii.eqb c' c || has_char c s'
  end.

Fixpoint has_upper (s : string) : bool :=
  match s with
  | EmptyString => false
  | String c s' => is_upper c || has_upper s'
  end.

Definition starts_space (s : string) : bool :=
  match s with
  | EmptyString => false
  | String c _ => is_space c
  end.

Fixpoint ends_space (s : string) : bool :=
  match s with
  | EmptyString => false
  | String c EmptyString => is_space c
  | String _ s' => ends_space s'
  end.

Definition plain_label (q : string) : bool :=
  is_ascii_text q && negb (has_char "/" q) && negb (has_upper q)
  && negb (starts_space q) && negb (ends_space q).

(** ** [is_fragmented] *)

Definition is_fragmented (url : string) : bool :=
  find (lower url) "noclen" >=? 0.

(** The query component of a URL, as [urllib.parse.urlsplit] cuts it
    (the source reads it through [urlparse(url).query]): the fragment
    is what follows the first ['#'], the query is what follows the
    first ['?'] of the rest. *)
Fixpoint before_char (c : ascii) (s : string) : string :=
  match s with
  | EmptyString => EmptyString
  | String c' s' => if Ascii.eqb c' c then EmptyString else String c' (before_char c s')
  end.

Fixpoint after_char (c : ascii) (s : string) : string :=
  match s with
  | EmptyString => EmptyString
  | String c' s' => if Ascii.eqb c' c then s' else after_char c s'
  end.

Definition url_query (url : string) : string :=
  after_char "?" (before_char "#" url).

(** ** Shared state: [DownloadInfo] *)

Inductive Action := ASK | DO | DO_NOT.

(** The keys of [mdl_info]: [DTYPE_AUDIO = "audio"] and
    [DTYPE_VIDEO = "video"]. *)
Inductive dtype := DTYPE_AUDIO | DTYPE_VIDEO.

Record MediaDLInfo := {
  active_threads : Z;
  download_url : string;
  base_fpath : string;
  data_type : string
}.

(** [FormatInfo.finfo] and [MetaInfo.meta], the two dictionaries with
    fixed keys. *)
Record FormatInfo := {
  finfo_id : string;
  finfo_title : string;
  finfo_channel_id : string;
  finfo_channel : string;
  finfo_upload_date : string
}.

Record MetaInfo := {
  meta_title : string;
  meta_artist : string;
  meta_date : string;
  meta_comment : string
}.

(** ** Floats

    [time.time()] returns a Python [float], an IEEE 754 binary64
    number: the Standard Library's [spec_float] with its operations at
    precision 53 and maximal exponent 1024. *)
Definition float : Type := SpecFloat.spec_float.

(** [x - y]: the exact difference rounded to the nearest float, a tie
    going to the even one. *)
Definition float_sub (x y : float) : float := SpecFloat.SFsub 53 1024 x y.

(** [x < y]; [False] when either is a NaN. *)
Definition float_ltb (x y : float) : bool := SpecFloat.SFltb x y.

(** The float of an integer, exact up to 2^53 in absolute value.  The
    code has integers beside floats in three places, all exact: the
    first [last_updated = 0], and the constants [RECHECK_TIME] and
    [HOUR], which Python compares with a float by value. *)
Definition float_of_int (n : Z) : float :=
  SpecFloat.binary_normalize 53 1024 n 0 false.

(** The fields of [DownloadInfo], the lock aside. *)
Record DownloadInfo := {
  format_info : FormatInfo;
  metadata : MetaInfo;
  stopping : bool;
  in_progress : bool;
  is_live : bool;
  vp9 : bool;
  is_unavailable : bool;
  gvideo_ddl : bool;
  thumbnail : string;
  vid : string;
  url : string;
  selected_quality : string;
  status : string;
  dash_manifest_url : string;
  wait : Action;
  quality : Z;
  retry_secs : Z;
  thread_count : Z;
  last_updated : float;
  target_duration : Z;
  expires_in_seconds : Z;
  mdl_video : MediaDLInfo;
  mdl_audio : MediaDLInfo
}.

(** [info.mdl_info[data_type]] *)
Definition mdl_info (info : DownloadInfo) (dt : dtype) : MediaDLInfo :=
  match dt with
  | DTYPE_VIDEO => mdl_video info
  | DTYPE_AUDIO => mdl_audio info
  end.

(** [MediaDLInfo()] and [DownloadInfo()] *)
Definition MediaDLInfo_init : MediaDLInfo :=
  {| active_threads := 0; download_url := ""; base_fpath := ""; data_type := "" |}.

Definition FormatInfo_init : FormatInfo :=
  {| finfo_id := ""; finfo_title := ""; finfo_channel_id := "";
     finfo_channel := ""; finfo_upload_date := "" |}.

Definition MetaInfo_init : MetaInfo :=
  {| meta_title := ""; meta_artist := ""; meta_date := ""; meta_comment := "" |}.

Definition DownloadInfo_init : DownloadInfo :=
  {| format_info := FormatInfo_init; metadata := MetaInfo_init;
     stopping := false; in_progress := false; is_live := false; vp9 := false;
     is_unavailable := false; gvideo_ddl := false;
     thumbnail := ""; vid := ""; url := ""; selected_quality := "";
     status := ""; dash_manifest_url := "";
     wait := ASK; quality := -1; retry_secs := 0; thread_count := 1;
     last_updated := float_of_int 0; target_duration := 5;
     expires_in_seconds := 21540;
     mdl_video := MediaDLInfo_init; mdl_audio := MediaDLInfo_init |}.

Definition set_mdl_info (info : DownloadInfo) (dt : dtype) (m : MediaDLInfo)
    : DownloadInfo :=
  {| format_info := format_info info; metadata := metadata info;
     stopping := stopping info; in_progress := in_progress info;
     is_live := is_live info; vp9 := vp9 info;
     is_unavailable := is_unavailable info; gvideo_ddl := gvideo_ddl info;
     thumbnail := thumbnail info; vid := vid info; url := url info;
     selected_quality := selected_quality info; status := status info;
     dash_manifest_url := dash_manifest_url info;
     wait := wait info; quality := quality info; retry_secs := retry_secs info;
     thread_count := thread_count info; last_updated := last_updated info;
     target_duration := target_duration info;
     expires_in_seconds := expires_in_seconds info;
     mdl_video := match dt with DTYPE_VIDEO => m | DTYPE_AUDIO => mdl_video info end;
     mdl_audio := match dt with DTYPE_AUDIO => m | DTYPE_VIDEO => mdl_audio info end |}.

(** [info.mdl_info[data_type].active_threads = n] *)
Definition set_active_threads (info : DownloadInfo) (dt : dtype) (n : Z)
    : DownloadInfo :=
  let m := mdl_info info dt in
  set_mdl_info info dt
    {| active_threads := n; download_url := download_url m;
       base_fpath := base_fpath m; data_type := data_type m |}.

(** [info.stopping = b] *)
Definition set_stopping (info : DownloadInfo) (b : bool) : DownloadInfo :=
  {| format_info := format_info info; metadata := metadata info;
     stopping := b; in_progress := in_progress info;
     is_live := is_live info; vp9 := vp9 info;
     is_unavailable := is_unavailable info; gvideo_ddl := gvideo_ddl info;
     thumbnail := thumbnail info; vid := vid info; url := url info;
     selected_quality := selected_quality info; status := status info;
     dash_manifest_url := dash_manifest_url info;
     wait := wait info; quality := quality info; retry_secs := retry_secs info;
     thread_count := thread_count info; last_updated := last_updated info;
     target_duration := target_duration info;
     expires_in_seconds := expires_in_seconds info;
     mdl_video := mdl_video info; mdl_audio := mdl_audio info |}.

(** [info.thread_count = n] *)
Definition set_thread_count (info : DownloadInfo) (n : Z) : DownloadInfo :=
  {| format_info := format_info info; metadata := metadata info;
     stopping := stopping info; in_progress := in_progress info;
     is_live := is_live info; vp9 := vp9 info;
     is_unavailable := is_unavailable info; gvideo_ddl := gvideo_ddl info;
     thumbnail := thumbnail info; vid := vid info; url := url info;
     selected_quality := selected_quality info; status := status info;
     dash_manifest_url := dash_manifest_url info;
     wait := wait info; quality := quality info; retry_secs := retry_secs info;
     thread_count := n; last_updated := last_updated info;
     target_duration := target_duration info;
     expires_in_seconds := expires_in_seconds info;
     mdl_video := mdl_video info; mdl_audio := mdl_audio info |}.

(** What the code reaches outside itself: the shared [info], the clock
    that [time.time()] reads, the number of requests sent to the
    discovery endpoint so far, and the files of the working directory
    (path to contents). *)
Record world := {
  w_info : DownloadInfo;
  w_now : float;
  w_probes : nat;
  w_files : gmap string (list byte)
}.

Definition set_info (w : world) (info : DownloadInfo) : world :=
  {| w_info := info; w_now := w_now w; w_probes := w_probes w;
     w_files := w_files w |}.

Definition set_files (w : world) (files : gmap string (list byte)) : world :=
  {| w_info := w_info w; w_now := w_now w; w_probes := w_probes w;
     w_files := files |}.

(** [info.stopping], read and written under the lock. *)
Definition info_stopping (w : world) : bool := stopping (w_info w).

Definition raise_stopping (w : world) : world :=
  set_info w (set_stopping (w_info w) true).

(** The values [get_video_info] returns. *)
Inductive pyret := RTrue | RFalse | RNone.

(** Truth value of a returned value in [if] and [elif]. *)
Definition truthy (r : pyret) : bool :=
  match r with
  | RTrue => true
  | _ => false
  end.

(** [x < y] on rational numbers. *)
Definition Qlt_bool (x y : Q) : bool := negb (Qle_bool y x).

(** ** [get_video_info]

    The four early returns, in the order of the source, then the
    refresh proper.  The refresh (from [get_playable_player_response]
    down to [info.last_updated = time.time()]) is the argument
    [refresh]: it probes the service, selects or rebinds the download
    URLs and stamps [last_updated]; what the probe answers is not
    known to the code. *)
Definition get_video_info (refresh : world -> pyret * world) (w : world)
    : pyret * world :=
  let info := w_info w in
  if gvideo_ddl info then (RFalse, w)
  else if stopping info then (RFalse, w)
  else if is_unavailable info then (RNone, w)
  else
    let update_delta := float_sub (w_now w) (last_updated info) in
    if float_ltb update_delta (float_of_int RECHECK_TIME) then (RFalse, w)
    else refresh w.

(** ** [download_frags]: one attempt at one fragment *)

(** [str(n)] for an integer. *)
Definition str (n : Z) : string := NilZero.string_of_int (Z.to_int n).

Record Fragment := {
  seq : Z;
  fname : string;
  x_head_seqnum : Z
}.

#[global] Instance Fragment_eq_dec : EqDecision Fragment.
Proof. solve_decision. Defined.

Module Frags.

(** The local variables of [download_frags] that the retry loop reads
    and writes. *)
Record locals := {
  downloading : bool;
  tries : Z;
  full_retries : Z;
  is_403 : bool;
  url : string
}.

Definition set_downloading (l : locals) (b : bool) : locals :=
  {| downloading := b; tries := tries l; full_retries := full_retries l;
     is_403 := is_403 l; url := url l |}.

Definition set_tries (l : locals) (n : Z) : locals :=
  {| downloading := downloading l; tries := n; full_retries := full_retries l;
     is_403 := is_403 l; url := url l |}.

Definition set_full_retries (l : locals) (n : Z) : locals :=
  {| downloading := downloading l; tries := tries l; full_retries := n;
     is_403 := is_403 l; url := url l |}.

Definition set_is_403 (l : locals) (b : bool) : locals :=
  {| downloading := downloading l; tries := tries l; full_retries := full_retries l;
     is_403 := b; url := url l |}.

Definition set_url (l : locals) (u : string) : locals :=
  {| downloading := downloading l; tries := tries l; full_retries := full_retries l;
     is_403 := is_403 l; url := u |}.

(** What one [urlopen] and the reading of its body come to. *)
Inductive fetch_result :=
  | Fetched (bytes_written : Z) (header_seqnum : Z)
  | HTTPError (code : Z)
  | OtherError.

(** How a step leaves the body of [while tries < FRAG_MAX_TRIES]:
    [Break] leaves the loop, [Continue] goes back to its test, [Fall]
    goes on to the statements after the [try]. *)
Inductive flow := Break | Continue | Fall.

Section Attempt.

Variable refresh : world -> pyret * world.
Variable data_type : dtype.
Variables seq max_seq : Z.

(** [except urllib.error.HTTPError as err:] *)
Definition on_http_error (code : Z) (l : locals) (w : world)
    : flow * locals * world :=
  if code =? 403 then
    let l := set_is_403 l true in
    let '(l, w) :=
      if negb (gvideo_ddl (w_info w)) then
        let new_url := download_url (mdl_info (w_info w) data_type) in
        if negb (String.eqb new_url (url l)) then (set_url l new_url, w)
        else
          let '(r, w') := get_video_info refresh w in
          if truthy r
          then (set_url l (download_url (mdl_info (w_info w') data_type)), w')
          else (l, w')
      else (l, w) in
    (Fall, set_tries l (tries l + 1), w)
  else if code =? 404 then
    if (max_seq >? -1) && negb (is_live (w_info w)) && (seq >=? max_seq - 2)
    then (Break, set_downloading l false, w)
    else (Fall, set_tries l (tries l + 1), w)
  else (Fall, set_tries l (tries l + 1), w).

(** [except Exception as err:] (the deletion of the partial file by
    [try_delete] is not part of the state followed here) *)
Definition on_other_error (l : locals) (w : world) : flow * locals * world :=
  if (max_seq >? -1) && negb (is_live (w_info w)) && (seq >=? max_seq - 2)
  then (Break, set_downloading l false, w)
  else (Fall, set_tries l (tries l + 1), w).

(** The statements after the [try], under [if tries >= FRAG_MAX_TRIES]. *)
Definition after_tries (l : locals) (w : world) : locals * world :=
  if tries l >=? FRAG_MAX_TRIES then
    let l := set_full_retries l (full_retries l - 1) in
    let w := if is_live (w_info w) then snd (get_video_info refresh w) else w in
    if negb (is_live (w_info w)) then
      if is_unavailable (w_info w) && is_403 l then (set_downloading l false, w)
      else if (max_seq >? -1) && (seq <? max_seq - 2) && (full_retries l >? 0)
           then (l, w)
           else (set_downloading l false, w)
    else (set_tries l 0, w)
  else (l, w).

(** The body of [while tries < FRAG_MAX_TRIES], given what the request
    comes to.  The third component is the fragment put on
    [data_queue], if any. *)
Definition attempt (r : fetch_result) (l : locals) (w : world)
    : flow * locals * world * option Fragment :=
  if stopping (w_info w) then (Break, set_downloading l false, w, None)
  else
    let fname :=
      base_fpath (mdl_info (w_info w) data_type) +:+ ".frag" +:+ str seq +:+ ".ts" in
    let '(fl, l, w, out) :=
      match r with
      | Fetched bytes_written header_seqnum =>
        if bytes_written =? 0 then
          let l := set_tries l (tries l + 1) in
          if tries l <? FRAG_MAX_TRIES then (Continue, l, w, None)
          else (Fall, l, w, None)
        else
          (Break, set_is_403 l false, w,
           Some (Build_Fragment seq fname header_seqnum))
      | HTTPError code =>
        let '(fl, l, w) := on_http_error code l w in (fl, l, w, None)
      | OtherError =>
        let '(fl, l, w) := on_other_error l w in (fl, l, w, None)
      end in
    match fl with
    | Fall => let '(l, w) := after_tries l w in (Fall, l, w, out)
    | _ => (fl, l, w, out)
    end.

(** [while tries < FRAG_MAX_TRIES:] over the results of the successive
    requests; the loop is left by [break] or when the tries are used
    up.  When [results] runs out the loop is waiting for the next
    answer and the state reached so far is returned. *)
Fixpoint retry_loop (results : list fetch_result) (l : locals) (w : world)
    : locals * world * option Fragment :=
  if tries l <? FRAG_MAX_TRIES then
    match results with
    | [] => (l, w, None)
    | r :: results' =>
      let '(fl, l, w, out) := attempt r l w in
      match fl with
      | Break => (l, w, out)
      | _ => retry_loop results' l w
      end
    end
  else (l, w, None).

End Attempt.

End Frags.

(** ** [download_stream] *)

Module Stream.

(** [ProgressInfo(dtype, byte_count, max_seq)] *)
Record ProgressInfo := {
  data_type : dtype;
  bytes : Z;
  max_seq : Z
}.

(** The local variables of [download_stream].  [f] is what has been
    written to the output file, [seq_queue] and [progress_queue] hold
    what has been put on them, oldest first, and [dthreads] the numbers
    ([tnum]) of the threads started. *)
Record locals := {
  cur_frag : Z;
  cur_seq : Z;
  active_downloads : Z;
  max_seqs : Z;
  tries : Z;
  tnum : Z;
  stopping : bool;
  dthreads : list Z;
  data : list Fragment;
  del_frags : list string;
  f : list byte;
  seq_queue : list (Z * Z);
  progress_queue : list ProgressInfo
}.

Definition locals_init : locals :=
  {| cur_frag := 0; cur_seq := 0; active_downloads := 0; max_seqs := -1;
     tries := 10; tnum := 0; stopping := false; dthreads := []; data := [];
     del_frags := []; f := []; seq_queue := []; progress_queue := [] |}.

(** [seq_queue.put((cur_seq, max_seqs)); cur_seq += 1;
    active_downloads += 1] *)
Definition put_seq (l : locals) : locals :=
  {| cur_frag := cur_frag l; cur_seq := cur_seq l + 1;
     active_downloads := active_downloads l + 1; max_seqs := max_seqs l;
     tries := tries l; tnum := tnum l; stopping := stopping l;
     dthreads := dthreads l; data := data l; del_frags := del_frags l;
     f := f l; seq_queue := seq_queue l ++ [(cur_seq l, max_seqs l)];
     progress_queue := progress_queue l |}.

(** [dthreads.append(t); tnum += 1] for the thread named after [tnum]. *)
Definition add_thread (l : locals) : locals :=
  {| cur_frag := cur_frag l; cur_seq := cur_seq l;
     active_downloads := active_downloads l; max_seqs := max_seqs l;
     tries := tries l; tnum := tnum l + 1; stopping := stopping l;
     dthreads := dthreads l ++ [tnum l]; data := data l;
     del_frags := del_frags l; f := f l; seq_queue := seq_queue l;
     progress_queue := progress_queue l |}.

Definition set_stopping (l : locals) (b : bool) : locals :=
  {| cur_frag := cur_frag l; cur_seq := cur_seq l;
     active_downloads := active_downloads l; max_seqs := max_seqs l;
     tries := tries l; tnum := tnum l; stopping := b;
     dthreads := dthreads l; data := data l; del_frags := del_frags l;
     f := f l; seq_queue := seq_queue l; progress_queue := progress_queue l |}.

Definition set_max_seqs (l : locals) (n : Z) : locals :=
  {| cur_frag := cur_frag l; cur_seq := cur_seq l;
     active_downloads := active_downloads l; max_seqs := n;
     tries := tries l; tnum := tnum l; stopping := stopping l;
     dthreads := dthreads l; data := data l; del_frags := del_frags l;
     f := f l; seq_queue := seq_queue l; progress_queue := progress_queue l |}.

Definition set_tries (l : locals) (n : Z) : locals :=
  {| cur_frag := cur_frag l; cur_seq := cur_seq l;
     active_downloads := active_downloads l; max_seqs := max_seqs l;
     tries := n; tnum := tnum l; stopping := stopping l;
     dthreads := dthreads l; data := data l; del_frags := del_frags l;
     f := f l; seq_queue := seq_queue l; progress_queue := progress_queue l |}.

(** [data.append(d); active_downloads -= 1] *)
Definition receive (l : locals) (d : Fragment) : locals :=
  {| cur_frag := cur_frag l; cur_seq := cur_seq l;
     active_downloads := active_downloads l - 1; max_seqs := max_seqs l;
     tries := tries l; tnum := tnum l; stopping := stopping l;
     dthreads := dthreads l; data := data l ++ [d]; del_frags := del_frags l;
     f := f l; seq_queue := seq_queue l; progress_queue := progress_queue l |}.

(** [f.write(buf)] for each of [bufs], with no other change. *)
Definition write_bufs (l : locals) (bufs : list (list byte)) : locals :=
  {| cur_frag := cur_frag l; cur_seq := cur_seq l;
     active_downloads := active_downloads l; max_seqs := max_seqs l;
     tries := tries l; tnum := tnum l; stopping := stopping l;
     dthreads := dthreads l; data := data l; del_frags := del_frags l;
     f := f l ++ concat bufs; seq_queue := seq_queue l;
     progress_queue := progress_queue l |}.

(** The statements that follow a fragment written in full:
    [cur_frag += 1], the progress report, the entry [i] of [data]
    removed ([data.remove(d)]: [d] is the object found at [i]),
    [tries = 10], and the path kept in [del_frags] when [os.remove]
    failed. *)
Definition written (dt : dtype) (i : nat) (d : Fragment) (bytes_written : Z)
    (removed : bool) (l : locals) : locals :=
  {| cur_frag := cur_frag l + 1; cur_seq := cur_seq l;
     active_downloads := active_downloads l; max_seqs := max_seqs l;
     tries := 10; tnum := tnum l; stopping := stopping l;
     dthreads := dthreads l; data := delete i (data l);
     del_frags := if removed then del_frags l else del_frags l ++ [fname d];
     f := f l; seq_queue := seq_queue l;
     progress_queue :=
       progress_queue l ++ [Build_ProgressInfo dt bytes_written (max_seqs l)] |}.

(** [while info.mdl_info[data_type].active_threads < info.thread_count:]
    start one more [download_frags] thread and give it a sequence
    number.  The loop makes [thread_count - active_threads] turns. *)
Fixpoint start_threads_loop (fuel : nat) (dt : dtype) (l : locals)
    (info : DownloadInfo) : locals * DownloadInfo :=
  match fuel with
  | O => (l, info)
  | S fuel' =>
    if active_threads (mdl_info info dt) <? thread_count info then
      let l := add_thread l in
      let info := set_active_threads info dt (active_threads (mdl_info info dt) + 1) in
      let l := put_seq l in
      start_threads_loop fuel' dt l info
    else (l, info)
  end.

Definition start_threads (dt : dtype) (l : locals) (info : DownloadInfo)
    : locals * DownloadInfo :=
  start_threads_loop
    (Z.to_nat (thread_count info - active_threads (mdl_info info dt))) dt l info.

(** The inner [while True] that empties [data_queue]; [arrived] is
    what [get_nowait] hands out before it raises [queue.Empty]. *)
Fixpoint drain (downloading : bool) (arrived : list Fragment) (l : locals)
    : locals :=
  match arrived with
  | [] => l
  | d :: rest =>
    let l := receive l d in
    if negb downloading || stopping l then drain downloading rest l
    else
      let l := if x_head_seqnum d >? max_seqs l
               then set_max_seqs l (x_head_seqnum d) else l in
      let l := if max_seqs l >? 0
               then (if cur_seq l <=? max_seqs l + 1 then put_seq l else l)
               else put_seq l in
      drain downloading rest l
  end.

(** [while active_downloads < info.mdl_info[data_type].active_threads:]
    put one more sequence number. *)
Fixpoint refill_loop (fuel : nat) (active : Z) (l : locals) : locals :=
  match fuel with
  | O => l
  | S fuel' =>
    if active_downloads l <? active then refill_loop fuel' active (put_seq l)
    else l
  end.

Definition refill (active : Z) (l : locals) : locals :=
  refill_loop (Z.to_nat (active - active_downloads l)) active l.

(** The successive [rf.read(BUF_SIZE)] of a file whose remaining
    contents are [bs], up to the empty read. *)
Fixpoint read_chunks (fuel : nat) (bs : list byte) : list (list byte) :=
  match fuel with
  | O => []
  | S fuel' =>
    match bs with
    | [] => []
    | _ => take (Z.to_nat BUF_SIZE) bs
           :: read_chunks fuel' (drop (Z.to_nat BUF_SIZE) bs)
    end
  end.

(** The buffers written for one fragment, in order: the first read
    passed through [remove_sidx], then the other reads as they are.
    [None] when [remove_sidx] does not return. *)
Definition fragment_bufs (content : list byte) : option (list (list byte)) :=
  let first := take (Z.to_nat BUF_SIZE) content in
  let rest := drop (Z.to_nat BUF_SIZE) content in
  buf ← remove_sidx first;
  Some (buf :: read_chunks (length rest) rest).

(** What happens to the input and output of one pass through the
    [try] block: everything succeeds ([removed] tells whether
    [os.remove] did), or an exception is raised after [k] buffers have
    been written to [f] ([k = 0]: before the first write). *)
Inductive io_event :=
  | IoOk (removed : bool)
  | IoRaise (k : nat).

(** The [try] / [except] of the write loop for the fragment [d] found
    at index [i]; returns the next [i].  A fragment file that is not
    there makes [open] raise. *)
Definition write_fragment (dt : dtype) (io : io_event) (i : nat) (d : Fragment)
    (l : locals) (w : world) : option (nat * locals * world) :=
  let failed := Some (i, set_tries l (tries l - 1), w) in
  match w_files w !! fname d with
  | None => failed
  | Some content =>
    match io with
    | IoRaise O => failed
    | IoRaise k =>
      bufs ← fragment_bufs content;
      let l := write_bufs l (take k bufs) in
      Some (i, set_tries l (tries l - 1), w)
    | IoOk removed =>
      bufs ← fragment_bufs content;
      let l := write_bufs l bufs in
      let l := written dt i d (len (concat bufs)) removed l in
      let w := if removed then set_files w (delete (fname d) (w_files w)) else w in
      Some (O, l, w)
    end
  end.

(** The block that restarts threads when the download lags more than
    100 fragments behind. *)
Definition restart_threads (dt : dtype) (l : locals) (w : world)
    : locals * world :=
  let info := w_info w in
  if (max_seqs l - cur_seq l >? 100)
     && (active_threads (mdl_info info dt) <? thread_count info)
  then let '(l, info) := start_threads dt l info in (l, set_info w info)
  else (l, w).

(** [while i < len(data) and tries > 0:], the write loop.  [ios] tells
    what happens in the successive passes through the [try] block;
    when it runs out every further pass succeeds. *)
Fixpoint write_loop (fuel : nat) (dt : dtype) (ios : list io_event) (i : nat)
    (l : locals) (w : world) : option (locals * world) :=
  match fuel with
  | O => None
  | S fuel' =>
    if (Z.of_nat i <? len (data l)) && (tries l >? 0) then
      match data l !! i with
      | None => Some (l, w)
      | Some d =>
        if negb (seq d =? cur_frag l) then write_loop fuel' dt ios (S i) l w
        else
          '(i, l, w) ← write_fragment dt (hd (IoOk true) ios) i d l w;
          let '(l, w) := if stopping l then (l, w) else restart_threads dt l w in
          write_loop fuel' dt (tl ios) i l w
      end
    else Some (l, w)
  end.

(** Enough turns for the write loop ([write_loop_returns] below): a
    turn either moves [i] on, or uses up one of the [tries], or writes
    a fragment, which shortens [data] and sets [tries] back to 10. *)
Definition write_turns (i : nat) (l : locals) : nat :=
  length (data l) * (length (data l) + 11)
  + Z.to_nat (tries l) + (length (data l) - i).

Definition write_fuel (l : locals) : nat := S (write_turns O l).

(** What the surroundings contribute to one cycle of the main loop:
    which threads are alive, what has arrived on [data_queue], and what
    happens to the file operations. *)
Record cycle_env := {
  alive : Z -> bool;
  arrived : list Fragment;
  ios : list io_event
}.

(** One cycle of the main [while True] loop.  The boolean is [false]
    when the loop is left by [break]. *)
Definition cycle (refresh : world -> pyret * world) (dt : dtype)
    (env : cycle_env) (l : locals) (w : world) : option (bool * locals * world) :=
  let l := set_stopping l (info_stopping w) in
  let downloading := existsb (alive env) (dthreads l) in
  let l := drain downloading (arrived env) l in
  if negb downloading then Some (false, l, w)
  else if len (data l) =? 0 then
    let l :=
      if negb (stopping l) && (active_downloads l <=? 0)
      then refill (active_threads (mdl_info (w_info w) dt)) l
      else l in
    Some (true, l, w)
  else
    '(l, w) ← write_loop (write_fuel l) dt (ios env) O l w;
    let updated_secs := float_sub (w_now w) (last_updated (w_info w)) in
    let w :=
      if negb (is_unavailable (w_info w))
         && float_ltb (float_of_int HOUR) updated_secs
      then snd (get_video_info refresh w) else w in
    let w :=
      if tries l <=? 0 then raise_stopping w else w in
    Some (true, l, w).

(** [download_stream] up to its main loop: the output file is opened
    empty and the first threads are started. *)
Definition setup (dt : dtype) (w : world) : locals * world :=
  let '(l, info) := start_threads dt locals_init (w_info w) in
  (l, set_info w info).

End Stream.

(** ** [main]: the [--threads] option *)

Definition is_digit (c : ascii) : bool :=
  (48 <=? char_val c) && (char_val c <=? 57).

(** White space for [int()]: tab to carriage return, and space. *)
Definition is_int_space (c : ascii) : bool :=
  ((9 <=? char_val c) && (char_val c <=? 13)) || (char_val c =? 32).

Fixpoint skip_int_space (s : string) : string :=
  match s with
  | EmptyString => EmptyString
  | String c s' => if is_int_space c then skip_int_space s' else s
  end.

Fixpoint all_int_space (s : string) : bool :=
  match s with
  | EmptyString => true
  | String c s' => is_int_space c && all_int_space s'
  end.

(** The digits of a decimal literal, single underscores allowed
    between digits, white space allowed after the last digit. *)
Fixpoint digits (s : string) (acc : Z) (after_digit : bool) : option Z :=
  match s with
  | EmptyString => if after_digit then Some acc else None
  | String c s' =>
    if is_digit c then digits s' (acc * 10 + (char_val c - 48)) true
    else if Ascii.eqb c "_" && after_digit then digits s' acc false
    else if is_int_space c && after_digit && all_int_space s' then Some acc
    else None
  end.

(** The number of digits in [s]. *)
Fixpoint count_digits (s : string) : Z :=
  match s with
  | EmptyString => 0
  | String c s' => (if is_digit c then 1 else 0) + count_digits s'
  end.

(** [sys.get_int_max_str_digits()], as the interpreter starts. *)
Definition INT_MAX_STR_DIGITS : Z := 4300.

(** [int(a)] for a string of ASCII characters: white space around, an
    optional sign, a decimal literal of at most [INT_MAX_STR_DIGITS]
    digits (leading zeros counted, underscores not); [None] is
    [ValueError].  Python also takes the decimal digits and the white
    space of other scripts, which this function refuses: it is [int]
    on ASCII text only. *)
Definition py_int (a : string) : option Z :=
  if INT_MAX_STR_DIGITS <? count_digits a then None
  else
    match skip_int_space a with
    | String "+" s => digits s 0 false
    | String "-" s => Z.opp <$> digits s 0 false
    | s => digits s 0 false
    end.

(** How setting up the run goes on: with the updated [info], or by
    [sys.exit(code)]. *)
Inductive setup_result :=
  | Proceed (info : DownloadInfo)
  | SysExit (code : Z).

(** [elif o == "--threads":] with its [try] / [except]. *)
Definition opt_threads (a : string) (info : DownloadInfo) : setup_result :=
  match py_int a with
  | Some n => Proceed (set_thread_count info (Z.abs n))
  | None => SysExit 1
  end.

(** Every fragment file on disk is one on which [remove_sidx] (applied
    to its first read) returns. *)
Definition strippable (files : gmap string (list byte)) : Prop :=
  forall name content, files !! name = Some content ->
    is_Some (remove_sidx (take (Z.to_nat BUF_SIZE) content)).

(** The fragment of [data] that is due when [cur_frag = cur]: the
    first one with that sequence number. *)
Definition due (data : list Fragment) (cur : Z) : option Fragment :=
  List.find (fun d => seq d =? cur) data.

(** What the track file is to receive for the [n] fragments numbered
    from [cur] on: for each, the buffers of its file, first buffer
    stripped. *)
Fixpoint assembled (files : gmap string (list byte)) (data : list Fragment)
    (cur : Z) (n : nat) : option (list byte) :=
  match n with
  | O => Some []
  | S n' =>
    d ← due data cur;
    content ← files !! fname d;
    bufs ← Stream.fragment_bufs content;
    rest ← assembled files data (cur + 1) n';
    Some (concat bufs ++ rest)
  end.

(** An incident that leaves the output file as it was: the exception
    comes before the first write. *)
Definition harmless (io : Stream.io_event) : bool :=
  match io with
  | Stream.IoOk _ => true
  | Stream.IoRaise k => Nat.eqb k 0
  end.

(** ** Sample inputs *)

(** A refresh that succeeds, for the examples: one probe, the time
    stamp renewed. *)
Definition sample_refresh (w : world) : pyret * world :=
  (RTrue,
   {| w_info :=
        {| format_info := format_info (w_info w); metadata := metadata (w_info w);
           stopping := stopping (w_info w); in_progress := true;
           is_live := true; vp9 := vp9 (w_info w);
           is_unavailable := is_unavailable (w_info w);
           gvideo_ddl := gvideo_ddl (w_info w);
           thumbnail := thumbnail (w_info w); vid := vid (w_info w);
           url := url (w_info w);
           selected_quality := selected_quality (w_info w);
           status := status (w_info w);
           dash_manifest_url := dash_manifest_url (w_info w);
           wait := wait (w_info w); quality := quality (w_info w);
           retry_secs := retry_secs (w_info w);
           thread_count := thread_count (w_info w);
           last_updated := w_now w;
           target_duration := target_duration (w_info w);
           expires_in_seconds := expires_in_seconds (w_info w);
           mdl_video := mdl_video (w_info w); mdl_audio := mdl_audio (w_info w) |};
      w_now := w_now w; w_probes := S (w_probes w); w_files := w_files w |}).

(** The world with the clock at [now], and at a whole number of
    seconds. *)
Definition world_at_time (info : DownloadInfo) (now : float) : world :=
  {| w_info := info; w_now := now; w_probes := 0; w_files := ∅ |}.

Definition world_at (info : DownloadInfo) (now : Z) : world :=
  world_at_time info (float_of_int now).

(** The floats that the literals [15.1] and [0.1] stand for, and the
    rational number that a finite float is. *)
Definition float_15_1 : float := SpecFloat.S754_finite false 8500544296661811 (-49).

Definition float_0_1 : float := SpecFloat.S754_finite false 7205759403792794 (-56).

Definition float_value (x : float) : option Q :=
  match x with
  | SpecFloat.S754_zero _ => Some 0%Q
  | SpecFloat.S754_finite s m e =>
    Some (inject_Z (if s then Z.neg m else Z.pos m) * Qpower 2 e)%Q
  | _ => None
  end.

(** A stream refreshed at 0.1 seconds on the clock. *)
Definition refreshed_at_0_1 : DownloadInfo :=
  {| format_info := FormatInfo_init; metadata := MetaInfo_init;
     stopping := false; in_progress := true; is_live := true; vp9 := false;
     is_unavailable := false; gvideo_ddl := false;
     thumbnail := ""; vid := "abc"; url := ""; selected_quality := "best";
     status := ""; dash_manifest_url := "";
     wait := ASK; quality := 299; retry_secs := 0; thread_count := 1;
     last_updated := float_0_1; target_duration := 5;
     expires_in_seconds := 21540;
     mdl_video := MediaDLInfo_init; mdl_audio := MediaDLInfo_init |}.

Definition unavailable_info : DownloadInfo :=
  {| format_info := FormatInfo_init; metadata := MetaInfo_init;
     stopping := false; in_progress := true; is_live := false; vp9 := false;
     is_unavailable := true; gvideo_ddl := false;
     thumbnail := ""; vid := "abc"; url := ""; selected_quality := "best";
     status := ""; dash_manifest_url := "";
     wait := ASK; quality := 299; retry_secs := 0; thread_count := 1;
     last_updated := float_of_int 100; target_duration := 5;
     expires_in_seconds := 21540;
     mdl_video := MediaDLInfo_init; mdl_audio := MediaDLInfo_init |}.

(** A fragment of two reads: 8192 bytes, then one more. *)
Definition frag0 : Fragment := Build_Fragment 0 "v.f299.frag0.ts" 0.

Definition frag0_content : list byte :=
  replicate (Z.to_nat BUF_SIZE) "A"%byte ++ ["B"%byte].

Definition frag0_world : world :=
  {| w_info := DownloadInfo_init; w_now := float_of_int 1; w_probes := 0;
     w_files := {[ "v.f299.frag0.ts" := frag0_content ]} |}.

(** [download_stream] holding [frag0], the next fragment to write. *)
Definition frag0_locals : Stream.locals :=
  Stream.receive (Stream.put_seq (Stream.add_thread Stream.locals_init)) frag0.

(** One cycle of the main loop in which [frag0] arrives from the one
    thread and its first write attempt raises after one buffer. *)
Definition one_thread_locals : Stream.locals :=
  Stream.put_seq (Stream.add_thread Stream.locals_init).

Definition frag0_arrives : Stream.cycle_env :=
  Stream.Build_cycle_env (fun _ => true) [frag0] [Stream.IoRaise 1].

(** * Further parts of the program

    The functions around the ones above: the helpers for file names
    and sizes, the prompts, the rest of [get_video_info], the outer
    loop of [download_frags], and the options of [main]. *)

(** ** Exceptions *)

Inductive exn := IndexError | KeyError | ValueError.

(** What a call comes to: the value it returns, or an exception that
    it does not catch. *)
Inductive outcome (A : Type) :=
  | Ret (a : A)
  | Raise (e : exn).

Arguments Ret {A} a.
Arguments Raise {A} e.

(** ** [sterilize_filename] *)

(** [BAD_CHARS]: the nine characters [<], [>], [:], the double quote
    (character 34), [/], the backslash, [|], [?] and [*]. *)
Definition BAD_CHARS : string :=
  String "<" (String ">" (String ":" (String "034" (String "/"
    (String "\" (String "|" (String "?" (String "*" EmptyString)))))))).

(** [s.replace(c, r)] for a one-character [c] and a one-character [r].
    Both are ASCII wherever the code calls it, so replacing in the
    UTF-8 bytes is replacing in the text. *)
Fixpoint replace_char (c r : ascii) (s : string) : string :=
  match s with
  | EmptyString => EmptyString
  | String x s' => String (if Ascii.eqb x c then r else x) (replace_char c r s')
  end.

(** [for c in BAD_CHARS: fname = fname.replace(c, "_")] *)
Definition sterilize_filename (fname : string) : string :=
  fold_left (fun fname c => replace_char c "_" fname)
            (list_ascii_of_string BAD_CHARS) fname.

(** [s.startswith(pre)] and [s.endswith(suf)] *)
Definition startswith (s pre : string) : bool := String.prefix pre s.

Fixpoint endswith (s suf : string) : bool :=
  String.eqb s suf
  || match s with
     | EmptyString => false
     | String _ s' => endswith s' suf
     end.

(** ** [main]: the name of the output file

    From [fname = os.path.basename(full_fpath)] on: [base] is what
    [os.path.basename] returned.  [None] is [sys.exit(1)]. *)
Definition output_fname (base : string) : option string :=
  let fname := sterilize_filename base in
  let fname := if startswith fname "-" then "_" +:+ fname else fname in
  if Z.of_nat (String.length (strip fname)) =? 0 then None else Some fname.

(** ** [format_size]

    [bsize] is an [int] on entry ([total_bytes]) and a [float] after
    the first division.  A division by 1024 is exact in binary floating
    point, and so is the conversion of an integer below 2^53: for such
    [bsize] the floats are the rational numbers written here. *)
Definition postfixes : list string := ["bytes"; "KiB"; "MiB"; "GiB"].

(** [while bsize > 1024: bsize = bsize/1024; i += 1] *)
Fixpoint format_size_loop (fuel : nat) (bsize : Q) (i : nat) : option (Q * nat) :=
  match fuel with
  | O => None
  | S fuel' =>
    if Qlt_bool (inject_Z 1024) bsize
    then format_size_loop fuel' (bsize / inject_Z 1024)%Q (S i)
    else Some (bsize, i)
  end.

(** The integer nearest to [n / d] for [0 < d], a tie going to the even
    one. *)
Definition round_half_even (n d : Z) : Z :=
  let q := n / d in
  let r := n mod d in
  if 2 * r <? d then q
  else if d <? 2 * r then q + 1
  else if Z.even q then q else q + 1.

Definition two_digits (n : Z) : string :=
  if n <? 10 then "0" +:+ str n else str n.

(** ["{0:.2f}".format(x)] for [0 <= x]: the decimal with two places
    that is nearest to the exact value of [x]. *)
Definition format_2f (x : Q) : string :=
  let m := round_half_even (100 * Qnum x) (Z.pos (Qden x)) in
  str (m / 100) +:+ "." +:+ two_digits (m mod 100).

(** [format_size(bsize)]; the outer [None] is a loop that has not ended
    when the fuel is spent ([format_size_returns] shows that there is
    none). *)
Definition format_size (bsize : Z) : option (outcome string) :=
  '(b, i) ← format_size_loop (S (Z.to_nat (Z.log2 bsize))) (inject_Z bsize) O;
  Some (match postfixes !! i with
        | Some postfix => Ret (format_2f b +:+ postfix)
        | None => Raise IndexError
        end).

(** ** The prompts

    [input()] hands out the lines the user types, one per call;
    [inputs] are the lines still to come.  A function that reaches
    [input()] when none is left is waiting: [None]. *)

(** [get_yes_no(msg)], given the line typed. *)
Definition get_yes_no (answer : string) : bool :=
  startswith (strip (lower answer)) "y".

(** [get_quality_from_user(formats)]: the [while] loop; returns the
    selection and the lines not read. *)
Fixpoint get_quality_from_user (formats : list string) (inputs : list string)
    : option (list string * list string) :=
  match inputs with
  | [] => None
  | line :: rest =>
    let quarity := strip (lower line) in
    let quarity := if String.eqb quarity "" then DEFAULT_VIDEO_QUALITY else quarity in
    let selected_qualities := parse_quality_list formats quarity in
    if len selected_qualities <? 1 then get_quality_from_user formats rest
    else Some (selected_qualities, rest)
  end.

(** White space only. *)
Fixpoint all_space (s : string) : bool :=
  match s with
  | EmptyString => true
  | String c s' => is_space c && all_space s'
  end.

(** ** [get_video_info]: choosing the quality

    The part of [get_video_info] that follows the probe works on
    [formats] (the [adaptiveFormats] of the answer) and on [dl_urls]
    (what [get_download_urls] made of them, by itag). *)

(** An entry of [adaptiveFormats].  Every entry carries [itag] and
    [mimeType]; [url] and [qualityLabel] are there or not. *)
Record Format := {
  fmt_itag : Z;
  fmt_url : option string;
  fmt_mimeType : string;
  fmt_qualityLabel : option string
}.

(** [l.index(x)]; [None] is [ValueError]. *)
Fixpoint list_index (x : string) (l : list string) : option nat :=
  match l with
  | [] => None
  | y :: l' => if String.eqb y x then Some O else S <$> list_index x l'
  end.

(** [l.insert(idx, x)] for [0 <= idx]. *)
Definition list_insert_at {A} (idx : nat) (x : A) (l : list A) : list A :=
  take idx l ++ x :: drop idx l.

(** The inner loop [for q in qualities]: the index at which the new
    label goes, counted from [idx].  [None] is the [ValueError] of
    [itags.index(q)]. *)
Fixpoint insert_index (itags : list string) (priority : nat)
    (qualities : list string) (idx : nat) : option nat :=
  match qualities with
  | [] => Some idx
  | q :: rest =>
    match list_index q itags with
    | None => None
    | Some p =>
      if (priority <? p)%nat then Some idx
      else insert_index itags priority rest (S idx)
    end
  end.

(** The loop [for fmt in formats] that lists the qualities on offer,
    lowest first. *)
Fixpoint available_qualities_loop (itags : list string) (formats : list Format)
    (qualities : list string) : outcome (list string) :=
  match formats with
  | [] => Ret qualities
  | fmt :: rest =>
    if startswith (fmt_mimeType fmt) "video/mp4" then
      match fmt_qualityLabel fmt with
      | None => Raise KeyError
      | Some label =>
        let qlabel := lower label in
        match list_index qlabel itags with
        | None => Raise ValueError
        | Some priority =>
          match insert_index itags priority qualities 0 with
          | None => Raise ValueError
          | Some idx =>
            available_qualities_loop itags rest (list_insert_at idx qlabel qualities)
          end
        end
      end
    else available_qualities_loop itags rest qualities
  end.

Definition available_qualities (formats : list Format) : outcome (list string) :=
  available_qualities_loop quality_labels formats ["audio_only"].

(** The place of a label in the table, and the order it gives. *)
Definition rank (q : string) : option nat := list_index q quality_labels.

Definition ranked_le (a b : string) : Prop :=
  match rank a, rank b with
  | Some pa, Some pb => (pa <= pb)%nat
  | _, _ => False
  end.

(** The labels of the [video/mp4] formats, lower-cased, in the order of
    [formats]. *)
Definition mp4_labels (formats : list Format) : list string :=
  omap (fun fmt => if startswith (fmt_mimeType fmt) "video/mp4"
                   then lower <$> fmt_qualityLabel fmt else None) formats.

(** A [video/mp4] format that the listing cannot place: it has no
    [qualityLabel], or one that is not in the table. *)
Definition unlisted (fmt : Format) : bool :=
  startswith (fmt_mimeType fmt) "video/mp4"
  && match fmt_qualityLabel fmt with
     | None => true
     | Some label => negb (bool_decide (is_Some (rank (lower label))))
     end.

(** [VIDEO_LABEL_ITAGS[q]]; [None] is [KeyError]. *)
Definition label_lookup (q : string) : option label_itags :=
  snd <$> List.find (fun e => String.eqb e.1 q) VIDEO_LABEL_ITAGS.

(** [info.mdl_info[dt].download_url = u] *)
Definition set_download_url (info : DownloadInfo) (dt : dtype) (u : string)
    : DownloadInfo :=
  let m := mdl_info info dt in
  set_mdl_info info dt
    {| active_threads := active_threads m; download_url := u;
       base_fpath := base_fpath m; data_type := data_type m |}.

(** [info.quality = q] *)
Definition set_quality (info : DownloadInfo) (q : Z) : DownloadInfo :=
  {| format_info := format_info info; metadata := metadata info;
     stopping := stopping info; in_progress := in_progress info;
     is_live := is_live info; vp9 := vp9 info;
     is_unavailable := is_unavailable info; gvideo_ddl := gvideo_ddl info;
     thumbnail := thumbnail info; vid := vid info; url := url info;
     selected_quality := selected_quality info; status := status info;
     dash_manifest_url := dash_manifest_url info;
     wait := wait info; quality := q; retry_secs := retry_secs info;
     thread_count := thread_count info; last_updated := last_updated info;
     target_duration := target_duration info;
     expires_in_seconds := expires_in_seconds info;
     mdl_video := mdl_video info; mdl_audio := mdl_audio info |}.

(** How the loop [for q in selected_qualities] ends: with a quality
    found, at the end of the list, or by an exception; each with
    [info] as it is by then. *)
Inductive selection :=
  | Found (info : DownloadInfo)
  | NotFound (info : DownloadInfo)
  | Raised (e : exn) (info : DownloadInfo).

(** [for q in selected_qualities:] with its body. *)
Fixpoint select_quality (dl_urls : gmap Z string) (qualities : list string)
    (selected_qualities : list string) (info : DownloadInfo) : selection :=
  match selected_qualities with
  | [] => NotFound info
  | q :: rest =>
    let q := strip q in
    match (if String.eqb q "best" then last qualities else Some q) with
    | None => Raised IndexError info
    | Some q =>
      match label_lookup q with
      | None => Raised KeyError info
      | Some video_itag =>
        match dl_urls !! AUDIO_ITAG with
        | None => Raised KeyError info
        | Some audio_url =>
          let info := set_download_url info DTYPE_AUDIO audio_url in
          match video_itag with
          | AudioOnly =>
            Found (set_download_url (set_quality info 0) DTYPE_VIDEO "")
          | Codecs h264 vp9_itag =>
            match (if vp9 info then dl_urls !! vp9_itag else None) with
            | Some u => Found (set_quality (set_download_url info DTYPE_VIDEO u) vp9_itag)
            | None =>
              match dl_urls !! h264 with
              | Some u => Found (set_quality (set_download_url info DTYPE_VIDEO u) h264)
              | None => select_quality dl_urls qualities rest info
              end
            end
          end
        end
      end
    end
  end.

(** [while not found:] around it: the user is asked when the selection
    is empty, and again after a selection none of which is on offer. *)
Fixpoint select_loop (fuel : nat) (dl_urls : gmap Z string) (qualities : list string)
    (selected_qualities : list string) (inputs : list string) (info : DownloadInfo)
    : option (selection * list string) :=
  match fuel with
  | O => None
  | S fuel' =>
    '(selected_qualities, inputs) ←
      (if len selected_qualities =? 0
       then get_quality_from_user qualities inputs
       else Some (selected_qualities, inputs));
    match select_quality dl_urls qualities selected_qualities info with
    | NotFound info => select_loop fuel' dl_urls qualities [] inputs info
    | r => Some (r, inputs)
    end
  end.

(** ** [get_video_info]: a quality already chosen

    The [else] branch of [if info.quality < 0]: the URLs are bound
    again. *)
Definition rebind_urls (dl_urls : gmap Z string) (info : DownloadInfo)
    : DownloadInfo :=
  let aonly := quality info =? 0 in
  let info :=
    match dl_urls !! AUDIO_ITAG with
    | Some u => if is_fragmented u then set_download_url info DTYPE_AUDIO u else info
    | None => info
    end in
  if negb aonly then
    match dl_urls !! quality info with
    | Some u => if is_fragmented u then set_download_url info DTYPE_VIDEO u else info
    | None => info
    end
  else info.

(** [elif o == "--no-video": info.quality = AUDIO_ITAG] *)
Definition opt_no_video (info : DownloadInfo) : DownloadInfo :=
  set_quality info AUDIO_ITAG.

(** [main]: [afile_name = "{0}.f{1}".format(fname, AUDIO_ITAG)] and
    [vfile_name = "{0}.f{1}".format(fname, info.quality)], the names of
    the two track files inside the temporary directory. *)
Definition afile_name (fname : string) : string :=
  fname +:+ ".f" +:+ str AUDIO_ITAG.

Definition vfile_name (fname : string) (info : DownloadInfo) : string :=
  fname +:+ ".f" +:+ str (quality info).

(** Sample answers of the service. *)
Definition fmt_video (itag : Z) (label : string) : Format :=
  {| fmt_itag := itag; fmt_url := Some "https://v.example/videoplayback?noclen=1";
     fmt_mimeType := "video/mp4; codecs=avc1"; fmt_qualityLabel := Some label |}.

Definition fmt_audio : Format :=
  {| fmt_itag := 140; fmt_url := Some "https://a.example/videoplayback?noclen=1";
     fmt_mimeType := "audio/mp4; codecs=mp4a"; fmt_qualityLabel := None |}.

Definition sample_dl_urls : gmap Z string :=
  {[ 140 := "https://a.example/videoplayback?noclen=1&sq={0}";
     136 := "https://v.example/videoplayback?noclen=1&sq={0}" ]}.

(** ** [download_frags]: the outer loop *)

Module Worker.

(** What [seq_queue.get(timeout=...)] comes to in one turn of
    [while downloading:]: [queue.Empty], or a pair [(seq, max_seq)],
    given with what the requests for that fragment then answer. *)
Inductive queue_event :=
  | QueueEmpty
  | QueueItem (seq max_seq : Z) (results : list Frags.fetch_result).

(** [tries = 0; full_retries = 3; is_403 = False], at the top of the
    loop body. *)
Definition fresh (l : Frags.locals) : Frags.locals :=
  {| Frags.downloading := Frags.downloading l; Frags.tries := 0;
     Frags.full_retries := 3; Frags.is_403 := false; Frags.url := Frags.url l |}.

(** The local variables on entry: [downloading = True] and the URL of
    the track. *)
Definition locals_init (dt : dtype) (w : world) : Frags.locals :=
  {| Frags.downloading := true; Frags.tries := 0; Frags.full_retries := 3;
     Frags.is_403 := false;
     Frags.url := download_url (mdl_info (w_info w) dt) |}.

Section Turn.

Variable refresh : world -> pyret * world.
Variable data_type : dtype.

(** One turn of [while downloading:].  The boolean tells whether the
    loop is left by [break]; [frag_tries] counts the empty waits in a
    row; the last component is the fragment put on [data_queue], if
    any. *)
Definition turn (ev : queue_event) (l : Frags.locals) (frag_tries : Z) (w : world)
    : bool * Frags.locals * Z * world * option Fragment :=
  if stopping (w_info w) then (true, l, frag_tries, w, None)
  else
    let l := fresh l in
    match ev with
    | QueueEmpty =>
      if stopping (w_info w)
      then (true, Frags.set_downloading l false, frag_tries, w, None)
      else
        let frag_tries := frag_tries + 1 in
        if frag_tries >=? FRAG_MAX_TRIES then
          if active_threads (mdl_info (w_info w) data_type) >? 1
          then (false, Frags.set_downloading l false, frag_tries, w, None)
          else
            let w := if is_live (w_info w)
                     then snd (get_video_info refresh w) else w in
            if negb (is_live (w_info w))
            then (false, Frags.set_downloading l false, frag_tries, w, None)
            else (false, l, 0, w, None)
        else (false, l, frag_tries, w, None)
    | QueueItem seq max_seq results =>
      if (max_seq >? -1) && negb (is_live (w_info w)) && (seq >=? max_seq)
      then (true, Frags.set_downloading l false, 0, w, None)
      else
        let '(l, w, out) :=
          Frags.retry_loop refresh data_type seq max_seq results l w in
        (false, l, 0, w, out)
    end.

(** The statements after the loop:
    [info.mdl_info[data_type].active_threads -= 1]. *)
Definition finish (w : world) : world :=
  set_info w (set_active_threads (w_info w) data_type
                (active_threads (mdl_info (w_info w) data_type) - 1)).

(** The whole loop over what the queue hands out, then [finish];
    returns the world and the fragments delivered.  [None]: the events
    have run out and the worker is waiting on the queue. *)
Fixpoint run (events : list queue_event) (l : Frags.locals) (frag_tries : Z)
    (w : world) (delivered : list Fragment) : option (world * list Fragment) :=
  if Frags.downloading l then
    match events with
    | [] => None
    | ev :: events' =>
      let '(broke, l, frag_tries, w, out) := turn ev l frag_tries w in
      let delivered := delivered ++ option_list out in
      if broke then Some (finish w, delivered)
      else run events' l frag_tries w delivered
    end
  else Some (finish w, delivered).

(** [download_frags(data_type, info, seq_queue, data_queue)] *)
Definition download_frags (events : list queue_event) (w : world)
    : option (world * list Fragment) :=
  run events (locals_init data_type w) 0 w [].

(** A refresh under which the stream stays live and nobody stops the
    download. *)
Definition stays_live : Prop :=
  forall w, is_live (w_info w) = true -> stopping (w_info w) = false ->
    is_live (w_info (get_video_info refresh w).2) = true
    /\ stopping (w_info (get_video_info refresh w).2) = false
    /\ active_threads (mdl_info (w_info (get_video_info refresh w).2) data_type)
       = active_threads (mdl_info (w_info w) data_type).

End Turn.

(** A request that brings no fragment and is not an HTTP 403. *)
Definition plain_failure (r : Frags.fetch_result) : bool :=
  match r with
  | Frags.Fetched bytes_written _ => bytes_written =? 0
  | Frags.HTTPError code => negb (code =? 403)
  | Frags.OtherError => true
  end.

End Worker.

(** A stream that is live, for the examples. *)
Definition live_info : DownloadInfo :=
  {| format_info := FormatInfo_init; metadata := MetaInfo_init;
     stopping := false; in_progress := true; is_live := true; vp9 := false;
     is_unavailable := false; gvideo_ddl := false;
     thumbnail := ""; vid := "abc"; url := ""; selected_quality := "best";
     status := ""; dash_manifest_url := "";
     wait := ASK; quality := 136; retry_secs := 0; thread_count := 1;
     last_updated := float_of_int 0; target_duration := 5;
     expires_in_seconds := 21540;
     mdl_video := MediaDLInfo_init; mdl_audio := MediaDLInfo_init |}.

(** The same stream once it is over. *)
Definition ended_info : DownloadInfo :=
  {| format_info := FormatInfo_init; metadata := MetaInfo_init;
     stopping := false; in_progress := true; is_live := false; vp9 := false;
     is_unavailable := false; gvideo_ddl := false;
     thumbnail := ""; vid := "abc"; url := ""; selected_quality := "best";
     status := ""; dash_manifest_url := "";
     wait := ASK; quality := 136; retry_secs := 0; thread_count := 1;
     last_updated := float_of_int 0; target_duration := 5;
     expires_in_seconds := 21540;
     mdl_video := MediaDLInfo_init; mdl_audio := MediaDLInfo_init |}.

(** ** [download_stream]: the books it keeps *)

(** The sequence numbers handed to the workers so far are 0, 1, 2, ...
    up to [cur_seq], in this order. *)
Definition dispatched_in_order (l : Stream.locals) : Prop :=
  0 <= Stream.cur_seq l
  /\ (Stream.seq_queue l).*1 = seqZ 0 (Stream.cur_seq l).

(** [cur_frag] counts the fragments written, one progress report each,
    and [active_downloads] is the number of sequence numbers handed out
    less the number of fragments received (those written and those
    still held in [data]). *)
Definition balanced (l : Stream.locals) : Prop :=
  Stream.cur_frag l = len (Stream.progress_queue l)
  /\ Stream.active_downloads l
     = len (Stream.seq_queue l) - len (Stream.data l)
       - len (Stream.progress_queue l).

(** A fragment that arrives ahead of its turn, for the examples. *)
Definition frag5 : Fragment := Build_Fragment 5 "v.f299.frag5.ts" 9.

Definition frag5_arrives : Stream.cycle_env :=
  Stream.Build_cycle_env (fun _ => true) [frag5] [].

(** ** URLs given by the user *)

(** [s[:i]]: the first [i] characters for [0 <= i], all but the last
    [-i] for a negative [i]. *)
Definition slice_str_to (s : string) (i : Z) : string :=
  if i <? 0
  then String.substring 0 (Z.to_nat (Z.of_nat (String.length s) + i)) s
  else String.substring 0 (Z.to_nat i) s.

(** [s.rstrip(chars)]: the characters of [chars] are taken off the
    end, as many as there are. *)
Fixpoint rstrip_chars (chars : string) (s : string) : string :=
  match s with
  | EmptyString => EmptyString
  | String c s' =>
    match rstrip_chars chars s' with
    | EmptyString => if has_char c chars then EmptyString else String c EmptyString
    | r => String c r
    end
  end.

(** Made of characters of [chars] only. *)
Fixpoint all_in (chars : string) (s : string) : bool :=
  match s with
  | EmptyString => true
  | String c s' => has_char c chars && all_in chars s'
  end.

(** [info.gvideo_ddl = True], [info.vid = v] and
    [info.format_info.get_info()["id"] = v] *)
Definition set_gvideo_vid (info : DownloadInfo) (v : string) : DownloadInfo :=
  {| format_info :=
       {| finfo_id := v; finfo_title := finfo_title (format_info info);
          finfo_channel_id := finfo_channel_id (format_info info);
          finfo_channel := finfo_channel (format_info info);
          finfo_upload_date := finfo_upload_date (format_info info) |};
     metadata := metadata info;
     stopping := stopping info; in_progress := in_progress info;
     is_live := is_live info; vp9 := vp9 info;
     is_unavailable := is_unavailable info; gvideo_ddl := true;
     thumbnail := thumbnail info; vid := v; url := url info;
     selected_quality := selected_quality info; status := status info;
     dash_manifest_url := dash_manifest_url info;
     wait := wait info; quality := quality info; retry_secs := retry_secs info;
     thread_count := thread_count info; last_updated := last_updated info;
     target_duration := target_duration info;
     expires_in_seconds := expires_in_seconds info;
     mdl_video := mdl_video info; mdl_audio := mdl_audio info |}.

#[global] Instance dtype_eq_dec : EqDecision dtype.
Proof. solve_decision. Defined.

Section Urls.

(** What the library makes of a URL: [urllib.parse.urlparse(url)]
    gives its network location and its query, and
    [urllib.parse.parse_qs] the parameters of a query, each with the
    list of its values. *)
Variable netloc : string -> string.
Variable query : string -> string.
Variable parse_qs : string -> gmap string (list string).

(** [int(parsed_query[key][0])], with the exceptions of its three
    steps. *)
Definition int_param (parsed_query : gmap string (list string)) (key : string)
    : outcome Z :=
  match parsed_query !! key with
  | None => Raise KeyError
  | Some values =>
    match values !! 0%nat with
    | None => Raise IndexError
    | Some v =>
      match py_int v with
      | None => Raise ValueError
      | Some n => Ret n
      end
    end
  end.

(** [parse_gvideo_url(url, dtype)]; the empty text is the refusal. *)
Definition parse_gvideo_url (url : string) (dt : dtype) : outcome string :=
  let nurl := "" in
  let nl := lower (netloc url) in
  let parsed_query := parse_qs (query url) in
  match int_param parsed_query "itag" with
  | Raise e => Raise e
  | Ret itag =>
    let sq_idx := find url "&sq=" in
    if negb (endswith nl ".googlevideo.com") then Ret nurl
    else if negb (bool_decide (is_Some (parsed_query !! "noclen"))) then Ret nurl
    else if bool_decide (dt = DTYPE_AUDIO) && negb (itag =? AUDIO_ITAG) then Ret nurl
    else if bool_decide (dt = DTYPE_VIDEO) && (itag =? AUDIO_ITAG) then Ret nurl
    else Ret (slice_str_to url sq_idx +:+ "&sq={0}")
  end.

(** [parse_input_url], the three statements that note a direct
    [googlevideo.com] URL:
    [info.vid = parsed_query["id"][0].rstrip(".1")] with the two
    around it. *)
Definition note_gvideo_url (info : DownloadInfo) : outcome DownloadInfo :=
  let parsed_query := parse_qs (query (url info)) in
  match parsed_query !! "id" with
  | None => Raise KeyError
  | Some values =>
    match values !! 0%nat with
    | None => Raise IndexError
    | Some id => Ret (set_gvideo_vid info (rstrip_chars ".1" id))
    end
  end.

End Urls.

(** * Theorems *)

Example remove_sidx_one_sidx :
  remove_sidx one_sidx = Some (box "styp" [] ++ box "moof" [] ++ [x00]).
Proof. vm_compute. reflexivity. Qed.

Example scan_atoms_two_sidx :
  scan_atoms two_sidx
  = Some [("sidx"%string, Atom 0 9); ("sidx"%string, Atom 9 9);
          ("moof"%string, Atom 18 8)].
Proof. vm_compute. reflexivity. Qed.

Example remove_sidx_two_sidx :
  remove_sidx two_sidx = Some (box "sidx" [x01] ++ box "moof" [] ++ [x00])
  /\ remove_sidx (box "sidx" [x01] ++ box "moof" [] ++ [x00])
     = Some (box "moof" [] ++ [x00]).
Proof. split; vm_compute; reflexivity. Qed.

(** ** Slices and headers *)

Lemma be_value_acc_nonneg bs acc :
  0 <= acc -> 0 <= fold_left (fun a b => a * 256 + byte_val b) bs acc.
Proof.
  revert acc. induction bs as [|b bs IH]; intros acc Hacc; simpl; [done|].
  apply IH. unfold byte_val. lia.
Qed.

Lemma be_value_nonneg bs : 0 <= be_value bs.
Proof. apply be_value_acc_nonneg. lia. Qed.

Lemma read_header_nonneg data ofs aname alen :
  read_header data ofs = Some (aname, alen) -> 0 <= alen <= len data.
Proof.
  unfold read_header, int_of_hex.
  destruct (slice data ofs (ofs + 4)) as [|b bs] eqn:E; [done|].
  destruct (Z.gtb_spec (be_value (b :: bs)) (len data)); [done|].
  destruct (decode _); [|done].
  intros [= _ <-]. split; [apply be_value_nonneg | lia].
Qed.

(** The loop with its dictionary is the scan followed by the
    assignments. *)
Lemma get_atoms_loop_scan fuel data atoms ofs :
  get_atoms_loop fuel data atoms ofs
  = (fun l => record_atoms l atoms) <$> scan_loop fuel data ofs.
Proof.
  revert atoms ofs. induction fuel as [|fuel IH]; intros atoms ofs; simpl; [done|].
  destruct (read_header data ofs) as [[aname alen]|]; [|done].
  destruct (ofs + alen + 8 >=? len data); [done|].
  rewrite IH. by destruct (scan_loop fuel data (ofs + alen)).
Qed.

Lemma scan_loop_Scan fuel data ofs l :
  scan_loop fuel data ofs = Some l -> Scan data ofs l.
Proof.
  revert ofs l. induction fuel as [|fuel IH]; intros ofs l; simpl; [done|].
  destruct (read_header data ofs) as [[aname alen]|] eqn:Hh.
  - destruct (Z.geb_spec (ofs + alen + 8) (len data)).
    + intros [= <-]. apply Scan_last; [done | lia].
    + destruct (scan_loop fuel data (ofs + alen)) as [l'|] eqn:E; [|done].
      intros [= <-]. apply Scan_more; [done | lia | by apply IH].
  - intros [= <-]. by apply Scan_stop.
Qed.

Lemma Scan_det data ofs l1 l2 :
  Scan data ofs l1 -> Scan data ofs l2 -> l1 = l2.
Proof.
  intros H1. revert l2.
  induction H1 as [ofs Hh | ofs n a Hh Hc | ofs n a l Hh Hc Hs IH];
    intros l2 H2; inversion H2; subst; try congruence; simplify_eq; try lia.
  f_equal. by apply IH.
Qed.

(** A scan that ends never steps over an atom of length zero. *)
Lemma Scan_more_pos data ofs aname alen l :
  read_header data ofs = Some (aname, alen) ->
  ofs + alen + 8 < len data ->
  Scan data (ofs + alen) l -> 0 < alen.
Proof.
  intros Hh Hc Hs.
  destruct (read_header_nonneg _ _ _ _ Hh) as [H0 _].
  destruct (decide (alen = 0)) as [->|]; [|lia].
  exfalso. rewrite Z.add_0_r in *.
  pose proof (Scan_more _ _ _ _ _ Hh ltac:(lia) ltac:(by rewrite Z.add_0_r)) as Hs'.
  pose proof (Scan_det _ _ _ _ Hs Hs') as E.
  apply (f_equal length) in E. simpl in E. lia.
Qed.

Lemma Scan_length data ofs l :
  Scan data ofs l -> Z.of_nat (length l) <= Z.max 1 (len data - ofs - 7).
Proof.
  induction 1 as [ofs Hh | ofs n a Hh Hc | ofs n a l Hh Hc Hs IH]; simpl length; [lia..|].
  pose proof (Scan_more_pos _ _ _ _ _ Hh Hc Hs). lia.
Qed.

Lemma read_header_data_nonempty data ofs aname alen :
  read_header data ofs = Some (aname, alen) -> 0 < len data.
Proof.
  unfold read_header, int_of_hex, slice, len.
  destruct data as [|b data]; [|simpl length; lia].
  by rewrite drop_nil, take_nil.
Qed.

Lemma Scan_scan_loop data ofs l fuel :
  Scan data ofs l -> (length l < fuel)%nat ->
  scan_loop fuel data ofs = Some l.
Proof.
  intros Hs. revert fuel.
  induction Hs as [ofs Hh | ofs n a Hh Hc | ofs n a l Hh Hc Hs IH];
    intros [|fuel] Hl; try lia; simpl; rewrite Hh.
  - done.
  - destruct (Z.geb_spec (ofs + a + 8) (len data)); [done | lia].
  - destruct (Z.geb_spec (ofs + a + 8) (len data)); [lia|].
    simpl in Hl. rewrite IH; [done | lia].
Qed.

Lemma scan_atoms_Scan data l : scan_atoms data = Some l <-> Scan data 0 l.
Proof.
  split; [apply scan_loop_Scan|].
  intros Hs. apply Scan_scan_loop; [done|].
  pose proof (Scan_length _ _ _ Hs) as Hl.
  assert (l = [] \/ 0 < len data) as [->|Hpos].
  { inversion Hs; subst; eauto using read_header_data_nonempty. }
  - simpl. lia.
  - unfold len in *. lia.
Qed.

(** The fuel of [get_atoms] is enough for every run that returns. *)
Lemma get_atoms_fuel_enough data fuel atoms :
  get_atoms_loop fuel data ∅ 0 = Some atoms -> get_atoms data = Some atoms.
Proof.
  unfold get_atoms. rewrite !get_atoms_loop_scan.
  destruct (scan_loop fuel data 0) as [l|] eqn:E; [|done].
  intros [= <-]. apply scan_loop_Scan, scan_atoms_Scan in E.
  unfold scan_atoms in E. by rewrite E.
Qed.

(** [get_atoms] gives [None] exactly when the loop never ends. *)
Lemma get_atoms_None_iff data :
  get_atoms data = None <-> forall fuel, get_atoms_loop fuel data ∅ 0 = None.
Proof.
  split; [|intros H; apply H].
  intros Hn fuel. destruct (get_atoms_loop fuel data ∅ 0) as [atoms|] eqn:E; [|done].
  apply get_atoms_fuel_enough in E. congruence.
Qed.

Lemma get_atoms_scan data :
  get_atoms data = (fun l => record_atoms l ∅) <$> scan_atoms data.
Proof. apply get_atoms_loop_scan. Qed.

(** ** What the dictionary keeps *)

Lemma record_atoms_app l1 l2 atoms :
  record_atoms (l1 ++ l2) atoms = record_atoms l2 (record_atoms l1 atoms).
Proof. apply fold_left_app. Qed.

Lemma record_atoms_lookup_notin l atoms k :
  k ∉ names l -> record_atoms l atoms !! k = atoms !! k.
Proof.
  revert atoms. induction l as [|[n a] l IH]; intros atoms Hk; [done|].
  unfold names in Hk. simpl in Hk. apply not_elem_of_cons in Hk as [Hne Hk].
  simpl. rewrite IH by done. simpl. by rewrite lookup_insert_ne.
Qed.

(** A later assignment to a key overwrites the earlier ones: the
    dictionary holds the last atom recorded under each name. *)
Lemma record_atoms_lookup_last l1 k a l2 atoms :
  k ∉ names l2 -> record_atoms (l1 ++ (k, a) :: l2) atoms !! k = Some a.
Proof.
  intros Hk. rewrite record_atoms_app. simpl.
  rewrite record_atoms_lookup_notin by done. simpl. apply lookup_insert_eq.
Qed.

Lemma remove_sidx_not_found data l :
  scan_atoms data = Some l -> "sidx"%string ∉ names l ->
  remove_sidx data = Some data.
Proof.
  intros Hs Hk. unfold remove_sidx. rewrite get_atoms_scan, Hs. simpl.
  by rewrite record_atoms_lookup_notin, lookup_empty.
Qed.

Lemma remove_sidx_found data l1 a l2 :
  scan_atoms data = Some (l1 ++ ("sidx"%string, a) :: l2) ->
  "sidx"%string ∉ names l2 ->
  remove_sidx data
  = Some (slice_to data (atom_ofs a) ++ slice_from data (atom_ofs a + atom_len a)).
Proof.
  intros Hs Hk. unfold remove_sidx. rewrite get_atoms_scan, Hs. simpl.
  by rewrite record_atoms_lookup_last.
Qed.

(** ** Where the recorded atoms lie *)

Lemma Scan_head data ofs e l :
  Scan data ofs (e :: l) ->
  read_header data ofs = Some (e.1, atom_len e.2) /\ atom_ofs e.2 = ofs.
Proof. inversion 1; subst; by simpl. Qed.

Lemma Scan_tail data ofs e l :
  Scan data ofs (e :: l) -> l <> [] ->
  ofs + atom_len e.2 + 8 < len data /\ Scan data (ofs + atom_len e.2) l.
Proof. inversion 1; subst; by simpl. Qed.

(** Atoms are recorded at increasing offsets inside the data, each one
    at or after the end of the one before. *)
Lemma Scan_split data ofs l1 l2 :
  Scan data ofs (l1 ++ l2) -> 0 <= ofs <= len data -> l2 <> [] ->
  exists ofs', Scan data ofs' l2 /\ ofs <= ofs' <= len data /\
    Forall (fun e => 0 <= atom_ofs e.2 /\ 0 <= atom_len e.2
                     /\ atom_ofs e.2 + atom_len e.2 <= ofs') l1.
Proof.
  revert ofs. induction l1 as [|e l1 IH]; intros ofs Hs Hofs Hne.
  - exists ofs. by repeat split; try lia.
  - simpl in Hs. destruct (Scan_head _ _ _ _ Hs) as [Hh Heq].
    destruct (Scan_tail _ _ _ _ Hs) as [Hc Hs']; [by destruct l1|].
    pose proof (read_header_nonneg _ _ _ _ Hh) as [H0 _].
    destruct (IH _ Hs') as (ofs' & Hs2 & Hle & Hall); [lia | done |].
    exists ofs'. split; [done|]. split; [lia|].
    constructor; [lia | done].
Qed.

(** ** Slices of spliced data *)

Lemma window_prefix (d r : list byte) (lo n p : nat) :
  (lo + n <= p)%nat -> (p <= length d)%nat ->
  take n (drop lo (take p d ++ r)) = take n (drop lo d).
Proof.
  intros H1 H2. rewrite !take_drop_commute. f_equal.
  rewrite take_app_le by (rewrite length_take; lia).
  rewrite take_take. f_equal. lia.
Qed.

Lemma window_shift (pre mid post : list byte) (lo n : nat) :
  (length pre <= lo)%nat ->
  take n (drop (lo + length mid) (pre ++ mid ++ post))
  = take n (drop lo (pre ++ post)).
Proof.
  intros H. f_equal.
  rewrite (drop_app_ge pre) by lia. rewrite (drop_app_ge mid) by lia.
  rewrite (drop_app_ge pre) by lia. f_equal. lia.
Qed.

Lemma slice_prefix data rest p lo hi :
  0 <= lo -> hi <= p -> p <= len data ->
  slice (slice_to data p ++ rest) lo hi = slice data lo hi.
Proof.
  intros H1 H2 H3. unfold slice, slice_to, len in *.
  destruct (decide (hi <= lo)) as [Hle|Hlt].
  - replace (Z.to_nat (hi - lo)) with 0%nat by lia. done.
  - apply window_prefix; lia.
Qed.

Lemma slice_shift pre mid post lo hi :
  len pre <= lo ->
  slice (pre ++ mid ++ post) (lo + len mid) (hi + len mid)
  = slice (pre ++ post) lo hi.
Proof.
  intros H. unfold slice, len in *.
  replace (hi + Z.of_nat (length mid) - (lo + Z.of_nat (length mid))) with (hi - lo) by lia.
  replace (Z.to_nat (lo + Z.of_nat (length mid)))
    with (Z.to_nat lo + length mid)%nat by lia.
  apply window_shift. lia.
Qed.

(** The data around an atom at [ofs] of length [alen] that lies inside
    the data: what precedes it, the atom, what follows it. *)
Lemma splice_parts data ofs alen :
  0 <= ofs -> 0 <= alen -> ofs + alen <= len data ->
  exists pre mid post,
    data = pre ++ mid ++ post /\ len pre = ofs /\ len mid = alen /\
    slice_to data ofs ++ slice_from data (ofs + alen) = pre ++ post.
Proof.
  intros H1 H2 H3. unfold len, slice_to, slice_from in *.
  exists (take (Z.to_nat ofs) data),
         (take (Z.to_nat alen) (drop (Z.to_nat ofs) data)),
         (drop (Z.to_nat (ofs + alen)) data).
  split; [|split; [|split]].
  - rewrite Z2Nat.inj_add by lia.
    rewrite <- (take_drop (Z.to_nat ofs) data) at 1. f_equal.
    rewrite <- drop_drop. by rewrite take_drop.
  - rewrite length_take. lia.
  - rewrite length_take, length_drop. lia.
  - done.
Qed.

(** [read_header] looks only at the two four-byte slices and at the
    length of the data. *)
Lemma read_header_same d1 o1 d2 o2 aname alen :
  slice d2 o2 (o2 + 4) = slice d1 o1 (o1 + 4) ->
  slice d2 (o2 + 4) (o2 + 8) = slice d1 (o1 + 4) (o1 + 8) ->
  read_header d1 o1 = Some (aname, alen) -> alen <= len d2 ->
  read_header d2 o2 = Some (aname, alen).
Proof.
  unfold read_header. intros -> ->.
  destruct (int_of_hex _) as [a|]; [|done].
  destruct (Z.gtb_spec a (len d1)); [done|].
  destruct (decode _); [|done]. intros [= -> ->] Hle.
  destruct (Z.gtb_spec alen (len d2)); [lia | done].
Qed.

Lemma read_header_shorter d1 o1 d2 o2 :
  slice d2 o2 (o2 + 4) = slice d1 o1 (o1 + 4) ->
  slice d2 (o2 + 4) (o2 + 8) = slice d1 (o1 + 4) (o1 + 8) ->
  len d2 <= len d1 ->
  read_header d2 o2 = None \/ read_header d2 o2 = read_header d1 o1.
Proof.
  unfold read_header. intros -> -> Hle.
  destruct (int_of_hex _) as [a|]; [|by left].
  destruct (Z.gtb_spec a (len d2)); [by left|].
  destruct (Z.gtb_spec a (len d1)); [lia|]. by right.
Qed.

(** ** Scanning the data with one atom spliced out *)

(** Past the splice point the scan of the spliced data follows the
    scan of the original data, [len mid] bytes further on, and can
    only stop earlier. *)
Lemma Scan_shift pre mid post o l :
  Scan (pre ++ mid ++ post) o l ->
  forall ofs, o = ofs + len mid -> len pre <= ofs ->
  exists l', Scan (pre ++ post) ofs l' /\ (forall k, k ∈ names l' -> k ∈ names l).
Proof.
  induction 1 as [o Hh | o n a Hh Hc | o n a l Hh Hc Hs IH]; intros ofs -> Hpre.
  all: assert (len (pre ++ post) <= len (pre ++ mid ++ post)) as Hlen
         by (unfold len; rewrite !length_app; lia).
  all: assert (len (pre ++ mid ++ post) = len (pre ++ post) + len mid) as Hlen'
         by (unfold len; rewrite !length_app; lia).
  all: assert (slice (pre ++ post) ofs (ofs + 4)
               = slice (pre ++ mid ++ post) (ofs + len mid) (ofs + len mid + 4)) as E1
         by (replace (ofs + len mid + 4) with (ofs + 4 + len mid) by lia;
             symmetry; by apply slice_shift).
  all: assert (slice (pre ++ post) (ofs + 4) (ofs + 8)
               = slice (pre ++ mid ++ post) (ofs + len mid + 4) (ofs + len mid + 8)) as E2
         by (replace (ofs + len mid + 4) with (ofs + 4 + len mid) by lia;
             replace (ofs + len mid + 8) with (ofs + 8 + len mid) by lia;
             symmetry; apply slice_shift; lia).
  all: destruct (read_header_shorter _ _ _ _ E1 E2 Hlen) as [Hn|He];
         [exists []; split; [by apply Scan_stop | intros k Hk; by apply elem_of_nil in Hk]|].
  - rewrite Hh in He. exists []. split; [by apply Scan_stop|].
    intros k Hk. by apply elem_of_nil in Hk.
  - rewrite Hh in He. exists [(n, Atom ofs a)]. split.
    + apply Scan_last; [done | lia].
    + done.
  - rewrite Hh in He.
    pose proof (read_header_nonneg _ _ _ _ Hh) as [H0 _].
    destruct (IH (ofs + a)) as (l' & Hs' & Hsub); [lia | lia |].
    exists ((n, Atom ofs a) :: l'). split.
    + apply Scan_more; [done | lia | done].
    + intros k. unfold names. simpl. rewrite !elem_of_cons.
      intros [->|Hk]; [by left | right; by apply Hsub].
Qed.

Lemma len_splice data ofs alen :
  0 <= ofs <= len data -> 0 <= alen ->
  len (slice_to data ofs ++ slice_from data (ofs + alen))
  = ofs + Z.max 0 (len data - ofs - alen).
Proof.
  intros H1 H2. unfold len, slice_to, slice_from in *.
  rewrite length_app, length_take, length_drop. lia.
Qed.

Lemma not_is_sidx e : is_sidx e = false <-> e.1 <> "sidx"%string.
Proof. unfold is_sidx. by rewrite String.eqb_neq. Qed.

Lemma has_sidx_false l : has_sidx l = false <-> "sidx"%string ∉ names l.
Proof.
  unfold has_sidx, names. induction l as [|e l IH]; simpl.
  - split; [intros _; apply not_elem_of_nil | done].
  - rewrite orb_false_iff, not_elem_of_cons, IH, not_is_sidx. intuition congruence.
Qed.

(** At the [sidx] atom itself, when more than 8 bytes follow it. *)
Lemma Scan_spliced_at data ok lk l2 :
  Scan data ok (("sidx"%string, Atom ok lk) :: l2) ->
  0 <= ok <= len data -> ok + lk + 8 < len data ->
  "sidx"%string ∉ names l2 ->
  exists l', Scan (slice_to data ok ++ slice_from data (ok + lk)) ok l'
             /\ "sidx"%string ∉ names l'.
Proof.
  intros Hs Hok HP Hno.
  destruct (Scan_head _ _ _ _ Hs) as [Hh _]. simpl in Hh.
  pose proof (read_header_nonneg _ _ _ _ Hh) as [H0 _].
  assert (Scan data (ok + lk) l2) as Hs2.
  { inversion Hs; subst; [lia | done]. }
  destruct (splice_parts data ok lk) as (pre & mid & post & -> & Hpre & Hmid & ->);
    [lia..|].
  destruct (Scan_shift _ _ _ _ _ Hs2 ok) as (l' & Hs' & Hsub); [lia..|].
  exists l'. split; [done|]. intros Hin. by apply Hno, Hsub.
Qed.

(** From any atom before the [sidx] atom. *)
Lemma Scan_spliced data ok lk l2 l1 : forall ofs,
  Scan data ofs (l1 ++ ("sidx"%string, Atom ok lk) :: l2) ->
  0 <= ofs <= len data ->
  "sidx"%string ∉ names l1 -> "sidx"%string ∉ names l2 ->
  Forall (fun e => 8 <= atom_len e.2) l1 ->
  (l1 = [] -> ok + lk + 8 < len data) ->
  exists l', Scan (slice_to data ok ++ slice_from data (ok + lk)) ofs l'
             /\ "sidx"%string ∉ names l'.
Proof.
  induction l1 as [|[n [o a]] l1 IH]; intros ofs Hs Hofs Hno1 Hno2 Hsz HP.
  - simpl in Hs. destruct (Scan_head _ _ _ _ Hs) as [_ Heq]. simpl in Heq. subst ofs.
    apply (Scan_spliced_at _ _ _ l2); auto.
  - simpl in Hs.
    destruct (Scan_head _ _ _ _ Hs) as [Hh Heq]. simpl in Hh, Heq. subst o.
    destruct (Scan_tail _ _ _ _ Hs) as [Hc Hs1]; [by destruct l1|]. simpl in Hc, Hs1.
    pose proof (read_header_nonneg _ _ _ _ Hh) as [H0 _].
    apply Forall_cons in Hsz as [Ha Hsz]. simpl in Ha.
    unfold names in Hno1. simpl in Hno1.
    apply not_elem_of_cons in Hno1 as [Hn Hno1].
    destruct (Scan_split _ _ _ _ Hs1) as (ofs' & Hs2 & Hle & _); [lia | done |].
    destruct (Scan_head _ _ _ _ Hs2) as [Hh2 Heq2]. simpl in Hh2, Heq2. subst ofs'.
    pose proof (read_header_nonneg _ _ _ _ Hh2) as [H0k _].
    set (data' := slice_to data ok ++ slice_from data (ok + lk)).
    assert (len data' = ok + Z.max 0 (len data - ok - lk)) as Hlen'
      by (apply len_splice; lia).
    assert (read_header data' ofs = Some (n, a)) as Hh'.
    { apply (read_header_same data ofs); [| | done | lia].
      - apply slice_prefix; lia.
      - apply slice_prefix; lia. }
    destruct (decide (ofs + a + 8 < len data')) as [Hlt|Hge].
    + destruct (IH (ofs + a)) as (l' & Hs' & Hno'); auto; [lia | |].
      { intros ->. simpl in Hs1.
        destruct (Scan_head _ _ _ _ Hs1) as [_ Heq]. simpl in Heq. lia. }
      exists ((n, Atom ofs a) :: l'). split.
      * apply Scan_more; [done | lia | done].
      * unfold names. simpl. apply not_elem_of_cons. by split.
    + exists [(n, Atom ofs a)]. split.
      * apply Scan_last; [done | lia].
      * unfold names. simpl. apply not_elem_of_cons. split; [done | apply not_elem_of_nil].
Qed.

Lemma lone_sidx_split data first l :
  lone_sidx data first l = true ->
  exists l1 a l2, l = l1 ++ ("sidx"%string, a) :: l2 /\
    ("sidx"%string ∉ names l1) /\ ("sidx"%string ∉ names l2) /\
    Forall (fun e => 8 <= atom_len e.2) l1 /\
    (first = true -> l1 = [] -> atom_len a + 8 < len data).
Proof.
  revert first. induction l as [|[n a] l IH]; intros first; simpl; [done|].
  destruct (is_sidx (n, a)) eqn:Hsx.
  - unfold is_sidx in Hsx. simpl in Hsx. apply String.eqb_eq in Hsx as ->.
    rewrite andb_true_iff, negb_true_iff, has_sidx_false, orb_true_iff.
    intros [Hno Hf]. exists [], a, l. split; [done|].
    split; [apply not_elem_of_nil|]. split; [done|]. split; [constructor|].
    intros -> _. destruct Hf as [Hf|Hf]; [done | lia].
  - rewrite andb_true_iff. intros [Ha Hl].
    destruct (IH _ Hl) as (l1 & a' & l2 & -> & Hn1 & Hn2 & Hsz & _).
    exists ((n, a) :: l1), a', l2. split; [done|]. split.
    { unfold names. simpl. apply not_elem_of_cons. split; [|done].
      apply (not_is_sidx (n, a)) in Hsx. simpl in Hsx. congruence. }
    split; [done|]. split; [constructor; [simpl; lia | done] | done].
Qed.

(** ** Data made of well-formed boxes *)

Lemma byte_val_byte_of_Z z : byte_val (byte_of_Z z) = z mod 256.
Proof.
  unfold byte_val, byte_of_Z.
  pose proof (Z.mod_pos_bound z 256 ltac:(lia)) as Hb.
  destruct (Byte.of_N (Z.to_N (z mod 256))) as [b|] eqn:E.
  - apply Byte.to_of_N in E. simpl. rewrite E. lia.
  - apply Byte.of_N_None_iff in E. lia.
Qed.

Lemma be_value_be32 n : 0 <= n < 4294967296 -> be_value (be32 n) = n.
Proof.
  intros Hn. unfold be_value, be32. cbn [fold_left].
  rewrite !byte_val_byte_of_Z.
  rewrite (Z.mod_small (n / 16777216))
    by (split; [apply Z.div_pos | apply Z.div_lt_upper_bound]; lia).
  assert (n / 65536 = n / 256 / 256) as -> by (by rewrite Z.div_div by lia).
  assert (n / 16777216 = n / 256 / 256 / 256) as ->
    by (by rewrite !Z.div_div by lia).
  pose proof (Z.div_mod n 256 ltac:(lia)).
  pose proof (Z.div_mod (n / 256) 256 ltac:(lia)).
  pose proof (Z.div_mod (n / 256 / 256) 256 ltac:(lia)).
  lia.
Qed.

Lemma len_app {A} (l k : list A) : len (l ++ k) = len l + len k.
Proof. unfold len. rewrite length_app. lia. Qed.

Lemma len_nonneg {A} (l : list A) : 0 <= len l.
Proof. unfold len. lia. Qed.

Lemma len_box name payload :
  length (bytes_of name) = 4%nat -> len (box name payload) = 8 + len payload.
Proof.
  intros H. unfold box, len. rewrite !length_app, H. simpl. lia.
Qed.

Lemma slice_after pre x n :
  slice (pre ++ x) (len pre) (len pre + Z.of_nat n) = take n x.
Proof.
  unfold slice, len. replace (Z.of_nat (length pre) + Z.of_nat n - Z.of_nat (length pre))
    with (Z.of_nat n) by lia.
  rewrite !Nat2Z.id. by rewrite drop_app_length.
Qed.

Lemma decode_bytes_of name :
  utf8_valid (bytes_of name) = true -> decode (bytes_of name) = Some name.
Proof.
  intros H. unfold decode. rewrite H. unfold bytes_of.
  by rewrite string_of_list_byte_of_string.
Qed.

Lemma well_formed_box_name b :
  well_formed_box b = true -> length (bytes_of b.1) = 4%nat.
Proof.
  unfold well_formed_box. rewrite !andb_true_iff.
  intros [[Hl _] _]. by apply Nat.eqb_eq.
Qed.

(** The header of a well-formed box that lies inside the data reads
    back as its name and its size. *)
Lemma read_header_box pre b rest :
  well_formed_box b = true ->
  read_header (pre ++ box b.1 b.2 ++ rest) (len pre) = Some (b.1, 8 + len b.2).
Proof.
  unfold well_formed_box. rewrite !andb_true_iff.
  intros [[Hl Hu] Hs]. apply Nat.eqb_eq in Hl. apply Z.ltb_lt in Hs.
  pose proof (len_nonneg b.2) as Hp.
  set (data := pre ++ box b.1 b.2 ++ rest).
  assert (slice data (len pre) (len pre + 4) = be32 (8 + len b.2)) as S1.
  { subst data. replace (len pre + 4) with (len pre + Z.of_nat 4) by lia.
    by rewrite slice_after. }
  assert (slice data (len pre + 4) (len pre + 8) = bytes_of b.1) as S2.
  { subst data. unfold box. rewrite <- !app_assoc, (app_assoc pre).
    replace (len pre + 4) with (len (pre ++ be32 (8 + len b.2)))
      by (unfold len; rewrite length_app; simpl; lia).
    replace (len pre + 8) with (len (pre ++ be32 (8 + len b.2)) + Z.of_nat 4)
      by (unfold len; rewrite length_app; simpl; lia).
    rewrite slice_after. by rewrite take_app_length'. }
  assert (8 + len b.2 <= len data) as Hle.
  { subst data. rewrite !len_app, len_box by done.
    pose proof (len_nonneg pre). pose proof (len_nonneg rest). lia. }
  unfold read_header. rewrite S1, S2.
  change (int_of_hex (be32 (8 + len b.2))) with (Some (be_value (be32 (8 + len b.2)))).
  rewrite be_value_be32 by lia.
  destruct (Z.gtb_spec (8 + len b.2) (len data)); [lia|].
  by rewrite decode_bytes_of.
Qed.

(** Well-formed boxes followed by more than 8 bytes at which the loop
    stops (say a box cut short by the end of the buffer) are recorded
    one by one, each at its offset. *)
Lemma Scan_boxes bs : forall pre rest,
  Forall (fun b => well_formed_box b = true) bs ->
  8 < len rest ->
  read_header (pre ++ encode_boxes bs ++ rest) (len pre + len (encode_boxes bs)) = None ->
  Scan (pre ++ encode_boxes bs ++ rest) (len pre) (layout (len pre) bs).
Proof.
  induction bs as [|b bs IH]; intros pre rest Hwf Hrest Hstop.
  - unfold encode_boxes in *. simpl in *. rewrite Z.add_0_r in Hstop.
    by apply Scan_stop.
  - apply Forall_cons in Hwf as [Hb Hwf].
    pose proof (well_formed_box_name b Hb) as Hl.
    assert (encode_boxes (b :: bs) = box b.1 b.2 ++ encode_boxes bs) as E by done.
    rewrite E in *. rewrite <- app_assoc in *.
    cbn [layout].
    apply Scan_more.
    + by apply read_header_box.
    + rewrite !len_app, len_box by done.
      pose proof (len_nonneg (encode_boxes bs)). lia.
    + specialize (IH (pre ++ box b.1 b.2) rest Hwf Hrest).
      rewrite len_app, len_box, <- app_assoc in IH by done.
      apply IH. rewrite len_app, len_box in Hstop by done.
      by rewrite <- Z.add_assoc.
Qed.

Lemma scan_atoms_boxes bs rest :
  Forall (fun b => well_formed_box b = true) bs ->
  8 < len rest ->
  read_header (encode_boxes bs ++ rest) (len (encode_boxes bs)) = None ->
  scan_atoms (encode_boxes bs ++ rest) = Some (layout 0 bs).
Proof.
  intros Hwf Hrest Hstop. apply scan_atoms_Scan.
  by apply (Scan_boxes bs [] rest).
Qed.

Lemma names_layout ofs bs : names (layout ofs bs) = bs.*1.
Proof.
  revert ofs. induction bs as [|b bs IH]; intros ofs; [done|].
  unfold names in *. simpl. by rewrite IH.
Qed.

Lemma layout_app ofs bs1 bs2 :
  Forall (fun b => well_formed_box b = true) bs1 ->
  layout ofs (bs1 ++ bs2)
  = layout ofs bs1 ++ layout (ofs + len (encode_boxes bs1)) bs2.
Proof.
  revert ofs. induction bs1 as [|b bs1 IH]; intros ofs Hwf.
  - simpl. unfold encode_boxes, len. simpl. by rewrite Z.add_0_r.
  - apply Forall_cons in Hwf as [Hb Hwf].
    pose proof (well_formed_box_name b Hb) as Hl.
    simpl. rewrite IH by done. do 3 f_equal.
    change (encode_boxes (b :: bs1)) with (box b.1 b.2 ++ encode_boxes bs1).
    rewrite len_app, len_box by done. lia.
Qed.

Lemma encode_boxes_app bs1 bs2 :
  encode_boxes (bs1 ++ bs2) = encode_boxes bs1 ++ encode_boxes bs2.
Proof. unfold encode_boxes. by rewrite fmap_app, concat_app. Qed.

(** Boxes behind which at most 8 bytes are left are recorded one by
    one as well, provided each of them but the first starts more than
    8 bytes before the end of the data. *)
Lemma Scan_boxes_end bs : forall pre rest,
  Forall (fun b => well_formed_box b = true) bs -> bs <> [] ->
  len rest <= 8 ->
  Forall (fun e => atom_ofs e.2 + 8 < len (pre ++ encode_boxes bs ++ rest))
         (tail (layout (len pre) bs)) ->
  Scan (pre ++ encode_boxes bs ++ rest) (len pre) (layout (len pre) bs).
Proof.
  induction bs as [|b bs IH]; intros pre rest Hwf Hne Hrest Hreach; [done|].
  apply Forall_cons in Hwf as [Hb Hwf].
  pose proof (well_formed_box_name b Hb) as Hl.
  assert (encode_boxes (b :: bs) = box b.1 b.2 ++ encode_boxes bs) as E by done.
  rewrite E in *. rewrite <- app_assoc in *.
  destruct bs as [|b' bs'].
  - cbn [layout]. apply Scan_last; [by apply read_header_box|].
    rewrite !len_app, len_box by done. unfold encode_boxes, len at 3. simpl. lia.
  - cbn [layout tail] in *. apply Forall_cons in Hreach as [Hnext Hreach].
    cbn [snd atom_ofs] in Hnext.
    apply Scan_more; [by apply read_header_box | done |].
    specialize (IH (pre ++ box b.1 b.2) rest Hwf ltac:(done) Hrest).
    replace (len (pre ++ box b.1 b.2)) with (len pre + (8 + len b.2)) in IH
      by (by rewrite len_app, len_box).
    rewrite <- app_assoc in IH. by apply IH.
Qed.

Lemma scan_atoms_boxes_scanned bs rest :
  Forall (fun b => well_formed_box b = true) bs -> bs <> [] ->
  boxes_scanned bs rest = true ->
  scan_atoms (encode_boxes bs ++ rest) = Some (layout 0 bs).
Proof.
  intros Hwf Hne Hsc. unfold boxes_scanned in Hsc.
  apply andb_true_iff in Hsc as [Hreach Hstop].
  destruct (Z.leb_spec (len rest) 8) as [Hle|Hgt].
  - apply scan_atoms_Scan. apply (Scan_boxes_end bs [] rest); [done..|].
    apply Forall_forall. intros e He.
    rewrite forallb_forall in Hreach.
    apply list_elem_of_In, Hreach, Z.ltb_lt in He. exact He.
  - simpl in Hstop. apply scan_atoms_boxes; [done..|].
    by destruct (read_header _ _).
Qed.

(** Once the scan has recorded the boxes, [remove_sidx] takes out the
    last box named [sidx], whole, and nothing else. *)
Lemma remove_sidx_layout_last bs1 payload bs2 rest :
  Forall (fun b => well_formed_box b = true) (bs1 ++ ("sidx"%string, payload) :: bs2) ->
  scan_atoms (encode_boxes (bs1 ++ ("sidx"%string, payload) :: bs2) ++ rest)
  = Some (layout 0 (bs1 ++ ("sidx"%string, payload) :: bs2)) ->
  "sidx"%string ∉ bs2.*1 ->
  remove_sidx (encode_boxes (bs1 ++ ("sidx"%string, payload) :: bs2) ++ rest)
  = Some (encode_boxes (bs1 ++ bs2) ++ rest).
Proof.
  intros Hwf Hs Hno.
  apply Forall_app in Hwf as [Hwf1 Hwf2].
  apply Forall_cons in Hwf2 as [Hb Hwf2].
  rewrite layout_app in Hs by done. cbn [layout fst snd] in Hs.
  rewrite (remove_sidx_found _ _ _ _ Hs) by (by rewrite names_layout).
  cbn [atom_ofs atom_len]. f_equal.
  rewrite !encode_boxes_app.
  change (encode_boxes (("sidx"%string, payload) :: bs2))
    with (box "sidx" payload ++ encode_boxes bs2).
  unfold slice_to, slice_from.
  rewrite <- !app_assoc.
  replace (Z.to_nat (0 + len (encode_boxes bs1))) with (length (encode_boxes bs1))
    by (unfold len; lia).
  rewrite take_app_length. f_equal.
  replace (Z.to_nat (0 + len (encode_boxes bs1) + (8 + len payload)))
    with (length (encode_boxes bs1) + length (box "sidx" payload))%nat.
  - rewrite drop_app_add', drop_app_length; done.
  - pose proof (len_box "sidx" payload eq_refl) as Hl. unfold len in *. lia.
Qed.

(** Seen box by box: in data made of well-formed boxes (followed by
    more than 8 bytes at which the loop stops), [remove_sidx] takes out
    the last box named [sidx], whole, and nothing else. *)
Lemma remove_sidx_boxes_last bs1 payload bs2 rest :
  Forall (fun b => well_formed_box b = true) (bs1 ++ ("sidx"%string, payload) :: bs2) ->
  8 < len rest ->
  read_header (encode_boxes (bs1 ++ ("sidx"%string, payload) :: bs2) ++ rest)
    (len (encode_boxes (bs1 ++ ("sidx"%string, payload) :: bs2))) = None ->
  "sidx"%string ∉ bs2.*1 ->
  remove_sidx (encode_boxes (bs1 ++ ("sidx"%string, payload) :: bs2) ++ rest)
  = Some (encode_boxes (bs1 ++ bs2) ++ rest).
Proof.
  intros Hwf Hrest Hstop Hno.
  apply remove_sidx_layout_last; [done| |done].
  by apply scan_atoms_boxes.
Qed.

(** Seen box by box: data made of well-formed boxes none of which is
    named [sidx] passes through unchanged. *)
Lemma remove_sidx_boxes_none bs rest :
  Forall (fun b => well_formed_box b = true) bs ->
  8 < len rest ->
  read_header (encode_boxes bs ++ rest) (len (encode_boxes bs)) = None ->
  "sidx"%string ∉ bs.*1 ->
  remove_sidx (encode_boxes bs ++ rest) = Some (encode_boxes bs ++ rest).
Proof.
  intros Hwf Hrest Hstop Hno.
  apply (remove_sidx_not_found _ (layout 0 bs)).
  - by apply scan_atoms_boxes.
  - by rewrite names_layout.
Qed.

Lemma slice_past pre x a b :
  0 <= a -> slice (pre ++ x) (len pre + a) (len pre + b) = slice x a b.
Proof.
  intros Ha. unfold slice, len.
  replace (Z.of_nat (length pre) + b - (Z.of_nat (length pre) + a)) with (b - a) by lia.
  replace (Z.to_nat (Z.of_nat (length pre) + a)) with (length pre + Z.to_nat a)%nat by lia.
  by rewrite drop_app_add'.
Qed.

(** What stops the loop after the boxes still stops it when a box
    before it has been taken out: the data has only become shorter. *)
Lemma read_header_stop_kept pre pre' rest :
  len pre' <= len pre ->
  read_header (pre ++ rest) (len pre) = None ->
  read_header (pre' ++ rest) (len pre') = None.
Proof.
  intros Hle Hstop.
  destruct (read_header_shorter (pre ++ rest) (len pre) (pre' ++ rest) (len pre'))
    as [H|H]; [| | |done|congruence].
  - replace (len pre') with (len pre' + 0) at 1 by lia.
    replace (len pre) with (len pre + 0) at 1 by lia.
    by rewrite !slice_past.
  - by rewrite !slice_past.
  - rewrite !len_app. lia.
Qed.

(** Seen box by box: with exactly one box named [sidx], a second
    application changes nothing. *)
Lemma remove_sidx_boxes_idempotent bs1 payload bs2 rest :
  Forall (fun b => well_formed_box b = true) (bs1 ++ ("sidx"%string, payload) :: bs2) ->
  8 < len rest ->
  read_header (encode_boxes (bs1 ++ ("sidx"%string, payload) :: bs2) ++ rest)
    (len (encode_boxes (bs1 ++ ("sidx"%string, payload) :: bs2))) = None ->
  ("sidx"%string ∉ bs1.*1) -> ("sidx"%string ∉ bs2.*1) ->
  remove_sidx (encode_boxes (bs1 ++ ("sidx"%string, payload) :: bs2) ++ rest)
  = Some (encode_boxes (bs1 ++ bs2) ++ rest)
  /\ remove_sidx (encode_boxes (bs1 ++ bs2) ++ rest)
     = Some (encode_boxes (bs1 ++ bs2) ++ rest).
Proof.
  intros Hwf Hrest Hstop Hno1 Hno2.
  split; [by apply remove_sidx_boxes_last|].
  apply remove_sidx_boxes_none; [|done| |].
  - apply Forall_app in Hwf as [Hwf1 Hwf2].
    apply Forall_cons in Hwf2 as [_ Hwf2]. by apply Forall_app.
  - refine (read_header_stop_kept _ _ _ _ Hstop).
    rewrite !encode_boxes_app.
    change (encode_boxes (("sidx"%string, payload) :: bs2))
      with (box "sidx" payload ++ encode_boxes bs2).
    rewrite !len_app. pose proof (len_nonneg (box "sidx" payload)). lia.
  - rewrite fmap_app. apply not_elem_of_app. by split.
Qed.

(** The first read of a fragment as the service sends it: whole boxes,
    then a media box cut short by the end of the buffer. *)
Example remove_sidx_fragment_head :
  remove_sidx (encode_boxes [("styp"%string, [x01]); ("sidx"%string, [x02; x03]);
                             ("moof"%string, [x04])]
               ++ be32 100000 ++ bytes_of "mdat" ++ [x05])
  = Some (encode_boxes [("styp"%string, [x01]); ("moof"%string, [x04])]
          ++ be32 100000 ++ bytes_of "mdat" ++ [x05]).
Proof.
  apply (remove_sidx_boxes_last [("styp"%string, [x01])] [x02; x03]
           [("moof"%string, [x04])]).
  - repeat constructor.
  - by vm_compute.
  - by vm_compute.
  - intros Hin. apply list_elem_of_In in Hin. simpl in Hin. intuition discriminate.
Qed.

(** ** [remove_sidx]: the claims *)

(** When the loop reaches an atom whose length field is zero with more
    than 8 bytes left, [ofs] stops advancing and the loop never ends. *)
Lemma get_atoms_loop_stuck data ofs aname :
  read_header data ofs = Some (aname, 0) -> ofs + 8 < len data ->
  forall fuel atoms, get_atoms_loop fuel data atoms ofs = None.
Proof.
  intros Hh Hc. induction fuel as [|fuel IH]; intros atoms; simpl; [done|].
  rewrite Hh. rewrite Z.add_0_r.
  destruct (Z.geb_spec (ofs + 8) (len data)); [lia | apply IH].
Qed.

(** Zero-length atoms are the only reason for the loop not to end:
    on data none of whose headers announces a length of zero,
    [remove_sidx] returns. *)
Lemma scan_loop_returns data fuel ofs :
  (forall o aname, read_header data o <> Some (aname, 0)) ->
  Z.max 0 (len data - ofs) < Z.of_nat fuel ->
  is_Some (scan_loop fuel data ofs).
Proof.
  intros Hnz. revert ofs. induction fuel as [|fuel IH]; intros ofs Hfuel; [lia|].
  simpl. destruct (read_header data ofs) as [[aname alen]|] eqn:Hh; [|by eexists].
  destruct (Z.geb_spec (ofs + alen + 8) (len data)); [by eexists|].
  pose proof (read_header_nonneg _ _ _ _ Hh) as [H0 _].
  assert (alen <> 0) by (intros ->; by apply (Hnz ofs aname)).
  destruct (IH (ofs + alen)) as [l' ->]; [lia|]. by eexists.
Qed.

Lemma remove_sidx_returns data :
  (forall o aname, read_header data o <> Some (aname, 0)) ->
  is_Some (remove_sidx data).
Proof.
  intros Hnz. unfold remove_sidx. rewrite get_atoms_scan.
  destruct (scan_loop_returns data (S (length data)) 0 Hnz) as [l Hl];
    [unfold len; lia|].
  unfold scan_atoms. rewrite Hl. simpl.
  destruct (_ !! _); by eexists.
Qed.

(** C2, as stated, fails: with two [sidx] atoms the first application
    removes the second one only, and the next application removes the
    other. *)
Lemma remove_sidx_not_idempotent :
  ~ (forall data, remove_sidx data ≫= remove_sidx = remove_sidx data).
Proof.
  intros H. specialize (H two_sidx). vm_compute in H. discriminate H.
Qed.

(** Why the amended claim has its side conditions: a [sidx] box that
    the scan does not reach (a bare header at the end of the data), or
    a name that comes into being when the box is spliced out, is
    removed by the second application only. *)
Example remove_sidx_bare_header_at_end :
  scan_atoms sidx_then_bare_sidx = Some [("sidx"%string, Atom 0 8)]
  /\ remove_sidx sidx_then_bare_sidx = Some (box "sidx" [])
  /\ remove_sidx (box "sidx" []) = Some [].
Proof. repeat split; vm_compute; reflexivity. Qed.

Example remove_sidx_short_atom :
  (names <$> scan_atoms short_atom_then_sidx)
  = Some [string_of_list_byte [x00; x00; x00; x08]; "sidx"%string]
  /\ remove_sidx short_atom_then_sidx
     = Some (be32 4 ++ bytes_of "sidx" ++ [x00; x00; x00; x00; x00])
  /\ remove_sidx (be32 4 ++ bytes_of "sidx" ++ [x00; x00; x00; x00; x00])
     = Some (bytes_of "sidx" ++ [x00; x00; x00; x00; x00]).
Proof. repeat split; vm_compute; reflexivity. Qed.

(** C2 (amended): [remove_sidx] is idempotent on every input whose
    atom scan ends with at most one atom named [sidx], the atoms before
    it being at least 8 bytes long and the [sidx] atom being either not
    the first atom or followed by more than 8 bytes. *)
Theorem remove_sidx_idempotent_one_sidx data l :
  scan_atoms data = Some l -> at_most_one_sidx data l = true ->
  exists out, remove_sidx data = Some out /\ remove_sidx out = Some out.
Proof.
  intros Hs Hone. unfold at_most_one_sidx in Hone.
  apply orb_true_iff in Hone as [Hnone|Hlone].
  - apply negb_true_iff, has_sidx_false in Hnone.
    exists data. split; by apply (remove_sidx_not_found data l).
  - apply lone_sidx_split in Hlone
      as (l1 & [ok lk] & l2 & -> & Hn1 & Hn2 & Hsz & HP).
    rewrite (remove_sidx_found data l1 _ l2) by done. simpl.
    eexists. split; [done|].
    apply scan_atoms_Scan in Hs.
    destruct (Scan_spliced data ok lk l2 l1 0) as (l' & Hs' & Hn'); auto.
    + unfold len. lia.
    + intros ->. simpl in Hs.
      destruct (Scan_head _ _ _ _ Hs) as [_ Heq]. simpl in Heq. subst ok.
      simpl in HP. by apply HP.
    + apply (remove_sidx_not_found _ l'); [by apply scan_atoms_Scan | done].
Qed.

Lemma remove_sidx_idempotent_one_sidx_witness :
  exists out, remove_sidx one_sidx = Some out /\ remove_sidx out = Some out.
Proof.
  eapply remove_sidx_idempotent_one_sidx.
  - vm_compute. reflexivity.
  - vm_compute. reflexivity.
Defined.

(** C8 (the code loops): on data with no [sidx] atom whose first atom
    has a zero length field, [get_atoms] never leaves its loop, so
    [remove_sidx] returns nothing instead of the data. *)
Theorem remove_sidx_hangs_on_zero_length_atom :
  read_header zero_length_atom 0 = Some ("free"%string, 0) /\
  (forall fuel atoms, get_atoms_loop fuel zero_length_atom atoms 0 = None) /\
  remove_sidx zero_length_atom = None.
Proof.
  assert (forall fuel atoms, get_atoms_loop fuel zero_length_atom atoms 0 = None) as H.
  { apply (get_atoms_loop_stuck _ _ "free"); by vm_compute. }
  split; [by vm_compute|]. split; [done|].
  unfold remove_sidx, get_atoms. by rewrite H.
Qed.

(** C9, as stated, fails: a box that starts within the last 8 bytes
    of the data is not read by [get_atoms], so when the last [sidx] box
    is a bare header at the very end, it is the [sidx] box before it
    that [remove_sidx] takes out, and the last one stays. *)
Lemma remove_sidx_last_sidx_not_read :
  ~ (forall bs1 payload bs2,
       Forall (fun b => well_formed_box b = true)
              (bs1 ++ ("sidx"%string, payload) :: bs2) ->
       "sidx"%string ∈ bs1.*1 -> "sidx"%string ∉ bs2.*1 ->
       remove_sidx (encode_boxes (bs1 ++ ("sidx"%string, payload) :: bs2))
       = Some (encode_boxes (bs1 ++ bs2))).
Proof.
  intros H. specialize (H [("sidx"%string, [x01])] [] []).
  assert (remove_sidx (encode_boxes sidx_boxes_bare_last) = Some (box "sidx" []))
    as Hrun by (vm_compute; reflexivity).
  unfold sidx_boxes_bare_last in Hrun. simpl app in H. rewrite Hrun in H.
  assert (Some (box "sidx" []) = Some (encode_boxes [("sidx"%string, [x01])]) -> False)
    as Hne by (vm_compute; discriminate).
  apply Hne, H.
  - repeat constructor.
  - by left.
  - by apply not_elem_of_nil.
Qed.

Example remove_sidx_bare_last_keeps_it :
  scan_atoms (encode_boxes sidx_boxes_bare_last) = Some [("sidx"%string, Atom 0 9)]
  /\ remove_sidx (encode_boxes sidx_boxes_bare_last) = Some (box "sidx" [])
  /\ boxes_scanned sidx_boxes_bare_last [] = false.
Proof. repeat split; vm_compute; reflexivity. Qed.

(** Why the amended claim asks for the loop to stop behind the boxes:
    a header that can be read there is recorded too, and when it is
    named [sidx] it is what [remove_sidx] takes out, both boxes
    staying. *)
Example remove_sidx_header_behind_boxes :
  let bs := [("sidx"%string, [x01]); ("sidx"%string, [x02])] in
  let rest := be32 20 ++ bytes_of "sidx" ++ [x00] in
  boxes_scanned bs rest = false
  /\ remove_sidx (encode_boxes bs ++ rest) = Some (encode_boxes bs).
Proof. split; vm_compute; reflexivity. Qed.

(** C9 (amended): in data made of well-formed boxes that [get_atoms]
    reads one and all (each box but the first starts more than 8 bytes
    before the end of the data, and the loop stops behind the last
    one), with more than one box named [sidx], [remove_sidx] takes out
    the last box named [sidx], whole, and nothing else: every other
    box, the earlier [sidx] boxes among them, and the bytes that follow
    the boxes come out as they went in. *)
Theorem remove_sidx_removes_last_sidx bs1 payload bs2 rest :
  Forall (fun b => well_formed_box b = true)
         (bs1 ++ ("sidx"%string, payload) :: bs2) ->
  "sidx"%string ∈ bs1.*1 -> "sidx"%string ∉ bs2.*1 ->
  boxes_scanned (bs1 ++ ("sidx"%string, payload) :: bs2) rest = true ->
  remove_sidx (encode_boxes (bs1 ++ ("sidx"%string, payload) :: bs2) ++ rest)
  = Some (encode_boxes (bs1 ++ bs2) ++ rest).
Proof.
  intros Hwf _ Hno Hsc.
  apply remove_sidx_layout_last; [done| |done].
  apply scan_atoms_boxes_scanned; [done| |done].
  by destruct bs1.
Qed.

Lemma remove_sidx_removes_last_sidx_witness :
  remove_sidx two_sidx = Some (box "sidx" [x01] ++ box "moof" [] ++ [x00]).
Proof.
  apply (remove_sidx_removes_last_sidx
           [("sidx"%string, [x01])] [x02] [("moof"%string, [])] [x00]).
  - repeat constructor.
  - by left.
  - intros Hin. apply list_elem_of_In in Hin. simpl in Hin. intuition discriminate.
  - vm_compute. reflexivity.
Defined.

(** ** Text *)

Example parse_quality_list_ex1 :
  parse_quality_list quality_labels "1080p60/best" = ["1080p60"; "best"].
Proof. reflexivity. Qed.

Example parse_quality_list_ex2 :
  parse_quality_list quality_labels " 720P / 4k /Best " = ["720p "; "best"].
Proof. reflexivity. Qed.

Example is_fragmented_ex1 :
  is_fragmented "https://r1.googlevideo.com/videoplayback?itag=140&noclen=1&sq=3" = true.
Proof. reflexivity. Qed.

Example find_ex : find "abcabc" "ca" = 2 /\ find "abc" "" = 0 /\ find "" "a" = -1.
Proof. repeat split. Qed.

Example split_ex : split "/" "a//b/" = ["a"; ""; "b"; ""] /\ split "/" "" = [""].
Proof. split; reflexivity. Qed.

Example strip_ex : strip "  a b
 " = "a b" /\ strip "   " = "".
Proof. split; reflexivity. Qed.

Lemma prefix_app sub s :
  String.prefix sub s = true <-> exists post, s = sub +:+ post.
Proof.
  revert s. induction sub as [|c sub IH]; intros s.
  - split; [intros _; by exists s | by destruct s].
  - destruct s as [|c' s]; simpl.
    + split; [done | by intros [post ?]].
    + destruct (ascii_dec c c') as [->|Hne].
      * rewrite IH. split; intros [post Hp]; exists post.
        -- by rewrite Hp.
        -- by injection Hp.
      * split; [done | intros [post Hp]; injection Hp as -> _; done].
Qed.

Lemma find_from_lower_bound sub s i : find_from sub s i = -1 \/ i <= find_from sub s i.
Proof.
  revert i. induction s as [|c s IH]; intros i; cbn [find_from].
  - destruct (String.prefix sub ""); lia.
  - destruct (String.prefix sub (String c s)); [lia|].
    destruct (IH (i + 1)); lia.
Qed.

Lemma find_from_found sub s i :
  0 <= i ->
  (0 <= find_from sub s i <-> exists pre post, s = pre +:+ sub +:+ post).
Proof.
  revert i. induction s as [|c s IH]; intros i Hi.
  - cbn [find_from]. destruct (String.prefix sub "") eqn:Hp.
    + apply prefix_app in Hp as [post Hp].
      split; [intros _; by exists "", post | lia].
    + split; [lia|]. intros (pre & post & H).
      destruct pre; [|done]. simpl in H.
      assert (String.prefix sub "" = true) by (apply prefix_app; eauto). congruence.
  - cbn [find_from]. destruct (String.prefix sub (String c s)) eqn:Hp.
    + apply prefix_app in Hp as [post Hp].
      split; [intros _; by exists "", post | lia].
    + rewrite IH by lia. split.
      * intros (pre & post & ->). by exists (String c pre), post.
      * intros (pre & post & H). destruct pre as [|c' pre]; simpl in H.
        -- assert (String.prefix sub (String c s) = true) by (apply prefix_app; eauto).
           congruence.
        -- injection H as -> ->. eauto.
Qed.

(** C5, as stated, fails: the marker is looked for in the whole URL,
    not in its query. *)
Lemma is_fragmented_outside_query :
  ~ (forall u, is_fragmented u = true <-> 0 <= find (url_query u) "noclen").
Proof.
  intros H.
  destruct (H "https://noclen.example/videoplayback?itag=140") as [H1 _].
  specialize (H1 eq_refl). vm_compute in H1. by apply H1.
Qed.

(** C5 (amended): [is_fragmented(u)] is true exactly when the
    lower-cased URL contains [noclen] anywhere, in its query or not. *)
Theorem is_fragmented_iff_marker_anywhere u :
  is_fragmented u = true <-> exists pre post, lower u = pre +:+ "noclen" +:+ post.
Proof.
  unfold is_fragmented, find.
  rewrite <- (find_from_found "noclen" (lower u) 0) by lia.
  apply Z.geb_le.
Qed.

(** ** [parse_quality_list] *)

Lemma append_nil_l b : "" +:+ b = b.
Proof. reflexivity. Qed.

Lemma append_cons c a b : String c a +:+ b = String c (a +:+ b).
Proof. reflexivity. Qed.

Lemma append_nil_r a : a +:+ "" = a.
Proof. induction a as [|c a IH]; [done|]. by rewrite append_cons, IH. Qed.

Lemma lower_id q : has_upper q = false -> lower q = q.
Proof.
  induction q as [|c q IH]; simpl; [done|].
  intros [Hc Hq]%orb_false_iff. unfold lower_char. rewrite Hc. by rewrite IH.
Qed.

Lemma has_upper_app a b : has_upper (a +:+ b) = has_upper a || has_upper b.
Proof.
  induction a as [|c a IH]; [done|].
  rewrite append_cons. simpl. by rewrite IH, orb_assoc.
Qed.

Lemma lstrip_id s : starts_space s = false -> lstrip s = s.
Proof. destruct s as [|c s]; simpl; [done|]. by intros ->. Qed.

Lemma rstrip_id s : ends_space s = false -> rstrip s = s.
Proof.
  induction s as [|c s IH]; [done|].
  destruct s as [|c' s'].
  - simpl. by intros ->.
  - intros H. change (ends_space (String c' s') = false) in H.
    cbn [rstrip]. cbn [rstrip] in IH. by rewrite (IH H).
Qed.

Lemma strip_id s : starts_space s = false -> ends_space s = false -> strip s = s.
Proof. intros H1 H2. unfold strip. rewrite lstrip_id by done. by apply rstrip_id. Qed.

Lemma starts_space_app a b :
  starts_space (a +:+ b) = match a with "" => starts_space b | _ => starts_space a end.
Proof. by destruct a. Qed.

Lemma ends_space_app a b :
  ends_space (a +:+ b) = match b with "" => ends_space a | _ => ends_space b end.
Proof.
  induction a as [|c a IH]; [by destruct b|].
  destruct b as [|c' b'].
  - by rewrite append_nil_r.
  - rewrite append_cons. cbn [ends_space].
    destruct (a +:+ String c' b') eqn:E.
    + by destruct a.
    + exact IH.
Qed.

Lemma join_cons2 sep q q' qs :
  join sep (q :: q' :: qs) = q +:+ sep +:+ join sep (q' :: qs).
Proof. reflexivity. Qed.

Lemma plain_label_spec q :
  plain_label q = true ->
  has_char "/" q = false /\ has_upper q = false
  /\ starts_space q = false /\ ends_space q = false.
Proof.
  unfold plain_label. rewrite !andb_true_iff, !negb_true_iff. tauto.
Qed.

Lemma join_no_upper qs :
  Forall (fun q => has_upper q = false) qs -> has_upper (join "/" qs) = false.
Proof.
  induction 1 as [|q qs Hq Hqs IH]; [done|].
  destruct qs as [|q' qs]; [done|].
  rewrite join_cons2, !has_upper_app, Hq, IH. done.
Qed.

Lemma join_starts_space qs :
  Forall (fun q => starts_space q = false) qs -> starts_space (join "/" qs) = false.
Proof.
  induction 1 as [|q qs Hq Hqs IH]; [done|].
  destruct qs as [|q' qs]; [done|].
  rewrite join_cons2, starts_space_app. by destruct q.
Qed.

Lemma join_ends_space qs :
  Forall (fun q => ends_space q = false) qs -> ends_space (join "/" qs) = false.
Proof.
  induction 1 as [|q qs Hq Hqs IH]; [done|].
  destruct qs as [|q' qs]; [done|].
  rewrite join_cons2, ends_space_app, append_cons, append_nil_l.
  cbn [ends_space]. by destruct (join "/" (q' :: qs)).
Qed.

Lemma split_nonempty sep s : split sep s <> [].
Proof.
  induction s as [|c s IH]; simpl; [done|].
  destruct (Ascii.eqb c sep); [done|]. by destruct (split sep s).
Qed.

Lemma split_no_sep sep q : has_char sep q = false -> split sep q = [q].
Proof.
  induction q as [|c q IH]; simpl; [done|].
  intros [Hc Hq]%orb_false_iff. rewrite Hc, IH; done.
Qed.

Lemma split_app_sep sep q rest :
  has_char sep q = false ->
  split sep (q +:+ String sep rest) = q :: split sep rest.
Proof.
  induction q as [|c q IH]; intros H.
  - rewrite append_nil_l. simpl. by rewrite Ascii.eqb_refl.
  - simpl in H. apply orb_false_iff in H as [Hc Hq].
    rewrite append_cons. simpl. rewrite Hc, IH; done.
Qed.

Lemma split_join qs :
  qs <> [] -> Forall (fun q => has_char "/" q = false) qs ->
  split "/" (join "/" qs) = qs.
Proof.
  intros Hne H. induction H as [|q qs Hq Hqs IH]; [done|].
  destruct qs as [|q' qs]; [by apply split_no_sep|].
  rewrite join_cons2, append_cons, append_nil_l.
  rewrite split_app_sep by done. by rewrite IH.
Qed.

Lemma select_qualities_filter formats qs acc :
  Forall (fun q => strip q = q) qs ->
  select_qualities formats qs acc = acc ++ List.filter (known_quality formats) qs.
Proof.
  intros H. revert acc. induction H as [|q qs Hq Hqs IH]; intros acc; simpl.
  - by rewrite app_nil_r.
  - rewrite Hq. unfold known_quality at 1.
    destruct (in_list q formats || (q =? "best")%string).
    + rewrite IH. by rewrite <- app_assoc.
    + apply IH.
Qed.

(** C7, as stated, fails: the input is lower-cased and stripped as a
    whole before it is cut, so an upper-case entry comes back changed
    (and a padded one is kept, padding included). *)
Lemma parse_quality_list_changes_entries :
  ~ (forall qs, parse_quality_list quality_labels (join "/" qs)
                = List.filter (known_quality quality_labels) qs).
Proof.
  intros H. specialize (H ["BEST"]). vm_compute in H. discriminate H.
Qed.

(** The other ways in which the result is not the filtered [qs]: an
    entry with white space at an end is matched without it and kept
    with it; an entry holding a slash is cut in two. *)
Example parse_quality_list_padded_entry :
  parse_quality_list quality_labels (join "/" ["720p "; "best"]) = ["720p "; "best"]
  /\ List.filter (known_quality quality_labels) ["720p "; "best"] = ["best"].
Proof. split; reflexivity. Qed.

Example parse_quality_list_slash_entry :
  parse_quality_list quality_labels (join "/" ["720p/best"]) = ["720p"; "best"]
  /\ List.filter (known_quality quality_labels) ["720p/best"] = [].
Proof. split; reflexivity. Qed.

(** C7 (amended): for every list [qs] of ASCII labels with no slash,
    no upper-case letter and no white space at either end,
    [parse_quality_list] applied to the slash-joined string returns
    exactly the elements of [qs] that are in the quality table or
    equal to [best], in their order. *)
Theorem parse_quality_list_join qs :
  Forall (fun q => plain_label q = true) qs ->
  parse_quality_list quality_labels (join "/" qs)
  = List.filter (known_quality quality_labels) qs.
Proof.
  intros H.
  assert (Forall (fun q => has_char "/" q = false) qs) as H1
    by (eapply Forall_impl; [exact H | intros q Hq; apply plain_label_spec in Hq; tauto]).
  assert (Forall (fun q => has_upper q = false) qs) as H2
    by (eapply Forall_impl; [exact H | intros q Hq; apply plain_label_spec in Hq; tauto]).
  assert (Forall (fun q => starts_space q = false) qs) as H3
    by (eapply Forall_impl; [exact H | intros q Hq; apply plain_label_spec in Hq; tauto]).
  assert (Forall (fun q => ends_space q = false) qs) as H4
    by (eapply Forall_impl; [exact H | intros q Hq; apply plain_label_spec in Hq; tauto]).
  unfold parse_quality_list.
  rewrite lower_id by (by apply join_no_upper).
  rewrite strip_id by (by apply join_starts_space || by apply join_ends_space).
  destruct qs as [|q qs]; [done|].
  rewrite split_join by done.
  rewrite select_qualities_filter; [done|].
  eapply Forall_impl; [exact H|]. intros q0 Hq.
  apply plain_label_spec in Hq as (_ & _ & Hs & He). by apply strip_id.
Qed.

Lemma parse_quality_list_join_witness :
  parse_quality_list quality_labels (join "/" ["1080p60"; "4k"; "best"; "720p"])
  = ["1080p60"; "best"; "720p"].
Proof.
  apply (parse_quality_list_join ["1080p60"; "4k"; "best"; "720p"]).
  repeat constructor.
Defined.

(** ** [get_video_info] *)

Example py_int_ex :
  py_int " 12 " = Some 12 /\ py_int "-3" = Some (-3) /\ py_int "1_000" = Some 1000
  /\ py_int "1__0" = None /\ py_int "" = None /\ py_int "two" = None
  /\ py_int "0" = Some 0 /\ py_int " +5 " = Some 5 /\ py_int "5 5" = None
  /\ py_int "1_0 " = Some 10 /\ py_int "1 _0" = None /\ py_int "+ 5" = None
  /\ py_int "1_" = None /\ py_int "_1" = None /\ py_int "007" = Some 7
  /\ py_int "-0" = Some 0 /\ py_int " " = None /\ py_int "-" = None.
Proof. repeat split. Qed.

Example str_ex : str 0 = "0" /\ str 12 = "12" /\ str (-5) = "-5".
Proof. repeat split. Qed.

Lemma Qlt_bool_iff x y : Qlt_bool x y = true <-> (x < y)%Q.
Proof.
  unfold Qlt_bool. rewrite negb_true_iff.
  destruct (Qle_bool y x) eqn:E.
  - apply Qle_bool_iff in E. split; [done|]. intros H. by apply Qlt_not_le in H.
  - split; [intros _|done]. apply Qnot_le_lt. intros H.
    apply Qle_bool_iff in H. congruence.
Qed.

Example get_video_info_refreshes :
  get_video_info sample_refresh (world_at DownloadInfo_init 20)
  = sample_refresh (world_at DownloadInfo_init 20).
Proof. reflexivity. Qed.

(** The elapsed time is a difference of floats, rounded as floats are:
    at 15.1 seconds on the clock, after a refresh at 0.1, the
    difference that the code computes is 15.0 and the call probes,
    while the exact difference of the two floats is below 15. *)
Example get_video_info_float_boundary :
  (exists t1 t0, float_value float_15_1 = Some t1 /\ float_value float_0_1 = Some t0
     /\ (t1 - t0 < 15)%Q)
  /\ float_sub float_15_1 float_0_1 = float_of_int 15
  /\ get_video_info sample_refresh (world_at_time refreshed_at_0_1 float_15_1)
     = sample_refresh (world_at_time refreshed_at_0_1 float_15_1).
Proof.
  split; [|split; vm_compute; reflexivity].
  eexists _, _. split; [reflexivity|]. split; [reflexivity|]. by vm_compute.
Qed.

(** C6, as stated, fails: a call within 15 seconds of the last refresh
    does nothing, but on a stream already marked unavailable it
    returns [None], not [False]. *)
Lemma get_video_info_recent_returns_none :
  ~ (forall refresh w,
       float_ltb (float_sub (w_now w) (last_updated (w_info w)))
                 (float_of_int RECHECK_TIME) = true ->
       get_video_info refresh w = (RFalse, w)).
Proof.
  intros H. specialize (H sample_refresh (world_at unavailable_info 101)).
  specialize (H eq_refl). discriminate H.
Qed.

(** C6 (amended): a call that finds [time.time() - info.last_updated],
    the difference of floats that the code computes, below 15 does
    nothing (no probe, no URL rebound, [last_updated] kept) and
    returns [False], or [None] when the stream is marked unavailable
    and neither [gvideo_ddl] nor [stopping] is set. *)
Theorem get_video_info_rate_limited refresh w :
  float_ltb (float_sub (w_now w) (last_updated (w_info w)))
            (float_of_int RECHECK_TIME) = true ->
  snd (get_video_info refresh w) = w /\
  fst (get_video_info refresh w)
  = if negb (gvideo_ddl (w_info w)) && negb (stopping (w_info w))
       && is_unavailable (w_info w)
    then RNone else RFalse.
Proof.
  intros Hlt. unfold get_video_info.
  destruct (gvideo_ddl (w_info w)); [done|].
  destruct (stopping (w_info w)); [done|].
  destruct (is_unavailable (w_info w)); [done|].
  by rewrite Hlt.
Qed.

Lemma get_video_info_rate_limited_witness :
  snd (get_video_info sample_refresh (world_at DownloadInfo_init 14))
  = world_at DownloadInfo_init 14 /\
  fst (get_video_info sample_refresh (world_at DownloadInfo_init 14)) = RFalse.
Proof.
  apply (get_video_info_rate_limited sample_refresh (world_at DownloadInfo_init 14)).
  reflexivity.
Defined.

(** Every call either finds the computed difference not below 15, or
    changes nothing. *)
Lemma get_video_info_every_call refresh w :
  float_ltb (float_sub (w_now w) (last_updated (w_info w)))
            (float_of_int RECHECK_TIME) = false
  \/ snd (get_video_info refresh w) = w.
Proof.
  destruct (float_ltb _ _) eqn:Hlt; [right | by left].
  unfold get_video_info.
  destruct (gvideo_ddl (w_info w)); [done|].
  destruct (stopping (w_info w)); [done|].
  destruct (is_unavailable (w_info w)); [done|].
  by rewrite Hlt.
Qed.

(** C10: with the stopping flag set, [get_video_info] returns [False]
    at once and changes nothing: no probe, no URL rebound, and
    [last_updated], [is_live] and [in_progress] as they were. *)
Theorem get_video_info_stopping refresh w :
  stopping (w_info w) = true ->
  get_video_info refresh w = (RFalse, w).
Proof.
  intros Hs. unfold get_video_info. rewrite Hs.
  by destruct (gvideo_ddl (w_info w)).
Qed.

Lemma get_video_info_stopping_witness :
  get_video_info sample_refresh (world_at (set_stopping DownloadInfo_init true) 3600)
  = (RFalse, world_at (set_stopping DownloadInfo_init true) 3600).
Proof.
  apply get_video_info_stopping. reflexivity.
Defined.

(** ** [download_frags]: HTTP 404 *)

(** C3, as stated, fails: the guard is [max_seq > -1], so a worker
    that was handed [max_seq = 0] also leaves quietly. *)
Lemma http_404_quiet_exit_at_max_seq_zero :
  ~ (forall refresh dt seq max_seq l w,
       (Frags.on_http_error refresh dt seq max_seq 404 l w).1.1 = Frags.Break
       <-> 0 < max_seq /\ is_live (w_info w) = false /\ max_seq - 2 <= seq).
Proof.
  intros H.
  destruct (H sample_refresh DTYPE_AUDIO 0 0
              (Frags.Build_locals true 0 3 false "")
              (world_at DownloadInfo_init 0)) as [H1 _].
  specialize (H1 eq_refl). lia.
Qed.

(** C3 (amended): on HTTP 404 the worker leaves quietly, without
    counting a retry, exactly when [max_seq > -1], the stream is not
    live and [seq >= max_seq - 2]; in every other case the failure
    counts as one retry. *)
Theorem http_404_quiet_exit_iff refresh dt seq max_seq l w :
  let r := Frags.on_http_error refresh dt seq max_seq 404 l w in
  let quiet := -1 < max_seq /\ is_live (w_info w) = false /\ max_seq - 2 <= seq in
  (quiet -> r = (Frags.Break, Frags.set_downloading l false, w)) /\
  (~ quiet -> r = (Frags.Fall, Frags.set_tries l (Frags.tries l + 1), w)) /\
  (r.1.1 = Frags.Break <-> quiet).
Proof.
  unfold Frags.on_http_error. simpl.
  destruct (Z.gtb_spec max_seq (-1)), (is_live (w_info w)),
    (Z.geb_spec seq (max_seq - 2)); simpl;
    (split; [|split; [|split]]); try done; try lia; intuition (try lia; try done).
Qed.

(** In the loop body, a quiet 404 ends the worker: the retry loop is
    left with [downloading] false, nothing is put on [data_queue] and
    the shared state is untouched. *)
Lemma attempt_404_quiet refresh dt seq max_seq l w :
  stopping (w_info w) = false ->
  -1 < max_seq -> is_live (w_info w) = false -> max_seq - 2 <= seq ->
  Frags.attempt refresh dt seq max_seq (Frags.HTTPError 404) l w
  = (Frags.Break, Frags.set_downloading l false, w, None).
Proof.
  intros Hs H1 H2 H3. unfold Frags.attempt, Frags.on_http_error.
  rewrite Hs, H2. simpl.
  destruct (Z.gtb_spec max_seq (-1)); [|lia].
  destruct (Z.geb_spec seq (max_seq - 2)); [done | lia].
Qed.

(** The worker gives up its fragment at the first quiet 404, whatever
    the later requests would have answered, and its outer
    [while downloading] loop ends. *)
Lemma retry_loop_404_quiet refresh dt seq max_seq results l w :
  stopping (w_info w) = false -> Frags.tries l < FRAG_MAX_TRIES ->
  -1 < max_seq -> is_live (w_info w) = false -> max_seq - 2 <= seq ->
  Frags.retry_loop refresh dt seq max_seq (Frags.HTTPError 404 :: results) l w
  = (Frags.set_downloading l false, w, None).
Proof.
  intros Hs Ht H1 H2 H3. cbn [Frags.retry_loop].
  destruct (Z.ltb_spec (Frags.tries l) FRAG_MAX_TRIES); [|lia].
  by rewrite attempt_404_quiet.
Qed.

Example retry_loop_404_then_success :
  Frags.retry_loop sample_refresh DTYPE_AUDIO 7 (-1)
    [Frags.HTTPError 404; Frags.Fetched 100 9]
    (Frags.Build_locals true 0 3 false "u")
    (world_at DownloadInfo_init 0)
  = (Frags.Build_locals true 1 3 false "u", world_at DownloadInfo_init 0,
     Some (Build_Fragment 7 ".frag7.ts" 9)).
Proof. reflexivity. Qed.

(** ** [download_stream] *)

Lemma set_info_same w : set_info w (w_info w) = w.
Proof. by destruct w. Qed.

Lemma start_threads_none dt l info :
  thread_count info <= active_threads (mdl_info info dt) ->
  Stream.start_threads dt l info = (l, info).
Proof.
  intros H. unfold Stream.start_threads.
  replace (Z.to_nat _) with O by lia. done.
Qed.

(** With no thread alive the fragments that arrive are only kept for
    deletion: nothing is dispatched and nothing is written. *)
Lemma drain_not_downloading arrived l :
  let l' := Stream.drain false arrived l in
  Stream.f l' = Stream.f l /\ Stream.seq_queue l' = Stream.seq_queue l
  /\ Stream.cur_frag l' = Stream.cur_frag l /\ Stream.cur_seq l' = Stream.cur_seq l
  /\ Stream.dthreads l' = Stream.dthreads l.
Proof.
  revert l. induction arrived as [|d arrived IH]; intros l; simpl; [done|].
  apply (IH (Stream.receive l d)).
Qed.

(** C4, as stated, fails: [--threads 0] is not refused. *)
Lemma threads_zero_not_rejected :
  ~ (exists code, opt_threads "0" DownloadInfo_init = SysExit code).
Proof. intros [code H]. discriminate H. Qed.

(** C4 (amended): a thread count of 0 is accepted at setup:
    [--threads 0] stores 0 in [info.thread_count] and the run goes on;
    with it [download_stream] starts no worker and leaves its loop in
    the first cycle, having dispatched no sequence number and written
    nothing. *)
Theorem threads_zero_accepted refresh dt env info w :
  thread_count (w_info w) = 0 ->
  0 <= active_threads (mdl_info (w_info w) dt) ->
  opt_threads "0" info = Proceed (set_thread_count info 0) /\
  Stream.setup dt w = (Stream.locals_init, w) /\
  exists l, Stream.cycle refresh dt env Stream.locals_init w = Some (false, l, w)
            /\ Stream.dthreads l = [] /\ Stream.seq_queue l = []
            /\ Stream.f l = [] /\ Stream.cur_frag l = 0.
Proof.
  intros Hc Ha. split; [done|]. split.
  - unfold Stream.setup. rewrite start_threads_none by lia.
    by rewrite set_info_same.
  - unfold Stream.cycle. simpl.
    eexists. split; [done|].
    by destruct (drain_not_downloading (Stream.arrived env)
                   (Stream.set_stopping Stream.locals_init (info_stopping w)))
      as (-> & -> & -> & _ & ->).
Qed.

Lemma threads_zero_accepted_witness :
  opt_threads "0" DownloadInfo_init = Proceed (set_thread_count DownloadInfo_init 0) /\
  Stream.setup DTYPE_AUDIO (world_at (set_thread_count DownloadInfo_init 0) 0)
  = (Stream.locals_init, world_at (set_thread_count DownloadInfo_init 0) 0).
Proof.
  destruct (threads_zero_accepted sample_refresh DTYPE_AUDIO
              (Stream.Build_cycle_env (fun _ => true) [] [])
              DownloadInfo_init
              (world_at (set_thread_count DownloadInfo_init 0) 0))
    as (H1 & H2 & _); [reflexivity | simpl; lia |].
  split; [exact H1 | exact H2].
Defined.

Example setup_one_thread :
  Stream.setup DTYPE_AUDIO (world_at DownloadInfo_init 0)
  = (Stream.put_seq (Stream.add_thread Stream.locals_init),
     world_at (set_active_threads DownloadInfo_init DTYPE_AUDIO 1) 0).
Proof. reflexivity. Qed.

(** C1 (the code repeats bytes): when the write of a fragment raises
    after its first buffer has reached the output file, the retry
    writes the fragment again from its start, so the bytes already
    written stay in the file ahead of the whole fragment. *)
Theorem write_loop_repeats_partial_write :
  exists l w,
    Stream.write_loop (Stream.write_fuel frag0_locals) DTYPE_VIDEO
      [Stream.IoRaise 1] 0 frag0_locals frag0_world = Some (l, w)
    /\ Stream.cur_frag l = 1 /\ Stream.data l = [] /\ Stream.tries l = 10
    /\ assembled (w_files frag0_world) (Stream.data frag0_locals) 0 1
       = Some frag0_content
    /\ Stream.f l = take (Z.to_nat BUF_SIZE) frag0_content ++ frag0_content
    /\ Stream.f l <> frag0_content.
Proof.
  eexists _, _. split; [vm_compute; reflexivity|].
  repeat split; try (vm_compute; reflexivity).
  intros H. apply (f_equal length) in H. vm_compute in H. discriminate H.
Qed.

(** The same incident seen from the main loop. *)
Example cycle_repeats_partial_write :
  exists l w,
    Stream.cycle sample_refresh DTYPE_VIDEO frag0_arrives one_thread_locals frag0_world
    = Some (true, l, w)
    /\ Stream.cur_frag l = 1
    /\ Stream.seq_queue l = [(0, -1); (1, 0)]
    /\ Stream.f l = take (Z.to_nat BUF_SIZE) frag0_content ++ frag0_content.
Proof.
  eexists _, _. split; [vm_compute; reflexivity|].
  repeat split; vm_compute; reflexivity.
Qed.

(** The same fragment with no incident is written once. *)
Example write_loop_no_incident :
  exists l w,
    Stream.write_loop (Stream.write_fuel frag0_locals) DTYPE_VIDEO
      [] 0 frag0_locals frag0_world = Some (l, w)
    /\ Stream.cur_frag l = 1 /\ Stream.f l = frag0_content
    /\ w_files w = ∅.
Proof.
  eexists _, _. split; [vm_compute; reflexivity|].
  repeat split; vm_compute; reflexivity.
Qed.

(** *** The write loop ends *)

#[local] Arguments Stream.fragment_bufs : simpl never.
#[local] Arguments BUF_SIZE : simpl never.

Lemma start_threads_loop_frame fuel dt l info :
  let l' := (Stream.start_threads_loop fuel dt l info).1 in
  Stream.data l' = Stream.data l /\ Stream.tries l' = Stream.tries l
  /\ Stream.cur_frag l' = Stream.cur_frag l /\ Stream.f l' = Stream.f l
  /\ Stream.stopping l' = Stream.stopping l.
Proof.
  revert l info. induction fuel as [|fuel IH]; intros l info; simpl; [done|].
  destruct (active_threads (mdl_info info dt) <? thread_count info); [|done].
  apply (IH (Stream.put_seq (Stream.add_thread l))).
Qed.

Lemma restart_threads_frame dt l w :
  let r := Stream.restart_threads dt l w in
  Stream.data r.1 = Stream.data l /\ Stream.tries r.1 = Stream.tries l
  /\ Stream.cur_frag r.1 = Stream.cur_frag l /\ Stream.f r.1 = Stream.f l
  /\ Stream.stopping r.1 = Stream.stopping l /\ w_files r.2 = w_files w.
Proof.
  unfold Stream.restart_threads.
  destruct (_ && _); [|done].
  unfold Stream.start_threads.
  pose proof (start_threads_loop_frame
    (Z.to_nat (thread_count (w_info w) - active_threads (mdl_info (w_info w) dt)))
    dt l (w_info w)) as H.
  destruct (Stream.start_threads_loop _ dt l (w_info w)) as [l' info']. simpl in *.
  tauto.
Qed.

(** One pass through the [try] block either fails, costing one of the
    [tries], or writes the fragment and removes it from [data]. *)
Lemma write_fragment_cases dt io i d l w :
  strippable (w_files w) ->
  exists i' l' w',
    Stream.write_fragment dt io i d l w = Some (i', l', w')
    /\ Stream.stopping l' = Stream.stopping l
    /\ ((i' = i /\ Stream.data l' = Stream.data l
         /\ Stream.tries l' = Stream.tries l - 1
         /\ Stream.cur_frag l' = Stream.cur_frag l /\ w_files w' = w_files w)
        \/ (i' = O /\ Stream.data l' = delete i (Stream.data l)
            /\ Stream.tries l' = 10
            /\ Stream.cur_frag l' = Stream.cur_frag l + 1
            /\ (w_files w' = w_files w
                \/ w_files w' = delete (fname d) (w_files w)))).
Proof.
  intros Hst. unfold Stream.write_fragment.
  destruct (w_files w !! fname d) as [content|] eqn:Hf.
  2: { eexists _, _, _. split; [done|]. split; [done|]. left. by repeat split. }
  destruct (Hst _ _ Hf) as [buf Hbuf].
  assert (exists bufs, Stream.fragment_bufs content = Some bufs) as [bufs Hb].
  { unfold Stream.fragment_bufs. rewrite Hbuf. simpl. eauto. }
  destruct io as [removed|[|k]]; rewrite ?Hb; simpl.
  - eexists _, _, _. split; [done|]. split; [done|]. right.
    repeat split. destruct removed; [by right | by left].
  - eexists _, _, _. split; [done|]. split; [done|]. left. by repeat split.
  - eexists _, _, _. split; [done|]. split; [done|]. left. by repeat split.
Qed.

Lemma strippable_delete files name :
  strippable files -> strippable (delete name files).
Proof.
  intros H n c Hl. apply lookup_delete_Some in Hl as [_ Hl]. by apply (H n c).
Qed.

(** The fuel of the write loop is enough: the loop returns unless
    [remove_sidx] itself fails to return on some fragment. *)
Lemma write_loop_returns fuel dt ios i l w :
  strippable (w_files w) ->
  (Stream.write_turns i l < fuel)%nat ->
  is_Some (Stream.write_loop fuel dt ios i l w).
Proof.
  revert ios i l w. induction fuel as [|fuel IH]; intros ios i l w Hst Hfuel; [lia|].
  simpl.
  destruct (Z.ltb_spec (Z.of_nat i) (len (Stream.data l))) as [Hi|]; [|by eexists].
  destruct (Z.gtb_spec (Stream.tries l) 0) as [Ht|]; [|by eexists]. simpl.
  unfold len in Hi.
  destruct (Stream.data l !! i) as [d|] eqn:Hd; [|by eexists].
  destruct (seq d =? Stream.cur_frag l); simpl.
  - destruct (write_fragment_cases dt (hd (Stream.IoOk true) ios) i d l w Hst)
      as (i' & l' & w' & -> & Hstop & Hcase). simpl.
    pose proof (restart_threads_frame dt l' w') as (Hd' & Ht' & _ & _ & _ & Hf').
    assert (strippable (w_files w')) as Hst'.
    { destruct Hcase as [(_ & _ & _ & _ & ->)|(_ & _ & _ & _ & [->| ->])];
        auto using strippable_delete. }
    assert (Stream.write_turns i' l' < fuel)%nat as Hlt.
    { unfold Stream.write_turns in *.
      destruct Hcase as [(-> & -> & -> & _)|(-> & -> & -> & _)].
      - lia.
      - rewrite length_delete by eauto.
        destruct (length (Stream.data l)) as [|n]; [lia|]. simpl. nia. }
    destruct (Stream.stopping l').
    + by apply IH.
    + destruct (Stream.restart_threads dt l' w') as [l'' w''] eqn:E. simpl in *.
      apply IH; [by rewrite Hf'|].
      unfold Stream.write_turns in *. rewrite Hd', Ht'. done.
  - apply IH; [done|]. unfold Stream.write_turns in *. lia.
Qed.

(** Nothing is written while the fragment numbered [cur_frag] has not
    arrived: a fragment with another sequence number is never written. *)
Lemma write_loop_nothing_due fuel dt ios i l w l' w' :
  Stream.write_loop fuel dt ios i l w = Some (l', w') ->
  (forall d, d ∈ Stream.data l -> seq d <> Stream.cur_frag l) ->
  l' = l /\ w' = w.
Proof.
  revert i. induction fuel as [|fuel IH]; intros i; simpl; [done|].
  destruct (_ && _); [|by intros [= -> ->]].
  destruct (Stream.data l !! i) as [d|] eqn:Hd; [|by intros [= -> ->]].
  intros H Hno.
  assert (seq d <> Stream.cur_frag l) as Hne
    by (apply Hno; by eapply list_elem_of_lookup_2).
  apply Z.eqb_neq in Hne. rewrite Hne in H. simpl in H. by apply (IH (S i)).
Qed.

(** *** Without incident the fragments are written once each, in order *)

Lemma find_first {A} (P : A -> bool) (l : list A) i d :
  (forall j d', (j < i)%nat -> l !! j = Some d' -> P d' = false) ->
  l !! i = Some d -> P d = true -> List.find P l = Some d.
Proof.
  revert i. induction l as [|x l IH]; intros i Hno Hd HP; [done|].
  destruct i as [|i]; simpl in *.
  - injection Hd as ->. by rewrite HP.
  - rewrite (Hno O x) by (done || lia).
    apply (IH i); [|done..]. intros j d' Hj. apply (Hno (S j)). lia.
Qed.

Lemma find_delete_other {A} (P : A -> bool) (l : list A) i d :
  l !! i = Some d -> P d = false -> List.find P (delete i l) = List.find P l.
Proof.
  revert i. induction l as [|x l IH]; intros i Hd HP; [done|].
  destruct i as [|i]; simpl in *.
  - injection Hd as ->. by rewrite HP.
  - destruct (P x); [done|]. by apply IH.
Qed.

Lemma assembled_S files data cur n :
  assembled files data cur (S n)
  = (d ← due data cur;
     content ← files !! fname d;
     bufs ← Stream.fragment_bufs content;
     rest ← assembled files data (cur + 1) n;
     Some (concat bufs ++ rest)).
Proof. reflexivity. Qed.

Lemma assembled_after_write files files' data i d cur c n out :
  data !! i = Some d -> seq d = cur -> cur < c ->
  files' = files \/ files' = delete (fname d) files ->
  assembled files' (delete i data) c n = Some out ->
  assembled files data c n = Some out.
Proof.
  intros Hd Hseq. revert c out.
  induction n as [|n IH]; intros c out Hc Hf Ha; [done|].
  rewrite assembled_S in Ha. rewrite assembled_S.
  apply bind_Some in Ha as (d' & Hdue & Ha).
  apply bind_Some in Ha as (content & Hcont & Ha).
  apply bind_Some in Ha as (bufs & Hb & Ha).
  apply bind_Some in Ha as (rest & Hr & Ha).
  unfold due in Hdue.
  rewrite (find_delete_other _ data i d) in Hdue by (done || (apply Z.eqb_neq; lia)).
  apply bind_Some. exists d'. split; [done|].
  apply bind_Some. exists content. split.
  { destruct Hf as [->| ->]; [done|]. by apply lookup_delete_Some in Hcont as [_ ?]. }
  apply bind_Some. exists bufs. split; [done|].
  apply bind_Some. exists rest. split; [|done].
  apply IH; [lia | done | done].
Qed.

Lemma write_loop_S fuel dt ios i l w :
  Stream.write_loop (S fuel) dt ios i l w
  = if (Z.of_nat i <? len (Stream.data l)) && (Stream.tries l >? 0) then
      match Stream.data l !! i with
      | None => Some (l, w)
      | Some d =>
        if negb (seq d =? Stream.cur_frag l)
        then Stream.write_loop fuel dt ios (S i) l w
        else
          r ← Stream.write_fragment dt (hd (Stream.IoOk true) ios) i d l w;
          let lw := if Stream.stopping r.1.2 then (r.1.2, r.2)
                    else Stream.restart_threads dt r.1.2 r.2 in
          Stream.write_loop fuel dt (tl ios) r.1.1 lw.1 lw.2
      end
    else Some (l, w).
Proof.
  cbn [Stream.write_loop].
  destruct (_ && _); [|done]. destruct (Stream.data l !! i); [|done].
  destruct (negb _); [done|].
  destruct (Stream.write_fragment _ _ _ _ _ _) as [[[i' l'] w']|]; [|done].
  cbn [mbind option_bind fst snd]. by destruct (Stream.stopping l'), (Stream.restart_threads dt l' w').
Qed.

(** A pass whose incident, if any, comes before the first write
    either fails and leaves the file alone, or writes all the buffers
    of the fragment. *)
Lemma write_fragment_harmless dt io i d l w r :
  harmless io = true ->
  Stream.write_fragment dt io i d l w = Some r ->
  r = (i, Stream.set_tries l (Stream.tries l - 1), w)
  \/ exists content bufs removed,
       w_files w !! fname d = Some content
       /\ Stream.fragment_bufs content = Some bufs
       /\ r = (O, Stream.written dt i d (len (concat bufs)) removed
                    (Stream.write_bufs l bufs),
               if removed then set_files w (delete (fname d) (w_files w)) else w).
Proof.
  intros Hio. unfold Stream.write_fragment.
  destruct (w_files w !! fname d) as [content|] eqn:Hf; [|intros [= <-]; by left].
  destruct io as [removed|[|k]]; [| intros [= <-]; by left | done].
  intros H. apply bind_Some in H as (bufs & Hb & [= <-]).
  right. by exists content, bufs, removed.
Qed.

(** When no exception falls after a write, the write loop appends to
    the file the fragments numbered from the old [cur_frag] to the new
    one, each once and in ascending order. *)
Lemma write_loop_in_order fuel dt ios i l w l' w' :
  Forall (fun io => harmless io = true) ios ->
  (forall j d, (j < i)%nat -> Stream.data l !! j = Some d ->
               seq d <> Stream.cur_frag l) ->
  Stream.write_loop fuel dt ios i l w = Some (l', w') ->
  exists n out,
    Stream.cur_frag l' = Stream.cur_frag l + Z.of_nat n
    /\ assembled (w_files w) (Stream.data l) (Stream.cur_frag l) n = Some out
    /\ Stream.f l' = Stream.f l ++ out.
Proof.
  revert ios i l w.
  induction fuel as [|fuel IH]; intros ios i l w Hios Hno; [done|].
  rewrite write_loop_S.
  assert (Some (l, w) = Some (l', w') -> exists n out,
    Stream.cur_frag l' = Stream.cur_frag l + Z.of_nat n
    /\ assembled (w_files w) (Stream.data l) (Stream.cur_frag l) n = Some out
    /\ Stream.f l' = Stream.f l ++ out) as Hdone.
  { intros [= <- <-]. exists O, []. by rewrite Z.add_0_r, app_nil_r. }
  destruct (_ && _); [|done].
  destruct (Stream.data l !! i) as [d|] eqn:Hd; [|done].
  destruct (Z.eqb_spec (seq d) (Stream.cur_frag l)) as [Hseq|Hseq];
    cbn [negb].
  2: { apply IH; [done|]. intros j d' Hj Hd'.
       destruct (decide (j = i)) as [->|]; [congruence | apply (Hno j); [lia | done]]. }
  assert (harmless (hd (Stream.IoOk true) ios) = true) as Hio
    by (destruct Hios; done).
  assert (Forall (fun io => harmless io = true) (tl ios)) as Hios'
    by (destruct Hios; [constructor | done]).
  intros H. apply bind_Some in H as (r & Hr & Hrun).
  apply (write_fragment_harmless _ _ _ _ _ _ _ Hio) in Hr
    as [->|(content & bufs & removed & Hf & Hb & ->)]; cbn [fst snd] in Hrun.
  - set (failed := Stream.set_tries l (Stream.tries l - 1)) in *.
    set (lw := if Stream.stopping failed then (failed, w)
               else Stream.restart_threads dt failed w) in *.
    assert (Stream.data lw.1 = Stream.data l /\ Stream.cur_frag lw.1 = Stream.cur_frag l
            /\ Stream.f lw.1 = Stream.f l /\ w_files lw.2 = w_files w)
      as (E1 & E2 & E3 & E4).
    { subst lw. destruct (Stream.stopping failed); [done|].
      pose proof (restart_threads_frame dt failed w) as H. cbn zeta in H. tauto. }
    apply IH in Hrun; [|done|by rewrite E1, E2].
    by rewrite E1, E2, E3, E4 in Hrun.
  - set (l0 := Stream.written dt i d (len (concat bufs)) removed
                 (Stream.write_bufs l bufs)) in *.
    set (w0 := if removed then set_files w (delete (fname d) (w_files w)) else w) in *.
    set (lw := if Stream.stopping l0 then (l0, w0)
               else Stream.restart_threads dt l0 w0) in *.
    assert (Stream.data lw.1 = delete i (Stream.data l)
            /\ Stream.cur_frag lw.1 = Stream.cur_frag l + 1
            /\ Stream.f lw.1 = Stream.f l ++ concat bufs
            /\ w_files lw.2 = w_files w0) as (E1 & E2 & E3 & E4).
    { subst lw. destruct (Stream.stopping l0); [done|].
      pose proof (restart_threads_frame dt l0 w0) as H. cbn zeta in H.
      destruct H as (-> & _ & -> & -> & _ & ->). done. }
    apply IH in Hrun as (n & out & Hc & Ha & Hout); [|done|intros; lia].
    exists (S n), (concat bufs ++ out). split; [lia|]. split.
    + rewrite assembled_S. unfold due.
      rewrite (find_first _ _ i d); [|intros j d' Hj Hd'; apply Z.eqb_neq; eauto
                                     |done|by apply Z.eqb_eq].
      apply bind_Some. exists d. split; [done|].
      apply bind_Some. exists content. split; [done|].
      apply bind_Some. exists bufs. split; [done|].
      apply bind_Some. exists out. split; [|done].
      rewrite E1, E2, E4 in Ha.
      apply (assembled_after_write (w_files w) (w_files w0) _ i d
               (Stream.cur_frag l)); [done | done | lia | | done].
      subst w0. destruct removed; [by right | by left].
    + rewrite Hout, E3. by rewrite <- app_assoc.
Qed.

(** * Further properties *)

(** ** [get_atoms] and [remove_sidx]: what the table holds *)

Lemma record_atoms_elem l atoms k a :
  record_atoms l atoms !! k = Some a -> (k, a) ∈ l \/ atoms !! k = Some a.
Proof.
  revert atoms. induction l as [|[n e] l IH]; intros atoms H; [by right|].
  simpl in H. apply IH in H as [H|H]; [left; by right|].
  simpl in H. apply lookup_insert_Some in H as [[-> ->]|[_ H]]; [left; by left | by right].
Qed.


Lemma Scan_elem data ofs l :
  Scan data ofs l -> 0 <= ofs ->
  forall k a, (k, a) ∈ l ->
    read_header data (atom_ofs a) = Some (k, atom_len a)
    /\ ofs <= atom_ofs a
    /\ (atom_ofs a = ofs \/ atom_ofs a + 8 < len data).
Proof.
  induction 1 as [ofs Hh | ofs n alen Hh Hc | ofs n alen l Hh Hc Hs IH];
    intros Hofs k a Hin.
  - by apply elem_of_nil in Hin.
  - apply list_elem_of_singleton in Hin as [= -> ->]. simpl.
    split; [done|]. split; [lia | by left].
  - pose proof (read_header_nonneg _ _ _ _ Hh) as [H0 _].
    apply elem_of_cons in Hin as [[= -> ->]|Hin].
    + simpl. split; [done|]. split; [lia | by left].
    + destruct (IH ltac:(lia) k a Hin) as (H1 & H2 & H3).
      split; [done|]. split; [lia|]. right. lia.
Qed.

Lemma get_atoms_entry_header data atoms k a :
  get_atoms data = Some atoms -> atoms !! k = Some a ->
  read_header data (atom_ofs a) = Some (k, atom_len a)
  /\ 0 <= atom_ofs a
  /\ (atom_ofs a = 0 \/ atom_ofs a + 8 < len data).
Proof.
  intros Hg Hk. rewrite get_atoms_scan in Hg.
  destruct (scan_atoms data) as [l|] eqn:Hs; [|done]. injection Hg as <-.
  apply record_atoms_elem in Hk as [Hin|Hk]; [|by rewrite lookup_empty in Hk].
  apply scan_atoms_Scan in Hs.
  destruct (Scan_elem _ _ _ Hs ltac:(lia) k a Hin) as (Hh & Hle & Hpos).
  by repeat split.
Qed.

(** X1: every entry of the table that [get_atoms] returns describes a
    header that is in the data: the length is the one read at the
    entry's offset and the key is the name read there, the offset is 0
    or lies more than 8 bytes before the end, and the length is between
    0 and [len(data)]. *)
Theorem get_atoms_in_bounds data atoms k a :
  get_atoms data = Some atoms -> atoms !! k = Some a ->
  read_header data (atom_ofs a) = Some (k, atom_len a)
  /\ 0 <= atom_ofs a < len data
  /\ 0 <= atom_len a <= len data
  /\ (atom_ofs a = 0 \/ atom_ofs a + 8 < len data).
Proof.
  intros Hg Hk.
  destruct (get_atoms_entry_header _ _ _ _ Hg Hk) as (Hh & Hle & Hpos).
  pose proof (read_header_nonneg _ _ _ _ Hh).
  pose proof (read_header_data_nonempty _ _ _ _ Hh).
  repeat split; try done; try lia.
Qed.

Lemma get_atoms_in_bounds_witness :
  read_header one_sidx 8 = Some ("sidx", 10)
  /\ 0 <= 8 < len one_sidx /\ 0 <= 10 <= len one_sidx
  /\ (8 = 0 \/ 8 + 8 < len one_sidx).
Proof.
  apply (get_atoms_in_bounds one_sidx
           (<["moof" := Atom 18 8]> (<["sidx" := Atom 8 10]> (<["styp" := Atom 0 8]> ∅)))
           "sidx" (Atom 8 10)).
  - vm_compute. reflexivity.
  - vm_compute. reflexivity.
Defined.

(** X2: [remove_sidx] never adds anything: when it returns, the result
    is the data with one stretch of bytes cut out, so it is either the
    data itself or strictly shorter. *)
Theorem remove_sidx_shrinks data out :
  remove_sidx data = Some out ->
  (out = data \/ len out < len data)
  /\ exists ofs n, 0 <= ofs /\ 0 <= n
       /\ out = slice_to data ofs ++ slice_from data (ofs + n).
Proof.
  unfold remove_sidx. intros H.
  apply bind_Some in H as (atoms & Hg & H).
  destruct (atoms !! "sidx") as [a|] eqn:Hk.
  - injection H as <-.
    destruct (get_atoms_entry_header _ _ _ _ Hg Hk) as (Hh & Ho & Hpos).
    pose proof (read_header_nonneg _ _ _ _ Hh) as Hl.
    pose proof (read_header_data_nonempty _ _ _ _ Hh) as Hd.
    split; [|exists (atom_ofs a), (atom_len a); by repeat split; try lia].
    destruct (decide (atom_len a = 0)) as [E|Hne].
    + left. rewrite E, Z.add_0_r. unfold slice_to, slice_from. apply take_drop.
    + right. unfold len, slice_to, slice_from in *.
      rewrite length_app, length_take, length_drop. lia.
  - injection H as <-. split; [by left|].
    exists (len data), 0. split; [apply len_nonneg|]. split; [lia|].
    unfold slice_to, slice_from, len. rewrite Z.add_0_r, Nat2Z.id.
    by rewrite firstn_all, drop_all, app_nil_r.
Qed.

Lemma remove_sidx_shrinks_witness :
  (box "styp" [] ++ box "moof" [] ++ [x00] = one_sidx
   \/ len (box "styp" [] ++ box "moof" [] ++ [x00]) < len one_sidx)
  /\ exists ofs n, 0 <= ofs /\ 0 <= n
       /\ box "styp" [] ++ box "moof" [] ++ [x00]
          = slice_to one_sidx ofs ++ slice_from one_sidx (ofs + n).
Proof.
  apply (remove_sidx_shrinks one_sidx). vm_compute. reflexivity.
Defined.




(** ** [sterilize_filename] and the name of the output file *)

Lemma fold_replace_cons bads c s :
  fold_left (fun f b => replace_char b "_" f) bads (String c s)
  = String (fold_left (fun x b => if Ascii.eqb x b then "_"%char else x) bads c)
           (fold_left (fun f b => replace_char b "_" f) bads s).
Proof.
  revert c s. induction bads as [|b bads IH]; intros c s; [done|].
  simpl. by rewrite IH.
Qed.

Lemma fold_replace_underscore bads :
  existsb (Ascii.eqb "_") bads = false ->
  fold_left (fun x b => if Ascii.eqb x b then "_"%char else x) bads "_"%char = "_"%char.
Proof.
  induction bads as [|b bads IH]; [done|].
  simpl. intros [Hb Hbads]%orb_false_iff. rewrite Hb. by apply IH.
Qed.

Lemma fold_replace_char bads x :
  existsb (Ascii.eqb "_") bads = false ->
  fold_left (fun x b => if Ascii.eqb x b then "_"%char else x) bads x
  = if existsb (Ascii.eqb x) bads then "_"%char else x.
Proof.
  intros Hu. revert x. induction bads as [|b bads IH]; intros x; [done|].
  simpl in *. apply orb_false_iff in Hu as [Hb Hbads].
  destruct (Ascii.eqb x b); simpl.
  - by apply fold_replace_underscore.
  - by apply IH.
Qed.

Lemma has_char_existsb x s :
  has_char x s = existsb (Ascii.eqb x) (list_ascii_of_string s).
Proof.
  induction s as [|c s IH]; [done|].
  simpl. by rewrite IH, Ascii.eqb_sym.
Qed.

Lemma sterilize_filename_cons c s :
  sterilize_filename (String c s)
  = String (if has_char c BAD_CHARS then "_"%char else c) (sterilize_filename s).
Proof.
  unfold sterilize_filename. rewrite fold_replace_cons.
  rewrite fold_replace_char by reflexivity. by rewrite has_char_existsb.
Qed.

Lemma bad_char_not_underscore c :
  has_char c BAD_CHARS = true -> Ascii.eqb "_" c = false.
Proof.
  destruct (Ascii.eqb_spec "_" c) as [<-|]; [|done]. by vm_compute.
Qed.

Lemma sterilize_filename_no_bad c fname :
  has_char c BAD_CHARS = true -> has_char c (sterilize_filename fname) = false.
Proof.
  intros Hc. induction fname as [|x s IH]; [done|].
  rewrite sterilize_filename_cons. cbn [has_char]. rewrite IH, orb_false_r.
  destruct (has_char x BAD_CHARS) eqn:Hx.
  - by apply bad_char_not_underscore.
  - destruct (Ascii.eqb_spec x c) as [->|]; [congruence | done].
Qed.

(** X4: [sterilize_filename] keeps the length of the name, puts an
    underscore where one of [BAD_CHARS] stood and leaves every other
    character where it was; none of [BAD_CHARS] is left in the
    result. *)
Theorem sterilize_filename_spec fname :
  String.length (sterilize_filename fname) = String.length fname
  /\ (forall n, String.get n (sterilize_filename fname)
        = (fun c => if has_char c BAD_CHARS then "_"%char else c)
            <$> String.get n fname)
  /\ (forall c, has_char c BAD_CHARS = true ->
        has_char c (sterilize_filename fname) = false).
Proof.
  split; [|split]; [| |intros c Hc; by apply sterilize_filename_no_bad].
  - induction fname as [|x s IH]; [done|].
    rewrite sterilize_filename_cons. cbn [String.length]. by rewrite IH.
  - induction fname as [|x s IH]; [done|].
    rewrite sterilize_filename_cons. intros [|n]; [done|]. cbn [String.get]. apply IH.
Qed.

Example sterilize_filename_ex :
  sterilize_filename "a/b: c?.mp4" = "a_b_ c_.mp4"
  /\ sterilize_filename (String "034" "x|y\z*") = "_x_y_z_".
Proof. split; reflexivity. Qed.

(** X5: the name [main] gives the output file (the base name of the
    expanded format, sterilized, with an underscore put in front of a
    leading dash) holds none of [BAD_CHARS], does not start with a dash
    and is not blank; a blank name ends the run instead. *)
Theorem output_fname_safe base fname :
  output_fname base = Some fname ->
  (forall c, has_char c BAD_CHARS = true -> has_char c fname = false)
  /\ startswith fname "-" = false
  /\ strip fname <> ""
  /\ (fname = sterilize_filename base \/ fname = "_" +:+ sterilize_filename base).
Proof.
  unfold output_fname.
  pose proof (fun c => sterilize_filename_no_bad c base) as Hbad.
  destruct (startswith (sterilize_filename base) "-") eqn:Hd.
  - destruct (Z.of_nat _ =? 0) eqn:Hne; [done|]. intros [= <-].
    apply Z.eqb_neq in Hne.
    split; [|split; [done|split; [|by right]]].
    + intros c Hc. rewrite append_cons, append_nil_l. cbn [has_char].
      by rewrite (Hbad c Hc), (bad_char_not_underscore c Hc).
    + intros E. rewrite E in Hne. by apply Hne.
  - destruct (Z.of_nat _ =? 0) eqn:Hne; [done|]. intros [= <-].
    apply Z.eqb_neq in Hne.
    split; [done|]. split; [done|]. split; [|by left].
    intros E. rewrite E in Hne. by apply Hne.
Qed.

Lemma output_fname_safe_witness :
  (forall c, has_char c BAD_CHARS = true -> has_char c "_-live_ part 1" = false)
  /\ startswith "_-live_ part 1" "-" = false
  /\ strip "_-live_ part 1" <> ""
  /\ ("_-live_ part 1" = sterilize_filename "-live: part 1"
      \/ "_-live_ part 1" = "_" +:+ sterilize_filename "-live: part 1").
Proof. apply (output_fname_safe "-live: part 1"). reflexivity. Defined.

Example output_fname_blank : output_fname "  " = None /\ output_fname "" = None.
Proof. split; reflexivity. Qed.

(** ** The prompts *)

Lemma is_space_lower_char c : is_space (lower_char c) = is_space c.
Proof. by destruct c as [[] [] [] [] [] [] [] []]. Qed.

Lemma lower_char_y c :
  Ascii.eqb (lower_char c) "y" = Ascii.eqb c "y" || Ascii.eqb c "Y".
Proof. by destruct c as [[] [] [] [] [] [] [] []]. Qed.

Lemma lstrip_lower s : lstrip (lower s) = lower (lstrip s).
Proof.
  induction s as [|c s IH]; [done|].
  cbn [lower lstrip]. rewrite is_space_lower_char.
  by destruct (is_space c).
Qed.

Lemma lstrip_head s c r : lstrip s = String c r -> is_space c = false.
Proof.
  induction s as [|x s IH]; [done|].
  cbn [lstrip]. destruct (is_space x) eqn:Hx; [done|]. by intros [= <- _].
Qed.

Lemma rstrip_head c r :
  is_space c = false -> exists r', rstrip (String c r) = String c r'.
Proof.
  intros Hc. cbn [rstrip]. destruct (rstrip r); rewrite ?Hc; eauto.
Qed.

Lemma startswith_char c r x :
  startswith (String c r) (String x "") = Ascii.eqb c x.
Proof.
  unfold startswith. cbn [String.prefix].
  destruct (ascii_dec x c) as [->|Hne].
  - rewrite Ascii.eqb_refl. by destruct r.
  - symmetry. apply Ascii.eqb_neq. congruence.
Qed.

(** X6: [get_yes_no] answers yes exactly when the first character of
    the line that is not white space is [y] or [Y]; an empty or blank
    line is a no. *)
Theorem get_yes_no_first_char answer :
  is_ascii_text answer = true ->
  get_yes_no answer
  = match lstrip answer with
    | String c _ => Ascii.eqb c "y" || Ascii.eqb c "Y"
    | EmptyString => false
    end.
Proof.
  intros _. unfold get_yes_no, strip. rewrite lstrip_lower.
  destruct (lstrip answer) as [|c r] eqn:E; [done|].
  apply lstrip_head in E. cbn [lower].
  destruct (rstrip_head (lower_char c) (lower r)) as [r' ->];
    [by rewrite is_space_lower_char|].
  by rewrite startswith_char, lower_char_y.
Qed.

Lemma get_yes_no_first_char_witness :
  get_yes_no "  Yes please " = true /\ get_yes_no " " = false.
Proof.
  split.
  - rewrite (get_yes_no_first_char "  Yes please "); reflexivity.
  - rewrite (get_yes_no_first_char " "); reflexivity.
Defined.

Lemma select_qualities_sound formats qs acc :
  Forall (fun q => known_quality formats (strip q) = true) acc ->
  Forall (fun q => known_quality formats (strip q) = true)
         (select_qualities formats qs acc).
Proof.
  revert acc. induction qs as [|q qs IH]; intros acc Hacc; [done|].
  cbn [select_qualities].
  destruct (in_list (strip q) formats || (strip q =? "best")%string) eqn:Hq.
  - apply IH. apply Forall_app. split; [done|]. by constructor.
  - by apply IH.
Qed.

Lemma select_qualities_sublist formats qs acc :
  exists kept, select_qualities formats qs acc = acc ++ kept /\ sublist kept qs.
Proof.
  revert acc. induction qs as [|q qs IH]; intros acc.
  - exists []. by rewrite app_nil_r.
  - cbn [select_qualities].
    destruct (in_list (strip q) formats || (strip q =? "best")%string).
    + destruct (IH (acc ++ [q])) as (kept & -> & Hs).
      exists (q :: kept). split; [by rewrite <- app_assoc | by constructor].
    + destruct (IH acc) as (kept & -> & Hs).
      exists kept. split; [done | by constructor].
Qed.

(** X7: every entry that [parse_quality_list] returns is, once
    stripped, one of [formats] or [best], and the entries are pieces of
    the lower-cased, stripped text cut at the slashes, in their
    order. *)
Theorem parse_quality_list_sound formats quality :
  is_ascii_text quality = true ->
  Forall (fun q => known_quality formats (strip q) = true)
         (parse_quality_list formats quality)
  /\ sublist (parse_quality_list formats quality)
             (split "/" (strip (lower quality))).
Proof.
  intros _. unfold parse_quality_list. split.
  - by apply select_qualities_sound.
  - by destruct (select_qualities_sublist formats
                   (split "/" (strip (lower quality))) []) as (kept & -> & Hs).
Qed.

Lemma parse_quality_list_sound_witness :
  Forall (fun q => known_quality quality_labels (strip q) = true)
         (parse_quality_list quality_labels " 720P / 4k /Best ")
  /\ sublist (parse_quality_list quality_labels " 720P / 4k /Best ")
             ["720p "; " 4k "; "best"].
Proof. apply (parse_quality_list_sound quality_labels " 720P / 4k /Best "). reflexivity. Defined.

Lemma strip_all_space s : all_space s = true -> strip s = "".
Proof.
  unfold strip. induction s as [|c s IH]; [done|].
  cbn [all_space lstrip]. intros [Hc Hs]%andb_true_iff. rewrite Hc. by apply IH.
Qed.

Lemma lower_all_space s : all_space s = true -> all_space (lower s) = true.
Proof.
  induction s as [|c s IH]; [done|].
  cbn [all_space lower]. rewrite is_space_lower_char.
  intros [Hc Hs]%andb_true_iff. by rewrite Hc, IH.
Qed.

Lemma parse_quality_list_best formats :
  parse_quality_list formats "best" = ["best"].
Proof.
  unfold parse_quality_list.
  change (split "/" (strip (lower "best"))) with ["best"].
  cbn [select_qualities]. change (strip "best") with "best".
  change ("best" =? "best")%string with true. by rewrite orb_true_r.
Qed.

(** X8: [get_quality_from_user] never returns an empty selection: it
    reads at least one line, goes on asking until a line names a
    quality of [formats] or [best], and every entry it returns is such
    a quality once stripped. *)
Theorem get_quality_from_user_valid formats inputs selected rest :
  Forall (fun line => is_ascii_text line = true) inputs ->
  get_quality_from_user formats inputs = Some (selected, rest) ->
  selected <> []
  /\ Forall (fun q => known_quality formats (strip q) = true) selected
  /\ exists read, read <> [] /\ inputs = read ++ rest.
Proof.
  intros _. induction inputs as [|line inputs IH]; [done|].
  cbn [get_quality_from_user].
  set (quarity := if (strip (lower line) =? "")%string then DEFAULT_VIDEO_QUALITY
                  else strip (lower line)).
  destruct (Z.ltb_spec (len (parse_quality_list formats quarity)) 1) as [Hl|Hl].
  - intros H. destruct (IH H) as (H1 & H2 & read & H3 & ->).
    split; [done|]. split; [done|]. by exists (line :: read).
  - intros [= <- <-]. split; [|split].
    + intros E. rewrite E in Hl. unfold len in Hl. simpl in Hl. lia.
    + by apply select_qualities_sound.
    + by exists [line].
Qed.

Lemma get_quality_from_user_valid_witness :
  ["720p"; "best"] <> []
  /\ Forall (fun q => known_quality quality_labels (strip q) = true) ["720p"; "best"]
  /\ exists read, read <> [] /\ ["4k"; "720P/Best"; "next"] = read ++ ["next"].
Proof.
  apply (get_quality_from_user_valid quality_labels ["4k"; "720P/Best"; "next"]).
  - repeat constructor.
  - reflexivity.
Defined.

(** X9: a blank line at the prompt of [get_quality_from_user] selects
    the default: the function returns [best] alone, whatever the
    available formats. *)
Theorem get_quality_from_user_default formats line rest :
  all_space line = true ->
  get_quality_from_user formats (line :: rest) = Some (["best"], rest).
Proof.
  intros H. cbn [get_quality_from_user].
  rewrite (strip_all_space (lower line)) by (by apply lower_all_space).
  change ("" =? "")%string with true. cbn iota.
  unfold DEFAULT_VIDEO_QUALITY. by rewrite parse_quality_list_best.
Qed.

Lemma get_quality_from_user_default_witness :
  get_quality_from_user ["audio_only"; "480p"] ["  "; "480p"]
  = Some (["best"], ["480p"]).
Proof. apply get_quality_from_user_default. reflexivity. Defined.

(** ** [format_size] *)

Lemma Qlt_bool_1024 q :
  Qlt_bool (inject_Z 1024) q = true <-> 1024 * Z.pos (Qden q) < Qnum q.
Proof.
  rewrite Qlt_bool_iff. unfold Qlt. simpl. lia.
Qed.

Lemma Qdiv_1024 q :
  Qnum (q / inject_Z 1024)%Q = Qnum q
  /\ Z.pos (Qden (q / inject_Z 1024)%Q) = Z.pos (Qden q) * 1024.
Proof.
  destruct q as [n d]. unfold Qdiv, Qmult, Qinv, inject_Z. simpl. lia.
Qed.

(** The loop ends when the fuel covers the binary logarithm of the
    size. *)
Lemma format_size_loop_returns fuel q i :
  Qnum q <= 1024 * 2 ^ Z.of_nat fuel * Z.pos (Qden q) ->
  is_Some (format_size_loop (S fuel) q i).
Proof.
  revert q i. induction fuel as [|fuel IH]; intros q i Hq; cbn [format_size_loop].
  - destruct (Qlt_bool (inject_Z 1024) q) eqn:E; [|by eexists].
    apply Qlt_bool_1024 in E. simpl in Hq. lia.
  - destruct (Qlt_bool (inject_Z 1024) q) eqn:E; [|by eexists].
    apply IH. destruct (Qdiv_1024 q) as [-> ->].
    rewrite Nat2Z.inj_succ, Z.pow_succ_r in Hq by lia.
    assert (0 < 2 ^ Z.of_nat fuel) by (apply Z.pow_pos_nonneg; lia).
    nia.
Qed.

(** What the loop returns: the value is the size divided by 1024 once
    for each unit step, and [m] further steps were taken exactly when
    the size exceeds [1024 ^ m]. *)
Lemma format_size_loop_spec fuel q i q' i' :
  format_size_loop fuel q i = Some (q', i') ->
  (i <= i')%nat
  /\ Qnum q' = Qnum q
  /\ Z.pos (Qden q') = Z.pos (Qden q) * 1024 ^ Z.of_nat (i' - i)
  /\ forall m : nat, (i + S m <= i')%nat
       <-> Z.pos (Qden q) * 1024 ^ Z.of_nat (S m) < Qnum q.
Proof.
  revert q i. induction fuel as [|fuel IH]; intros q i; [done|].
  cbn [format_size_loop].
  destruct (Qlt_bool (inject_Z 1024) q) eqn:E.
  - apply Qlt_bool_1024 in E. intros H.
    apply IH in H as (Hle & Hn & Hd & Hm).
    destruct (Qdiv_1024 q) as [En Ed]. rewrite En in *. rewrite Ed in *.
    split; [lia|]. split; [done|]. split.
    + rewrite Hd. replace (i' - i)%nat with (S (i' - S i)) by lia.
      rewrite Nat2Z.inj_succ, Z.pow_succ_r by lia. lia.
    + intros [|m].
      * simpl. split; [lia|]. intros _. lia.
      * specialize (Hm m). rewrite (Nat2Z.inj_succ (S m)), Z.pow_succ_r by lia.
        split; intros H.
        -- assert (S i + S m <= i')%nat as H' by lia. apply Hm in H'. lia.
        -- assert (S i + S m <= i')%nat; [|lia]. apply Hm. lia.
  - apply (not_true_iff_false _), (not_iff_compat (Qlt_bool_1024 q)) in E.
    intros [= <- <-]. split; [lia|]. split; [done|]. split.
    + rewrite Nat.sub_diag. simpl. lia.
    + intros m. split; [lia|]. intros H.
      rewrite Nat2Z.inj_succ, Z.pow_succ_r in H by lia.
      assert (0 < 1024 ^ Z.of_nat m) by (apply Z.pow_pos_nonneg; lia).
      nia.
Qed.

Lemma format_size_returns bsize : is_Some (format_size bsize).
Proof.
  unfold format_size.
  destruct (format_size_loop_returns (Z.to_nat (Z.log2 bsize)) (inject_Z bsize) 0)
    as [[b i] ->]; [|by eexists].
  simpl. rewrite Z2Nat.id by apply Z.log2_nonneg.
  destruct (Z.le_gt_cases bsize 0) as [Hn|Hp].
  - assert (0 < 2 ^ Z.log2 bsize) by (apply Z.pow_pos_nonneg; [lia | apply Z.log2_nonneg]).
    lia.
  - pose proof (Z.log2_spec bsize Hp) as [_ Hlt].
    rewrite Z.pow_succ_r in Hlt by apply Z.log2_nonneg. lia.
Qed.

(** X10: [format_size] returns a text for every size up to 1024^4
    bytes (1 TiB) and raises [IndexError] for every larger one: the
    list of units ends at GiB. *)
Theorem format_size_index_error bsize :
  0 <= bsize < 2 ^ 53 ->
  (1024 ^ 4 < bsize -> format_size bsize = Some (Raise IndexError))
  /\ (bsize <= 1024 ^ 4 -> exists text, format_size bsize = Some (Ret text)).
Proof.
  intros _. destruct (format_size_returns bsize) as [r Hr].
  unfold format_size in *.
  destruct (format_size_loop _ _ _) as [[b i]|] eqn:E; [|done].
  apply format_size_loop_spec in E as (_ & _ & _ & Hm).
  specialize (Hm 3%nat). simpl in Hm. cbn [mbind option_bind].
  split; intros H.
  - assert (4 <= i)%nat as Hi by (apply Hm; lia).
    rewrite (proj2 (lookup_ge_None postfixes i)); [done | simpl; lia].
  - assert (i < 4)%nat as Hi by (destruct (le_lt_dec 4 i) as [Hc|]; [apply Hm in Hc; lia | done]).
    destruct (lookup_lt_is_Some_2 postfixes i Hi) as [p ->]. by eexists.
Qed.

Lemma format_size_index_error_witness :
  format_size (1024 ^ 4 + 1) = Some (Raise IndexError)
  /\ exists text, format_size (1024 ^ 4) = Some (Ret text).
Proof.
  split.
  - apply (format_size_index_error (1024 ^ 4 + 1)); lia.
  - apply (format_size_index_error (1024 ^ 4)); lia.
Defined.

(** X11: up to and including 1024 the size is shown in bytes, with two
    zero decimals: 1024 bytes read [1024.00bytes], not 1 KiB. *)
Theorem format_size_bytes bsize :
  0 <= bsize <= 1024 ->
  format_size bsize = Some (Ret (str bsize +:+ ".00bytes")).
Proof.
  intros H. unfold format_size. cbn [format_size_loop].
  destruct (Qlt_bool (inject_Z 1024) (inject_Z bsize)) eqn:E.
  { apply Qlt_bool_1024 in E. simpl in E. lia. }
  cbn [mbind option_bind]. change (postfixes !! 0%nat) with (Some "bytes").
  unfold format_2f, round_half_even. cbn [Qnum Qden inject_Z].
  rewrite Z.mod_1_r, Z.div_1_r. change (2 * 0 <? 1) with true. cbn iota.
  rewrite Z.mul_comm, Z.div_mul, Z.mod_mul by lia.
  do 2 f_equal. induction (str bsize) as [|c s IH]; [done|].
  rewrite !append_cons. by f_equal.
Qed.

Lemma format_size_bytes_witness :
  format_size 1024 = Some (Ret "1024.00bytes") /\ format_size 0 = Some (Ret "0.00bytes").
Proof.
  split.
  - apply (format_size_bytes 1024). lia.
  - apply (format_size_bytes 0). lia.
Defined.

Example format_size_ex :
  format_size 1536 = Some (Ret "1.50KiB")
  /\ format_size 1152 = Some (Ret "1.12KiB")
  /\ format_size 1025 = Some (Ret "1.00KiB")
  /\ format_size 5000000 = Some (Ret "4.77MiB")
  /\ format_size (3 * 1024 ^ 3) = Some (Ret "3.00GiB").
Proof. repeat split; vm_compute; reflexivity. Qed.

(** ** [get_video_info]: the qualities on offer *)

Lemma ranked_le_rank a b :
  ranked_le a b <-> exists pa pb, rank a = Some pa /\ rank b = Some pb /\ (pa <= pb)%nat.
Proof.
  unfold ranked_le. destruct (rank a) as [pa|], (rank b) as [pb|];
    split; try done; try (intros (? & ? & ? & ? & ?); done).
  - intros H. by exists pa, pb.
  - by intros (? & ? & [= <-] & [= <-] & ?).
Qed.

(** Where the inner loop puts a label: behind the labels of its rank
    or below, so that a list in ascending order stays so. *)
Lemma insert_index_sorted x priority qs idx0 :
  rank x = Some priority ->
  Forall (fun q => is_Some (rank q)) qs ->
  StronglySorted ranked_le qs ->
  exists k,
    insert_index quality_labels priority qs idx0 = Some (idx0 + k)%nat
    /\ (k <= length qs)%nat
    /\ (forall q tl, qs = q :: tl -> ranked_le q x -> (1 <= k)%nat)
    /\ StronglySorted ranked_le (take k qs ++ x :: drop k qs).
Proof.
  intros Hx Hr Hs. revert idx0.
  induction qs as [|q rest IH]; intros idx0.
  - exists O. simpl. rewrite Nat.add_0_r. repeat split; try done.
    repeat constructor.
  - apply Forall_cons in Hr as [[p Hq] Hr].
    apply StronglySorted_inv in Hs as [Hs Hall].
    cbn [insert_index]. change (list_index q quality_labels) with (rank q). rewrite Hq.
    destruct (Nat.ltb_spec priority p) as [Hlt|Hge].
    + exists O. rewrite Nat.add_0_r. split; [done|]. split; [simpl; lia|]. split.
      * intros q' tl [= <- <-] Hle. apply ranked_le_rank in Hle
          as (pa & pb & Ha & Hb & Hle). simplify_eq. lia.
      * simpl. constructor; [by constructor|]. constructor.
        -- apply ranked_le_rank. exists priority, p. repeat split; [done..|lia].
        -- eapply Forall_impl; [exact Hall|]. intros r Hqr.
           apply ranked_le_rank in Hqr as (pa & pb & Ha & Hb & Hle). simplify_eq.
           apply ranked_le_rank. exists priority, pb. repeat split; [done..|lia].
    + destruct (IH Hr Hs (S idx0)) as (k & Hk & Hlen & _ & Hsorted).
      exists (S k). split; [rewrite Hk; f_equal; lia|].
      split; [simpl; lia|]. split; [intros; lia|].
      simpl. constructor; [done|].
      apply Forall_app. split; [by apply Forall_take|].
      constructor; [|by apply Forall_drop].
      apply ranked_le_rank. by exists p, priority.
Qed.

Lemma list_insert_at_perm {A} k (x : A) l : list_insert_at k x l ≡ₚ x :: l.
Proof.
  unfold list_insert_at. rewrite <- Permutation_middle. by rewrite take_drop.
Qed.

Lemma mp4_labels_cons fmt formats :
  mp4_labels (fmt :: formats)
  = match (if startswith (fmt_mimeType fmt) "video/mp4"
           then lower <$> fmt_qualityLabel fmt else None) with
    | Some q => q :: mp4_labels formats
    | None => mp4_labels formats
    end.
Proof. reflexivity. Qed.

(** The loop that lists the qualities: what it keeps, and when it
    raises. *)
Lemma available_qualities_loop_spec formats : forall qs,
  (exists tl, qs = "audio_only" :: tl) ->
  Forall (fun q => is_Some (rank q)) qs ->
  StronglySorted ranked_le qs ->
  match available_qualities_loop quality_labels formats qs with
  | Ret qs' =>
    (exists tl, qs' = "audio_only" :: tl)
    /\ Forall (fun q => is_Some (rank q)) qs'
    /\ StronglySorted ranked_le qs'
    /\ qs' ≡ₚ qs ++ mp4_labels formats
    /\ Forall (fun fmt => unlisted fmt = false) formats
  | Raise e => Exists (fun fmt => unlisted fmt = true) formats
  end.
Proof.
  induction formats as [|fmt formats IH]; intros qs Hhd Hr Hs.
  - simpl. by rewrite app_nil_r.
  - cbn [available_qualities_loop]. rewrite mp4_labels_cons.
    destruct (startswith (fmt_mimeType fmt) "video/mp4") eqn:Hm.
    2: { specialize (IH qs Hhd Hr Hs).
         destruct (available_qualities_loop quality_labels formats qs).
         - destruct IH as (H1 & H2 & H3 & H4 & H5). repeat split; try done.
           constructor; [by unfold unlisted; rewrite Hm | done].
         - by apply Exists_cons_tl. }
    destruct (fmt_qualityLabel fmt) as [label|] eqn:Hl.
    2: { apply Exists_cons_hd. unfold unlisted. by rewrite Hm, Hl. }
    cbn [fmap option_fmap option_map].
    destruct (list_index (lower label) quality_labels) as [priority|] eqn:Hp.
    2: { apply Exists_cons_hd. unfold unlisted, rank. rewrite Hm, Hl, Hp. done. }
    destruct (insert_index_sorted (lower label) priority qs 0 Hp Hr Hs)
      as (k & -> & Hlen & Hk & Hsorted). cbn [Nat.add].
    destruct Hhd as [tl ->].
    assert (1 <= k)%nat as Hk1.
    { apply (Hk "audio_only" tl eq_refl). apply ranked_le_rank.
      exists 0%nat, priority. repeat split; [done | lia]. }
    destruct k as [|k]; [lia|].
    specialize (IH (list_insert_at (S k) (lower label) ("audio_only" :: tl))).
    destruct (available_qualities_loop quality_labels formats
                (list_insert_at (S k) (lower label) ("audio_only" :: tl))).
    + destruct IH as (H1 & H2 & H3 & H4 & H5); [by eexists | | done |].
      { unfold list_insert_at. apply Forall_app. split; [by apply Forall_take|].
        constructor; [by exists priority | by apply Forall_drop]. }
      repeat split; try done.
      * rewrite H4, list_insert_at_perm. apply Permutation_middle.
      * constructor; [|done]. unfold unlisted, rank. rewrite Hm, Hl, Hp. done.
    + apply Exists_cons_tl. apply IH; [by eexists | | done].
      unfold list_insert_at. apply Forall_app. split; [by apply Forall_take|].
      constructor; [by exists priority | by apply Forall_drop].
Qed.

Lemma sorted_last qs :
  qs <> [] -> Forall (fun q => is_Some (rank q)) qs ->
  StronglySorted ranked_le qs ->
  exists best, last qs = Some best /\ forall q, q ∈ qs -> ranked_le q best.
Proof.
  induction qs as [|x qs IH]; [done|]. intros _ Hr Hs.
  apply Forall_cons in Hr as [[p Hx] Hr].
  apply StronglySorted_inv in Hs as [Hs Hall].
  destruct qs as [|y qs].
  - exists x. split; [done|]. intros q Hq. apply list_elem_of_singleton in Hq as ->.
    apply ranked_le_rank. by exists p, p.
  - destruct (IH ltac:(done) Hr Hs) as (best & Hlast & Hbest).
    exists best. split; [done|]. intros q Hq.
    apply elem_of_cons in Hq as [->|Hq]; [|by apply Hbest].
    rewrite Forall_forall in Hall. apply Hall.
    by apply last_Some_elem_of.
Qed.

(** X12: the list of qualities on offer that [get_video_info] builds
    starts with [audio_only], holds besides it exactly the lower-cased
    labels of the [video/mp4] formats, and is in the ascending order of
    the table; its last entry, the one [best] stands for, ranks at
    least as high as every other. *)
Theorem available_qualities_sorted formats qs :
  available_qualities formats = Ret qs ->
  (exists tl, qs = "audio_only" :: tl)
  /\ StronglySorted ranked_le qs
  /\ qs ≡ₚ "audio_only" :: mp4_labels formats
  /\ exists best, last qs = Some best /\ forall q, q ∈ qs -> ranked_le q best.
Proof.
  unfold available_qualities. intros H.
  pose proof (available_qualities_loop_spec formats ["audio_only"]) as Hspec.
  rewrite H in Hspec.
  destruct Hspec as ([tl ->] & H2 & H3 & H4 & _);
    [by eexists | repeat constructor; by exists 0%nat | repeat constructor |].
  split; [by eexists|]. split; [done|]. split; [done|].
  by apply sorted_last.
Qed.

Lemma available_qualities_sorted_witness :
  (exists tl, ["audio_only"; "360p"; "720p"; "1080p60"] = "audio_only" :: tl)
  /\ StronglySorted ranked_le ["audio_only"; "360p"; "720p"; "1080p60"]
  /\ ["audio_only"; "360p"; "720p"; "1080p60"]
     ≡ₚ "audio_only" :: mp4_labels [fmt_video 136 "720p"; fmt_audio;
                                    fmt_video 299 "1080p60"; fmt_video 134 "360p"]
  /\ exists best, last ["audio_only"; "360p"; "720p"; "1080p60"] = Some best
       /\ forall q, q ∈ ["audio_only"; "360p"; "720p"; "1080p60"] -> ranked_le q best.
Proof.
  apply (available_qualities_sorted
           [fmt_video 136 "720p"; fmt_audio; fmt_video 299 "1080p60"; fmt_video 134 "360p"]).
  reflexivity.
Defined.


Example available_qualities_1440p :
  available_qualities [fmt_video 136 "720p"; fmt_video 400 "1440p"] = Raise ValueError.
Proof. reflexivity. Qed.

(** ** [get_video_info]: choosing and binding *)

Lemma label_lookup_itags q h v :
  label_lookup q = Some (Codecs h v) -> 0 < h /\ 0 < v.
Proof.
  unfold label_lookup, VIDEO_LABEL_ITAGS. cbn [List.find fst snd].
  repeat (destruct (String.eqb _ q);
          [cbn [fmap option_fmap option_map snd]; intros [= <- <-]; lia|]);
    done.
Qed.

Lemma set_download_url_twice info dt u u' :
  set_download_url (set_download_url info dt u) dt u' = set_download_url info dt u'.
Proof. by destruct dt. Qed.

(** What the loop over the selection leaves when it finds nothing: the
    audio URL may have been bound, nothing else. *)
Lemma select_quality_not_found dl_urls qualities selected info info' :
  select_quality dl_urls qualities selected info = NotFound info' ->
  info' = info
  \/ exists a, dl_urls !! AUDIO_ITAG = Some a
       /\ info' = set_download_url info DTYPE_AUDIO a.
Proof.
  revert info. induction selected as [|q rest IH]; intros info.
  - intros [= <-]. by left.
  - cbn [select_quality].
    destruct (if (strip q =? "best")%string then last qualities else Some (strip q))
      as [q'|]; [|done].
    destruct (label_lookup q') as [[|h v]|]; [| |done].
    + by destruct (dl_urls !! AUDIO_ITAG).
    + destruct (dl_urls !! AUDIO_ITAG) as [a|] eqn:Ha; [|done].
      destruct (if vp9 (set_download_url info DTYPE_AUDIO a) then dl_urls !! v else None);
        [done|].
      destruct (dl_urls !! h); [done|].
      intros H. right. exists a. split; [done|].
      apply IH in H as [->|(a' & Ha' & ->)]; [done|].
      rewrite set_download_url_twice. congruence.
Qed.

Lemma select_quality_found dl_urls qualities selected info info' :
  select_quality dl_urls qualities selected info = Found info' ->
  exists a v q,
    info' = set_quality (set_download_url (set_download_url info DTYPE_AUDIO a)
                                          DTYPE_VIDEO v) q
    /\ dl_urls !! AUDIO_ITAG = Some a
    /\ ((q = 0 /\ v = "")
        \/ exists label h vp,
             label_lookup label = Some (Codecs h vp)
             /\ (q = h \/ (vp9 info = true /\ q = vp))
             /\ dl_urls !! q = Some v).
Proof.
  revert info. induction selected as [|q rest IH]; intros info; [done|].
  cbn [select_quality].
  destruct (if (strip q =? "best")%string then last qualities else Some (strip q))
    as [q'|]; [|done].
  destruct (label_lookup q') as [[|h v]|] eqn:Hq; [| |done].
  - destruct (dl_urls !! AUDIO_ITAG) as [a|] eqn:Ha; [|done].
    intros [= <-]. exists a, "", 0. split; [done|]. split; [done | by left].
  - destruct (dl_urls !! AUDIO_ITAG) as [a|] eqn:Ha; [|done].
    change (vp9 (set_download_url info DTYPE_AUDIO a)) with (vp9 info).
    destruct (if vp9 info then dl_urls !! v else None) as [u|] eqn:Hv.
    + intros [= <-]. exists a, u, v. split; [done|]. split; [done|]. right.
      exists q', h, v. split; [done|].
      destruct (vp9 info); [|done]. split; [by right | done].
    + destruct (dl_urls !! h) as [u|] eqn:Hh.
      * intros [= <-]. exists a, u, h. split; [done|]. split; [done|]. right.
        exists q', h, v. split; [done|]. split; [by left | done].
      * intros H. apply IH in H as (a' & v' & q0 & -> & Ha' & Hsel).
        rewrite set_download_url_twice.
        exists a', v', q0. split; [done|]. split; [done|]. exact Hsel.
Qed.

(** X14: when the choice of a quality ends with one found, [info] is
    as before but for three fields: the audio URL is the URL of itag
    140, [info.quality] is 0 with an empty video URL (audio only), or
    it is the h264 itag of a label of the table (the vp9 itag only with
    the vp9 option) and the video URL is the URL of that very itag; in
    all cases [info.quality] is no longer negative. *)
Theorem select_loop_found fuel dl_urls qualities selected inputs info info' rest :
  Forall (fun q => is_ascii_text q = true) (selected ++ inputs) ->
  select_loop fuel dl_urls qualities selected inputs info = Some (Found info', rest) ->
  0 <= quality info'
  /\ exists a v q,
       info' = set_quality (set_download_url (set_download_url info DTYPE_AUDIO a)
                                             DTYPE_VIDEO v) q
       /\ dl_urls !! AUDIO_ITAG = Some a
       /\ ((q = 0 /\ v = "")
           \/ exists label h vp,
                label_lookup label = Some (Codecs h vp)
                /\ (q = h \/ (vp9 info = true /\ q = vp))
                /\ dl_urls !! q = Some v).
Proof.
  intros _ H.
  assert (exists a v q,
    info' = set_quality (set_download_url (set_download_url info DTYPE_AUDIO a)
                                          DTYPE_VIDEO v) q
    /\ dl_urls !! AUDIO_ITAG = Some a
    /\ ((q = 0 /\ v = "")
        \/ exists label h vp,
             label_lookup label = Some (Codecs h vp)
             /\ (q = h \/ (vp9 info = true /\ q = vp))
             /\ dl_urls !! q = Some v)) as (a & v & q & -> & Ha & Hsel).
  { revert selected inputs info H.
    induction fuel as [|fuel IH]; intros selected inputs info; [done|].
    cbn [select_loop]. intros H.
    apply bind_Some in H as ([sel inp] & _ & H).
    destruct (select_quality dl_urls qualities sel info) as [i|i|e i] eqn:Hs.
    - injection H as -> ->. exact (select_quality_found _ _ _ _ _ Hs).
    - apply IH in H as (a & v & q & -> & Ha & Hsel).
      apply select_quality_not_found in Hs as [->|(a' & Ha' & ->)].
      + by exists a, v, q.
      + rewrite set_download_url_twice. by exists a, v, q.
    - done. }
  split; [|by exists a, v, q].
  change (quality (set_quality _ q)) with q.
  destruct Hsel as [[-> _]|(label & h & vp & Hl & Hq & _)]; [done|].
  apply label_lookup_itags in Hl. destruct Hq as [->|[_ ->]]; lia.
Qed.

Lemma select_loop_found_witness :
  let found :=
    set_quality (set_download_url
                   (set_download_url DownloadInfo_init DTYPE_AUDIO
                      "https://a.example/videoplayback?noclen=1&sq={0}")
                   DTYPE_VIDEO "https://v.example/videoplayback?noclen=1&sq={0}") 136 in
  0 <= quality found
  /\ exists a v q,
       found = set_quality (set_download_url (set_download_url DownloadInfo_init DTYPE_AUDIO a)
                                             DTYPE_VIDEO v) q
       /\ sample_dl_urls !! AUDIO_ITAG = Some a
       /\ ((q = 0 /\ v = "")
           \/ exists label h vp,
                label_lookup label = Some (Codecs h vp)
                /\ (q = h \/ (vp9 DownloadInfo_init = true /\ q = vp))
                /\ sample_dl_urls !! q = Some v).
Proof.
  intros found.
  apply (select_loop_found 2 sample_dl_urls ["audio_only"; "720p"]
           ["1080p60"] ["best"; "unused"] DownloadInfo_init found ["unused"]).
  - repeat constructor.
  - vm_compute. reflexivity.
Defined.

(** X15: the step of [get_video_info] that binds the URLs again (the
    [else] branch of [if info.quality < 0], taken when the quality is
    already chosen) leaves [info] as it is but for the two download
    URLs, and it replaces a URL only by one that is fragmented (one
    holding [noclen]): the audio URL by that of itag 140, the video
    URL, unless the quality is audio only, by that of the itag in
    [info.quality]. *)
Theorem rebind_urls_fragmented dl_urls info :
  exists a v,
    rebind_urls dl_urls info
    = set_download_url (set_download_url info DTYPE_AUDIO a) DTYPE_VIDEO v
    /\ (a = download_url (mdl_audio info)
        \/ (dl_urls !! AUDIO_ITAG = Some a /\ is_fragmented a = true))
    /\ (v = download_url (mdl_video info)
        \/ (quality info <> 0 /\ dl_urls !! quality info = Some v
            /\ is_fragmented v = true)).
Proof.
  assert (forall i : DownloadInfo,
    i = set_download_url i DTYPE_AUDIO (download_url (mdl_audio i))) as Hsame_a.
  { intros i. by destruct i as [? ? ? ? ? ? ? ? ? ? ? ? ? ? ? ? ? ? ? ? ? ? []]. }
  assert (forall i : DownloadInfo,
    i = set_download_url i DTYPE_VIDEO (download_url (mdl_video i))) as Hsame_v.
  { intros i. by destruct i as [? ? ? ? ? ? ? ? ? ? ? ? ? ? ? ? ? ? ? ? ? [] ?]. }
  unfold rebind_urls.
  set (info1 := match dl_urls !! AUDIO_ITAG with
                | Some u => if is_fragmented u
                            then set_download_url info DTYPE_AUDIO u else info
                | None => info
                end).
  assert (exists a, info1 = set_download_url info DTYPE_AUDIO a
            /\ (a = download_url (mdl_audio info)
                \/ (dl_urls !! AUDIO_ITAG = Some a /\ is_fragmented a = true)))
    as (a & E1 & Ha).
  { subst info1.
    destruct (dl_urls !! AUDIO_ITAG) as [u|] eqn:Hu;
      [destruct (is_fragmented u) eqn:Hf|].
    - exists u. split; [done | by right].
    - exists (download_url (mdl_audio info)). split; [apply Hsame_a | by left].
    - exists (download_url (mdl_audio info)). split; [apply Hsame_a | by left]. }
  exists a.
  assert (quality info1 = quality info) as Eq by (by rewrite E1).
  assert (download_url (mdl_video info1) = download_url (mdl_video info)) as Ev
    by (by rewrite E1).
  rewrite Eq.
  destruct (Z.eqb_spec (quality info) 0) as [Hq|Hq]; cbn [negb].
  { exists (download_url (mdl_video info)).
    split; [|split; [done | by left]]. rewrite <- E1, <- Ev. apply Hsame_v. }
  destruct (dl_urls !! quality info) as [v|] eqn:Hv;
    [destruct (is_fragmented v) eqn:Hfv|].
  - exists v. split; [by rewrite E1|]. split; [done | by right].
  - exists (download_url (mdl_video info)).
    split; [|split; [done | by left]]. rewrite <- E1, <- Ev. apply Hsame_v.
  - exists (download_url (mdl_video info)).
    split; [|split; [done | by left]]. rewrite <- E1, <- Ev. apply Hsame_v.
Qed.

Example rebind_urls_keeps_processed_stream :
  let dl_urls : gmap Z string :=
    {[ 140 := "https://a.example/videoplayback?clen=9&sq={0}" ]} in
  let info := set_download_url DownloadInfo_init DTYPE_AUDIO "old" in
  rebind_urls dl_urls (set_quality info 0) = set_quality info 0.
Proof. vm_compute. reflexivity. Qed.

(** X16: [--no-video] stores the audio itag 140 in [info.quality],
    which is not the value 0 that stands for audio only.  The refresh
    that follows therefore binds the URL of itag 140 to the video track
    as well as to the audio track, and [main] gives the two tracks the
    same file name. *)
Theorem no_video_binds_audio_url_twice dl_urls info u fname :
  dl_urls !! AUDIO_ITAG = Some u -> is_fragmented u = true ->
  let info' := rebind_urls dl_urls (opt_no_video info) in
  quality info' = AUDIO_ITAG
  /\ download_url (mdl_info info' DTYPE_AUDIO) = u
  /\ download_url (mdl_info info' DTYPE_VIDEO) = u
  /\ vfile_name fname info' = afile_name fname.
Proof.
  intros Hu Hf. unfold rebind_urls, opt_no_video.
  change (quality (set_quality info AUDIO_ITAG)) with AUDIO_ITAG.
  rewrite Hu, Hf. change (negb (AUDIO_ITAG =? 0)) with true. cbn iota.
  change (quality (set_download_url (set_quality info AUDIO_ITAG) DTYPE_AUDIO u))
    with AUDIO_ITAG.
  rewrite Hu, Hf. by repeat split.
Qed.

Lemma no_video_binds_audio_url_twice_witness :
  let info' := rebind_urls sample_dl_urls (opt_no_video DownloadInfo_init) in
  quality info' = AUDIO_ITAG
  /\ download_url (mdl_info info' DTYPE_AUDIO)
     = "https://a.example/videoplayback?noclen=1&sq={0}"
  /\ download_url (mdl_info info' DTYPE_VIDEO)
     = "https://a.example/videoplayback?noclen=1&sq={0}"
  /\ vfile_name "live" info' = afile_name "live".
Proof.
  apply (no_video_binds_audio_url_twice sample_dl_urls DownloadInfo_init
           "https://a.example/videoplayback?noclen=1&sq={0}" "live");
    vm_compute; reflexivity.
Defined.

(** ** [download_frags]: what a worker delivers, and when it leaves *)

Lemma after_tries_cases refresh sq max_seq l w l' w' :
  Frags.after_tries refresh sq max_seq l w = (l', w') ->
  Frags.url l' = Frags.url l /\ Frags.is_403 l' = Frags.is_403 l
  /\ ((Frags.tries l < FRAG_MAX_TRIES /\ l' = l /\ w' = w)
      \/ (FRAG_MAX_TRIES <= Frags.tries l /\ is_live (w_info w') = true
          /\ Frags.downloading l' = Frags.downloading l /\ Frags.tries l' = 0)
      \/ (FRAG_MAX_TRIES <= Frags.tries l /\ is_live (w_info w') = false
          /\ Frags.tries l' = Frags.tries l)).
Proof.
  unfold Frags.after_tries.
  destruct (Z.geb_spec (Frags.tries l) FRAG_MAX_TRIES) as [Hge|Hlt].
  2: { intros [= <- <-]. split; [done|]. split; [done|]. left. by repeat split. }
  set (w1 := if is_live (w_info w) then (get_video_info refresh w).2 else w).
  destruct (is_live (w_info w1)) eqn:Hl; cbn [negb].
  - intros [= <- <-]. split; [done|]. split; [done|]. right. left. by repeat split.
  - destruct (_ && _); [intros [= <- <-]; split; [done|]; split; [done|];
                         right; right; by repeat split|].
    destruct (_ && _); intros [= <- <-]; (split; [done|]); (split; [done|]);
      right; right; by repeat split.
Qed.

Lemma on_http_error_goes_on refresh dt sq max_seq code l w fl l' w' :
  Frags.on_http_error refresh dt sq max_seq code l w = (fl, l', w') ->
  fl <> Frags.Break ->
  fl = Frags.Fall /\ Frags.downloading l' = Frags.downloading l
  /\ Frags.tries l' = Frags.tries l + 1.
Proof.
  unfold Frags.on_http_error.
  destruct (code =? 403).
  - destruct (negb (gvideo_ddl (w_info w))).
    + destruct (negb _).
      * by intros [= <- <- <-].
      * destruct (get_video_info refresh w) as [r w1].
        destruct (truthy r); by intros [= <- <- <-].
    + by intros [= <- <- <-].
  - destruct (code =? 404); [|by intros [= <- <- <-]].
    destruct (_ && _); [by intros [= <- <- <-] | by intros [= <- <- <-]].
Qed.

Lemma on_other_error_goes_on sq max_seq l w fl l' w' :
  Frags.on_other_error sq max_seq l w = (fl, l', w') ->
  fl <> Frags.Break ->
  fl = Frags.Fall /\ Frags.downloading l' = Frags.downloading l
  /\ Frags.tries l' = Frags.tries l + 1 /\ w' = w.
Proof.
  unfold Frags.on_other_error.
  destruct (_ && _); [by intros [= <- <- <-] | by intros [= <- <- <-]].
Qed.

(** The body of the retry loop puts a fragment on the queue only for
    an answer that brought bytes, and then leaves the loop. *)
Lemma attempt_delivers refresh dt sq max_seq r l w fl l' w' d :
  Frags.attempt refresh dt sq max_seq r l w = (fl, l', w', Some d) ->
  fl = Frags.Break /\ seq d = sq /\ Frags.downloading l' = Frags.downloading l
  /\ exists n h, r = Frags.Fetched n h /\ n <> 0 /\ x_head_seqnum d = h.
Proof.
  unfold Frags.attempt. destruct (stopping (w_info w)); [done|].
  destruct r as [n h|code|].
  - destruct (Z.eqb_spec n 0) as [->|Hn].
    + destruct (_ <? _); [done|].
      by destruct (Frags.after_tries _ _ _ _ _).
    + intros [= <- <- <- <-]. repeat split. by exists n, h.
  - destruct (Frags.on_http_error _ _ _ _ _ _ _) as [[[] l0] w0]; try done.
    by destruct (Frags.after_tries _ _ _ _ _).
  - destruct (Frags.on_other_error _ _ _ _) as [[[] l0] w0]; try done.
    by destruct (Frags.after_tries _ _ _ _ _).
Qed.

(** When the body does not leave the loop and tries are left, the
    worker has not given up. *)
Lemma attempt_goes_on refresh dt sq max_seq r l w fl l' w' out :
  Frags.attempt refresh dt sq max_seq r l w = (fl, l', w', out) ->
  fl <> Frags.Break -> Frags.tries l' < FRAG_MAX_TRIES ->
  Frags.downloading l' = Frags.downloading l /\ out = None.
Proof.
  unfold Frags.attempt. destruct (stopping (w_info w)); [by intros [= <- <- <- <-]|].
  assert (forall l1 w1 l2 w2,
    Frags.after_tries refresh sq max_seq l1 w1 = (l2, w2) ->
    Frags.tries l2 < FRAG_MAX_TRIES ->
    Frags.downloading l2 = Frags.downloading l1) as Hafter.
  { intros l1 w1 l2 w2 H Ht.
    apply after_tries_cases in H as (_ & _ & [(_ & -> & _)|[(_ & _ & -> & _)|(? & _ & E)]]);
      [done | done | lia]. }
  destruct r as [n h|code|].
  - destruct (Z.eqb_spec n 0) as [->|Hn]; [|by intros [= <- <- <- <-]].
    destruct (_ <? _).
    + by intros [= <- <- <- <-].
    + destruct (Frags.after_tries _ _ _ _ _) as [l2 w2] eqn:Ha.
      intros [= <- <- <- <-] _ Ht. split; [|done].
      by rewrite (Hafter _ _ _ _ Ha Ht).
  - destruct (Frags.on_http_error _ _ _ _ _ _ _) as [[fl0 l0] w0] eqn:He.
    destruct fl0.
    + by intros [= <- <- <- <-].
    + by destruct (on_http_error_goes_on _ _ _ _ _ _ _ _ _ _ He) as [? _].
    + destruct (on_http_error_goes_on _ _ _ _ _ _ _ _ _ _ He) as (_ & Hd & _); [done|].
      destruct (Frags.after_tries _ _ _ _ _) as [l2 w2] eqn:Ha.
      intros [= <- <- <- <-] _ Ht. split; [|done].
      by rewrite (Hafter _ _ _ _ Ha Ht).
  - destruct (Frags.on_other_error _ _ _ _) as [[fl0 l0] w0] eqn:He.
    destruct fl0.
    + by intros [= <- <- <- <-].
    + by destruct (on_other_error_goes_on _ _ _ _ _ _ _ He) as [? _].
    + destruct (on_other_error_goes_on _ _ _ _ _ _ _ He) as (_ & Hd & _); [done|].
      destruct (Frags.after_tries _ _ _ _ _) as [l2 w2] eqn:Ha.
      intros [= <- <- <- <-] _ Ht. split; [|done].
      by rewrite (Hafter _ _ _ _ Ha Ht).
Qed.

Lemma retry_loop_exhausted refresh dt sq max_seq results l w :
  FRAG_MAX_TRIES <= Frags.tries l ->
  Frags.retry_loop refresh dt sq max_seq results l w = (l, w, None).
Proof.
  intros H. destruct results; cbn [Frags.retry_loop];
    by destruct (Z.ltb_spec (Frags.tries l) FRAG_MAX_TRIES); [lia|].
Qed.

(** X17: a fragment that the retry loop of [download_frags] puts on the
    data queue carries the sequence number the worker was given and
    the head number of an answer that brought bytes: an empty answer is
    never delivered, and a worker that delivers has not given up. *)
Theorem retry_loop_delivers refresh dt sq max_seq results l w l' w' d :
  Frags.retry_loop refresh dt sq max_seq results l w = (l', w', Some d) ->
  seq d = sq
  /\ Frags.downloading l' = Frags.downloading l
  /\ exists n h, Frags.Fetched n h ∈ results /\ n <> 0 /\ x_head_seqnum d = h.
Proof.
  revert l w. induction results as [|r results IH]; intros l w.
  - cbn [Frags.retry_loop]. by destruct (_ <? _).
  - cbn [Frags.retry_loop].
    destruct (Z.ltb_spec (Frags.tries l) FRAG_MAX_TRIES) as [Ht|Ht]; [|done].
    destruct (Frags.attempt refresh dt sq max_seq r l w) as [[[fl l1] w1] out1] eqn:Ha.
    assert (Frags.retry_loop refresh dt sq max_seq results l1 w1 = (l', w', Some d) ->
            fl <> Frags.Break ->
            seq d = sq /\ Frags.downloading l' = Frags.downloading l
            /\ exists n h, Frags.Fetched n h ∈ r :: results /\ n <> 0
                 /\ x_head_seqnum d = h) as Hrest.
    { intros H Hfl.
      destruct (Z.lt_ge_cases (Frags.tries l1) FRAG_MAX_TRIES) as [Ht1|Ht1];
        [|by rewrite retry_loop_exhausted in H].
      destruct (attempt_goes_on _ _ _ _ _ _ _ _ _ _ _ Ha Hfl Ht1) as [Hd _].
      apply IH in H as (H1 & H2 & n & h & Hin & Hn & Hh).
      split; [done|]. split; [congruence|]. exists n, h. split; [by right | done]. }
    destruct fl; [|intros H; by apply Hrest..].
    intros [= <- <- ->].
    apply attempt_delivers in Ha as (_ & H1 & H2 & n & h & -> & Hn & Hh).
    split; [done|]. split; [done|]. exists n, h. split; [by left | done].
Qed.

Lemma retry_loop_delivers_witness :
  seq (Build_Fragment 7 ".frag7.ts" 9) = 7
  /\ Frags.downloading (Frags.Build_locals true 1 3 false "u")
     = Frags.downloading (Frags.Build_locals true 0 3 false "u")
  /\ exists n h, Frags.Fetched n h ∈ [Frags.HTTPError 404; Frags.Fetched 100 9]
       /\ n <> 0 /\ x_head_seqnum (Build_Fragment 7 ".frag7.ts" 9) = h.
Proof.
  apply (retry_loop_delivers sample_refresh DTYPE_AUDIO 7 (-1)
           [Frags.HTTPError 404; Frags.Fetched 100 9]
           (Frags.Build_locals true 0 3 false "u") (world_at DownloadInfo_init 0)
           (Frags.Build_locals true 1 3 false "u") (world_at DownloadInfo_init 0)).
  reflexivity.
Defined.

Lemma after_tries_live refresh dt sq max_seq l w l' w' :
  Worker.stays_live refresh dt ->
  is_live (w_info w) = true -> stopping (w_info w) = false ->
  Frags.after_tries refresh sq max_seq l w = (l', w') ->
  Frags.downloading l' = Frags.downloading l
  /\ is_live (w_info w') = true /\ stopping (w_info w') = false
  /\ (Frags.tries l' < FRAG_MAX_TRIES).
Proof.
  intros Hst Hl Hs. unfold Frags.after_tries.
  destruct (Z.geb_spec (Frags.tries l) FRAG_MAX_TRIES) as [Hge|Hlt].
  2: { intros [= <- <-]. by repeat split. }
  rewrite Hl. destruct (Hst w Hl Hs) as (Hl' & Hs' & _).
  change (snd (get_video_info refresh w)) with (get_video_info refresh w).2.
  rewrite Hl'. cbn [negb]. intros [= <- <-]. by repeat split.
Qed.

(** One pass through the body while the stream is live: either the
    fragment is delivered, or the loop goes on with tries left. *)
Lemma attempt_live refresh dt sq max_seq r l w fl l' w' out :
  Worker.stays_live refresh dt ->
  is_live (w_info w) = true -> stopping (w_info w) = false ->
  Frags.tries l < FRAG_MAX_TRIES ->
  Frags.attempt refresh dt sq max_seq r l w = (fl, l', w', out) ->
  Frags.downloading l' = Frags.downloading l
  /\ ((fl = Frags.Break /\ is_Some out)
      \/ (fl <> Frags.Break /\ out = None /\ Frags.tries l' < FRAG_MAX_TRIES
          /\ is_live (w_info w') = true /\ stopping (w_info w') = false)).
Proof.
  intros Hst Hl Hs Ht. unfold Frags.attempt. rewrite Hs.
  destruct r as [n h|code|].
  - destruct (Z.eqb_spec n 0) as [->|Hn].
    2: { intros [= <- <- <- <-]. split; [done|]. left. split; [done | by eexists]. }
    destruct (Z.ltb_spec (Frags.tries (Frags.set_tries l (Frags.tries l + 1)))
                FRAG_MAX_TRIES) as [Hlt|Hge].
    + intros [= <- <- <- <-]. split; [done|]. right. by repeat split.
    + destruct (Frags.after_tries _ _ _ _ _) as [l2 w2] eqn:Ha.
      apply (after_tries_live _ dt) in Ha as (Hd & Hl2 & Hs2 & Ht2); [|done..].
      intros [= <- <- <- <-]. split; [done|]. right. by repeat split.
  - unfold Frags.on_http_error. rewrite Hl. cbn [negb]. rewrite andb_false_r.
    cbn [andb].
    assert (forall l1 w1, is_live (w_info w1) = true -> stopping (w_info w1) = false ->
      Frags.downloading l1 = Frags.downloading l ->
      (let '(l2, w2) := Frags.after_tries refresh sq max_seq l1 w1 in
       (Frags.Fall, l2, w2, @None Fragment)) = (fl, l', w', out) ->
      Frags.downloading l' = Frags.downloading l
      /\ ((fl = Frags.Break /\ is_Some out)
          \/ (fl <> Frags.Break /\ out = None /\ Frags.tries l' < FRAG_MAX_TRIES
              /\ is_live (w_info w') = true /\ stopping (w_info w') = false))) as Hfall.
    { intros l1 w1 Hl1 Hs1 Hd1.
      destruct (Frags.after_tries _ _ _ _ _) as [l2 w2] eqn:Ha.
      apply (after_tries_live _ dt) in Ha as (Hd & Hl2 & Hs2 & Ht2); [|done..].
      intros [= <- <- <- <-]. split; [congruence|]. right. by repeat split. }
    destruct (code =? 403).
    + destruct (negb (gvideo_ddl (w_info w))).
      * destruct (negb _); [by apply Hfall|].
        destruct (Hst w Hl Hs) as (Hl' & Hs' & _).
        destruct (get_video_info refresh w) as [rr w1]. cbn [snd] in *.
        destruct (truthy rr); by apply Hfall.
      * by apply Hfall.
    + destruct (code =? 404); by apply Hfall.
  - unfold Frags.on_other_error. rewrite Hl. cbn [negb]. rewrite andb_false_r.
    cbn [andb].
    destruct (Frags.after_tries _ _ _ _ _) as [l2 w2] eqn:Ha.
    apply (after_tries_live _ dt) in Ha as (Hd & Hl2 & Hs2 & Ht2); [|done..].
    intros [= <- <- <- <-]. split; [done|]. right. by repeat split.
Qed.

(** X18: while the stream stays live and the download is not being
    stopped, the retry loop of a worker is left only with the fragment
    delivered: whatever the requests answer, the worker does not give
    the fragment up, and when the answers run out the loop is still
    going, with tries left. *)
Theorem retry_loop_live refresh dt sq max_seq results l w l' w' out :
  Worker.stays_live refresh dt ->
  is_live (w_info w) = true -> stopping (w_info w) = false ->
  Frags.tries l < FRAG_MAX_TRIES ->
  Frags.retry_loop refresh dt sq max_seq results l w = (l', w', out) ->
  Frags.downloading l' = Frags.downloading l
  /\ (out = None ->
      Frags.tries l' < FRAG_MAX_TRIES
      /\ is_live (w_info w') = true /\ stopping (w_info w') = false).
Proof.
  intros Hst. revert l w.
  induction results as [|r results IH]; intros l w Hl Hs Ht.
  - cbn [Frags.retry_loop]. destruct (_ <? _); by intros [= <- <- <-].
  - cbn [Frags.retry_loop].
    destruct (Z.ltb_spec (Frags.tries l) FRAG_MAX_TRIES) as [_|]; [|lia].
    destruct (Frags.attempt refresh dt sq max_seq r l w) as [[[fl l1] w1] out1] eqn:Ha.
    apply (attempt_live refresh dt) in Ha
      as (Hd & [(-> & [d ->])|(Hfl & -> & Ht1 & Hl1 & Hs1)]); [| |done..].
    + by intros [= <- <- <-].
    + intros H. assert (Frags.retry_loop refresh dt sq max_seq results l1 w1
                        = (l', w', out)) as H' by (by destruct fl).
      apply IH in H' as [Hd' Hout]; [|done..]. split; [congruence | done].
Qed.

Lemma sample_refresh_stays_live dt : Worker.stays_live sample_refresh dt.
Proof.
  intros w Hl Hs. unfold get_video_info.
  destruct (gvideo_ddl (w_info w)); [by cbn [snd]|].
  rewrite Hs. destruct (is_unavailable (w_info w)); [by cbn [snd]|].
  destruct (float_ltb _ _); [by cbn [snd]|].
  cbn [sample_refresh snd w_info is_live stopping]. split; [done|]. split; [done|].
  by destruct dt.
Qed.

Lemma retry_loop_live_witness :
  let r := Frags.retry_loop sample_refresh DTYPE_AUDIO 5 9
             [Frags.OtherError; Frags.HTTPError 500; Frags.Fetched 0 9]
             (Frags.Build_locals true 8 3 false "u") (world_at live_info 100) in
  Frags.downloading r.1.1 = Frags.downloading (Frags.Build_locals true 8 3 false "u")
  /\ (r.2 = None ->
      Frags.tries r.1.1 < FRAG_MAX_TRIES
      /\ is_live (w_info r.1.2) = true /\ stopping (w_info r.1.2) = false).
Proof.
  intros r.
  apply (retry_loop_live sample_refresh DTYPE_AUDIO 5 9
           [Frags.OtherError; Frags.HTTPError 500; Frags.Fetched 0 9]
           (Frags.Build_locals true 8 3 false "u") (world_at live_info 100)).
  - apply sample_refresh_stays_live.
  - reflexivity.
  - reflexivity.
  - vm_compute. reflexivity.
  - subst r. by destruct (Frags.retry_loop _ _ _ _ _ _ _) as [[? ?] ?].
Defined.

Example retry_loop_live_ex :
  Frags.retry_loop sample_refresh DTYPE_AUDIO 5 9
    [Frags.OtherError; Frags.HTTPError 500; Frags.Fetched 0 9]
    (Frags.Build_locals true 8 3 false "u") (world_at live_info 100)
  = (Frags.Build_locals true 1 2 false "u", (sample_refresh (world_at live_info 100)).2,
     None).
Proof. vm_compute. reflexivity. Qed.

(** *** The empty queue *)

Lemma turn_empty_early refresh dt l ft w :
  stopping (w_info w) = false -> ft + 1 < FRAG_MAX_TRIES ->
  Worker.turn refresh dt Worker.QueueEmpty l ft w
  = (false, Worker.fresh l, ft + 1, w, None).
Proof.
  intros Hs Hft. unfold Worker.turn. rewrite Hs.
  by destruct (Z.geb_spec (ft + 1) FRAG_MAX_TRIES); [lia|].
Qed.

Lemma turn_empty_others refresh dt l ft w :
  stopping (w_info w) = false -> FRAG_MAX_TRIES <= ft + 1 ->
  1 < active_threads (mdl_info (w_info w) dt) ->
  Worker.turn refresh dt Worker.QueueEmpty l ft w
  = (false, Frags.set_downloading (Worker.fresh l) false, ft + 1, w, None).
Proof.
  intros Hs Hft Ha. unfold Worker.turn. rewrite Hs.
  destruct (Z.geb_spec (ft + 1) FRAG_MAX_TRIES); [|lia].
  by destruct (Z.gtb_spec (active_threads (mdl_info (w_info w) dt)) 1); [|lia].
Qed.

Lemma run_empty_waits refresh dt n l ft w delivered :
  stopping (w_info w) = false -> Frags.downloading l = true ->
  0 <= ft -> ft + Z.of_nat n < FRAG_MAX_TRIES ->
  forall events,
    Worker.run refresh dt (replicate n Worker.QueueEmpty ++ events) l ft w delivered
    = Worker.run refresh dt events (Nat.iter n Worker.fresh l) (ft + Z.of_nat n) w delivered.
Proof.
  intros Hs. revert l ft. induction n as [|n IH]; intros l ft Hd Hft Hn events.
  - simpl. by rewrite Z.add_0_r.
  - cbn [replicate app Worker.run]. rewrite Hd.
    rewrite turn_empty_early by (done || lia).
    cbn [option_list]. rewrite app_nil_r.
    rewrite IH by (done || lia).
    replace (ft + 1 + Z.of_nat n) with (ft + Z.of_nat (S n)) by lia.
    f_equal. clear. revert l. induction n as [|n IHn]; intros l; [done|].
    simpl in *. by rewrite IHn.
Qed.

Lemma iter_fresh_downloading n l :
  Frags.downloading (Nat.iter n Worker.fresh l) = Frags.downloading l.
Proof. induction n as [|n IH]; [done|]. simpl. exact IH. Qed.

(** X19: a worker that finds the queue empty keeps waiting; with more
    than one worker active on the track it leaves at the tenth empty
    wait in a row ([FRAG_MAX_TRIES]), not before, having delivered
    nothing and changed nothing but the count of active threads, which
    it lowers by one. *)
Theorem download_frags_starved refresh dt w :
  stopping (w_info w) = false ->
  1 < active_threads (mdl_info (w_info w) dt) ->
  Worker.download_frags refresh dt (replicate 10 Worker.QueueEmpty) w
  = Some (Worker.finish dt w, [])
  /\ forall n, (n < 10)%nat ->
       Worker.download_frags refresh dt (replicate n Worker.QueueEmpty) w = None.
Proof.
  intros Hs Ha. unfold Worker.download_frags. split.
  - change (replicate 10 Worker.QueueEmpty)
      with (replicate 9 Worker.QueueEmpty ++ [Worker.QueueEmpty]).
    rewrite run_empty_waits by (done || (unfold FRAG_MAX_TRIES; lia)).
    cbn [Worker.run]. rewrite iter_fresh_downloading.
    cbn [Worker.locals_init Frags.downloading].
    rewrite turn_empty_others by (done || (unfold FRAG_MAX_TRIES; lia)).
    reflexivity.
  - intros n Hn.
    rewrite <- (app_nil_r (replicate n Worker.QueueEmpty)).
    rewrite run_empty_waits by (done || (unfold FRAG_MAX_TRIES; lia)).
    cbn [Worker.run]. by rewrite iter_fresh_downloading.
Qed.

Lemma download_frags_starved_witness :
  let w := world_at (set_active_threads live_info DTYPE_VIDEO 3) 0 in
  Worker.download_frags sample_refresh DTYPE_VIDEO (replicate 10 Worker.QueueEmpty) w
  = Some (world_at (set_active_threads live_info DTYPE_VIDEO 2) 0, [])
  /\ forall n, (n < 10)%nat ->
       Worker.download_frags sample_refresh DTYPE_VIDEO
         (replicate n Worker.QueueEmpty) w = None.
Proof.
  intros w.
  apply (download_frags_starved sample_refresh DTYPE_VIDEO w); [reflexivity|].
  vm_compute. reflexivity.
Defined.

(** X20: the only active worker of a stream that stays live never
    leaves for want of sequence numbers: however many times in a row
    the queue is found empty, it is still waiting. *)
Theorem download_frags_sole_worker_waits refresh dt n w :
  Worker.stays_live refresh dt ->
  is_live (w_info w) = true -> stopping (w_info w) = false ->
  active_threads (mdl_info (w_info w) dt) <= 1 ->
  Worker.download_frags refresh dt (replicate n Worker.QueueEmpty) w = None.
Proof.
  intros Hst Hl Hs Ha. unfold Worker.download_frags.
  generalize (@nil Fragment) as delivered.
  assert (Frags.downloading (Worker.locals_init dt w) = true) as Hd by done.
  revert Hd. generalize (Worker.locals_init dt w) as l. generalize 0 as ft.
  revert w Hl Hs Ha. induction n as [|n IH]; intros w Hl Hs Ha ft l Hd delivered.
  - cbn [replicate Worker.run]. by rewrite Hd.
  - cbn [replicate Worker.run]. rewrite Hd. unfold Worker.turn. rewrite Hs.
    destruct (ft + 1 >=? FRAG_MAX_TRIES).
    + destruct (Z.gtb_spec (active_threads (mdl_info (w_info w) dt)) 1); [lia|].
      rewrite Hl. destruct (Hst w Hl Hs) as (Hl' & Hs' & Ha').
      change (snd (get_video_info refresh w)) with (get_video_info refresh w).2.
      rewrite Hl'. cbn [negb]. apply IH; [done | done | by rewrite Ha' | done].
    + by apply IH.
Qed.

Lemma download_frags_sole_worker_waits_witness :
  Worker.download_frags sample_refresh DTYPE_AUDIO
    (replicate 25 Worker.QueueEmpty) (world_at live_info 100) = None.
Proof.
  apply (download_frags_sole_worker_waits sample_refresh DTYPE_AUDIO 25
           (world_at live_info 100)).
  - apply sample_refresh_stays_live.
  - reflexivity.
  - reflexivity.
  - vm_compute. discriminate.
Defined.

(** *** A fragment given up *)

(** One request that fails, for a fragment more than two below the
    highest known one of a stream that is over: one more try is
    counted, and at the tenth the fragment is let go while the worker
    stays. *)
Lemma attempt_plain_failure refresh dt sq max_seq r l w :
  stopping (w_info w) = false -> is_live (w_info w) = false ->
  -1 < max_seq -> sq < max_seq - 2 ->
  Worker.plain_failure r = true ->
  Frags.is_403 l = false -> 1 < Frags.full_retries l ->
  exists fl,
    fl <> Frags.Break
    /\ Frags.attempt refresh dt sq max_seq r l w
       = (fl,
          if Frags.tries l + 1 <? FRAG_MAX_TRIES
          then Frags.set_tries l (Frags.tries l + 1)
          else Frags.set_full_retries (Frags.set_tries l (Frags.tries l + 1))
                 (Frags.full_retries l - 1),
          w, None).
Proof.
  intros Hs Hl Hm Hsq Hr H403 Hfull.
  assert (forall l1, Frags.tries l1 = Frags.tries l + 1 ->
    Frags.is_403 l1 = false -> Frags.full_retries l1 = Frags.full_retries l ->
    Frags.after_tries refresh sq max_seq l1 w
    = (if Frags.tries l + 1 <? FRAG_MAX_TRIES then l1
       else Frags.set_full_retries l1 (Frags.full_retries l - 1), w)) as Hafter.
  { intros l1 Ht1 H1 Hf1. unfold Frags.after_tries. rewrite Ht1.
    destruct (Z.geb_spec (Frags.tries l + 1) FRAG_MAX_TRIES) as [Hge|Hlt];
      destruct (Z.ltb_spec (Frags.tries l + 1) FRAG_MAX_TRIES); try lia; [|done].
    rewrite Hl. cbn [negb Frags.is_403 Frags.set_full_retries Frags.full_retries].
    rewrite H1, andb_false_r, Hf1.
    destruct (Z.gtb_spec max_seq (-1)); [|lia].
    destruct (Z.ltb_spec sq (max_seq - 2)); [|lia].
    rewrite ?Hl. cbn [negb andb].
    by destruct (Z.gtb_spec (Frags.full_retries l - 1) 0); [|lia]. }
  unfold Frags.attempt. rewrite Hs.
  destruct r as [n h|code|]; cbn [Worker.plain_failure] in Hr.
  - rewrite Hr. cbn [Frags.tries Frags.set_tries].
    destruct (Z.ltb_spec (Frags.tries l + 1) FRAG_MAX_TRIES).
    + exists Frags.Continue. by split.
    + exists Frags.Fall. split; [done|].
      rewrite Hafter by done.
      by destruct (Z.ltb_spec (Frags.tries l + 1) FRAG_MAX_TRIES); [lia|].
  - exists Frags.Fall. split; [done|]. unfold Frags.on_http_error.
    apply negb_true_iff in Hr. rewrite Hr, Hl. cbn [negb].
    assert ((max_seq >? -1) && true && (sq >=? max_seq - 2) = false) as ->.
    { destruct (Z.geb_spec sq (max_seq - 2)); [lia|]. by rewrite andb_false_r. }
    destruct (code =? 404); by rewrite Hafter.
  - exists Frags.Fall. split; [done|]. unfold Frags.on_other_error. rewrite Hl.
    cbn [negb].
    assert ((max_seq >? -1) && true && (sq >=? max_seq - 2) = false) as ->.
    { destruct (Z.geb_spec sq (max_seq - 2)); [lia|]. by rewrite andb_false_r. }
    by rewrite Hafter.
Qed.

Lemma retry_loop_plain_failures refresh dt sq max_seq results : forall l w,
  stopping (w_info w) = false -> is_live (w_info w) = false ->
  -1 < max_seq -> sq < max_seq - 2 ->
  Forall (fun r => Worker.plain_failure r = true) results ->
  Frags.is_403 l = false -> Frags.full_retries l = 3 ->
  0 <= Frags.tries l ->
  Frags.tries l + Z.of_nat (length results) = FRAG_MAX_TRIES ->
  Frags.retry_loop refresh dt sq max_seq results l w
  = (Frags.set_full_retries (Frags.set_tries l FRAG_MAX_TRIES)
       (if Frags.tries l <? FRAG_MAX_TRIES then 2 else 3), w, None).
Proof.
  induction results as [|r results IH];
    intros l w Hs Hl Hm Hsq Hall H403 Hfull Ht0 Hlen.
  - simpl in Hlen. rewrite retry_loop_exhausted by lia.
    destruct (Z.ltb_spec (Frags.tries l) FRAG_MAX_TRIES); [lia|].
    assert (Frags.tries l = FRAG_MAX_TRIES) as Et by lia.
    destruct l as [d t f i u]. cbn [Frags.tries Frags.full_retries] in *.
    subst t f. reflexivity.
  - apply Forall_cons in Hall as [Hr Hall].
    cbn [length] in Hlen. cbn [Frags.retry_loop].
    destruct (Z.ltb_spec (Frags.tries l) FRAG_MAX_TRIES) as [Ht|]; [|lia].
    destruct (attempt_plain_failure refresh dt sq max_seq r l w)
      as (fl & Hfl & ->); [done.. | lia |].
    set (l1 := if Frags.tries l + 1 <? FRAG_MAX_TRIES
               then Frags.set_tries l (Frags.tries l + 1)
               else Frags.set_full_retries (Frags.set_tries l (Frags.tries l + 1))
                      (Frags.full_retries l - 1)).
    assert (Frags.retry_loop refresh dt sq max_seq results l1 w
            = (Frags.set_full_retries (Frags.set_tries l FRAG_MAX_TRIES) 2, w, None))
      as Hgoal.
    { subst l1. destruct (Z.ltb_spec (Frags.tries l + 1) FRAG_MAX_TRIES) as [Hlt|Hge].
      - rewrite IH; try done; cbn [Frags.tries Frags.set_tries]; try lia.
        destruct (Z.ltb_spec (Frags.tries l + 1) FRAG_MAX_TRIES); [done | lia].
      - rewrite retry_loop_exhausted by (cbn [Frags.tries Frags.set_tries
                                              Frags.set_full_retries]; lia).
        rewrite Hfull. destruct l as [d t f i u].
        cbn [Frags.tries Frags.full_retries] in *.
        replace (t + 1) with FRAG_MAX_TRIES by lia. reflexivity. }
    by destruct fl.
Qed.

(** X21: in a stream that is over, a fragment more than two below the
    highest known sequence number whose ten requests
    ([FRAG_MAX_TRIES]) all fail is given up: the turn of the worker
    ends with nothing delivered and nothing changed in the shared
    state, and the worker stays in its loop, where the next turn takes
    the next sequence number with its counters set afresh. *)
Theorem turn_gives_fragment_up refresh dt sq max_seq results l frag_tries w :
  stopping (w_info w) = false -> is_live (w_info w) = false ->
  -1 < max_seq -> sq < max_seq - 2 ->
  length results = 10%nat ->
  Forall (fun r => Worker.plain_failure r = true) results ->
  Worker.turn refresh dt (Worker.QueueItem sq max_seq results) l frag_tries w
  = (false,
     {| Frags.downloading := Frags.downloading l; Frags.tries := 10;
        Frags.full_retries := 2; Frags.is_403 := false; Frags.url := Frags.url l |},
     0, w, None).
Proof.
  intros Hs Hl Hm Hsq Hlen Hall. unfold Worker.turn. rewrite Hs, Hl.
  destruct (Z.geb_spec sq max_seq); [lia|]. rewrite andb_false_r.
  rewrite (retry_loop_plain_failures refresh dt sq max_seq results);
    [done | done.. | | |]; cbn [Worker.fresh Frags.tries]; [done | lia |].
  rewrite Hlen. reflexivity.
Qed.

Lemma turn_gives_fragment_up_witness :
  Worker.turn sample_refresh DTYPE_VIDEO
    (Worker.QueueItem 3 40 (replicate 10 Frags.OtherError))
    (Worker.locals_init DTYPE_VIDEO (world_at ended_info 0)) 0 (world_at ended_info 0)
  = (false, Frags.Build_locals true 10 2 false "", 0, world_at ended_info 0, None).
Proof.
  apply (turn_gives_fragment_up sample_refresh DTYPE_VIDEO 3 40
           (replicate 10 Frags.OtherError)
           (Worker.locals_init DTYPE_VIDEO (world_at ended_info 0)) 0
           (world_at ended_info 0)); try reflexivity; try lia.
  repeat constructor.
Defined.

(** ** [download_stream]: the books it keeps *)

(** What it takes for a property of the local variables to hold
    throughout [download_stream]: it must survive a sequence number
    being handed out, a fragment being received, a fragment being
    written, and any change to the other variables. *)
Section Invariant.

Variable books : Stream.locals -> Prop.

Hypothesis books_put_seq : forall l, books l -> books (Stream.put_seq l).

Hypothesis books_receive : forall l d, books l -> books (Stream.receive l d).

Hypothesis books_written : forall dt i d n removed l,
  is_Some (Stream.data l !! i) -> books l ->
  books (Stream.written dt i d n removed l).

Hypothesis books_frame : forall l l',
  Stream.cur_seq l' = Stream.cur_seq l ->
  Stream.seq_queue l' = Stream.seq_queue l ->
  Stream.cur_frag l' = Stream.cur_frag l ->
  Stream.progress_queue l' = Stream.progress_queue l ->
  Stream.active_downloads l' = Stream.active_downloads l ->
  Stream.data l' = Stream.data l ->
  books l -> books l'.

Lemma books_start_threads_loop fuel dt l info :
  books l -> books (Stream.start_threads_loop fuel dt l info).1.
Proof.
  revert l info. induction fuel as [|fuel IH]; intros l info Hb; [done|].
  cbn [Stream.start_threads_loop].
  destruct (_ <? _); [|done].
  apply IH, books_put_seq. by apply (books_frame l).
Qed.

Lemma books_restart_threads dt l w :
  books l -> books (Stream.restart_threads dt l w).1.
Proof.
  intros Hb. unfold Stream.restart_threads. destruct (_ && _); [|done].
  unfold Stream.start_threads.
  pose proof (books_start_threads_loop
    (Z.to_nat (thread_count (w_info w) - active_threads (mdl_info (w_info w) dt)))
    dt l (w_info w) Hb) as H.
  by destruct (Stream.start_threads_loop _ dt l (w_info w)).
Qed.

Lemma books_drain downloading arrived l :
  books l -> books (Stream.drain downloading arrived l).
Proof.
  revert l. induction arrived as [|d arrived IH]; intros l Hb; [done|].
  cbn [Stream.drain].
  pose proof (books_receive l d Hb) as Hr.
  destruct (negb downloading || Stream.stopping (Stream.receive l d)); [by apply IH|].
  apply IH.
  set (l1 := if x_head_seqnum d >? Stream.max_seqs (Stream.receive l d)
             then Stream.set_max_seqs (Stream.receive l d) (x_head_seqnum d)
             else Stream.receive l d).
  assert (books l1) as H1.
  { subst l1. destruct (_ >? _); [|done]. by apply (books_frame (Stream.receive l d)). }
  destruct (Stream.max_seqs l1 >? 0); [|by apply books_put_seq].
  destruct (_ <=? _); [by apply books_put_seq | done].
Qed.

Lemma books_refill_loop fuel active l :
  books l -> books (Stream.refill_loop fuel active l).
Proof.
  revert l. induction fuel as [|fuel IH]; intros l Hb; [done|].
  cbn [Stream.refill_loop]. destruct (_ <? _); [|done].
  by apply IH, books_put_seq.
Qed.

Lemma books_write_fragment dt io i d l w r :
  books l -> Stream.data l !! i = Some d ->
  Stream.write_fragment dt io i d l w = Some r -> books r.1.2.
Proof.
  intros Hb Hd. unfold Stream.write_fragment.
  assert (books (Stream.set_tries l (Stream.tries l - 1))) as Hfail
    by (by apply (books_frame l)).
  destruct (w_files w !! fname d) as [content|]; [|by intros [= <-]].
  destruct io as [removed|[|k]].
  - intros H. apply bind_Some in H as (bufs & _ & [= <-]). cbn [fst snd].
    apply books_written; [by exists d|]. by apply (books_frame l).
  - by intros [= <-].
  - intros H. apply bind_Some in H as (bufs & _ & [= <-]). cbn [fst snd].
    by apply (books_frame l).
Qed.

Lemma books_write_loop fuel dt ios i l w l' w' :
  books l -> Stream.write_loop fuel dt ios i l w = Some (l', w') -> books l'.
Proof.
  revert ios i l w. induction fuel as [|fuel IH]; intros ios i l w Hb; [done|].
  rewrite write_loop_S.
  destruct (_ && _); [|by intros [= <- <-]].
  destruct (Stream.data l !! i) as [d|] eqn:Hd; [|by intros [= <- <-]].
  destruct (negb _); [by apply IH|].
  intros H. apply bind_Some in H as (r & Hr & Hrun).
  apply (books_write_fragment _ _ _ _ _ _ _ Hb Hd) in Hr.
  apply IH in Hrun; [done|].
  destruct (Stream.stopping r.1.2); [done|]. by apply books_restart_threads.
Qed.

Lemma books_setup dt w : books Stream.locals_init -> books (Stream.setup dt w).1.
Proof.
  intros Hi. unfold Stream.setup, Stream.start_threads.
  pose proof (books_start_threads_loop
    (Z.to_nat (thread_count (w_info w) - active_threads (mdl_info (w_info w) dt)))
    dt Stream.locals_init (w_info w) Hi) as H.
  by destruct (Stream.start_threads_loop _ dt Stream.locals_init (w_info w)).
Qed.

Lemma books_cycle refresh dt env l w b l' w' :
  books l -> Stream.cycle refresh dt env l w = Some (b, l', w') -> books l'.
Proof.
  intros Hb. unfold Stream.cycle.
  set (l0 := Stream.set_stopping l (info_stopping w)).
  assert (books l0) as H0 by (by apply (books_frame l)).
  set (dl := existsb (Stream.alive env) (Stream.dthreads l0)).
  pose proof (books_drain dl (Stream.arrived env) l0 H0) as H1.
  destruct (negb dl); [by intros [= _ <- _]|].
  destruct (len _ =? 0).
  - intros [= _ <- _]. destruct (_ && _); [|done].
    unfold Stream.refill. by apply books_refill_loop.
  - intros H. apply bind_Some in H as ([l2 w2] & Hw & [= _ <- _]).
    by apply (books_write_loop _ _ _ _ _ _ _ _ H1 Hw).
Qed.

End Invariant.

(** X22: [download_stream] hands the sequence numbers to its workers
    in order and without gap or repetition: after the threads are
    started, and after every cycle of the main loop, the numbers put on
    the sequence queue so far are 0, 1, 2, ... up to [cur_seq]. *)
Theorem cycle_dispatches_in_order refresh dt env l w b l' w' :
  dispatched_in_order l ->
  Stream.cycle refresh dt env l w = Some (b, l', w') ->
  dispatched_in_order l'
  /\ dispatched_in_order (Stream.setup dt w).1.
Proof.
  assert (forall l, dispatched_in_order l -> dispatched_in_order (Stream.put_seq l))
    as Hput.
  { intros l0 [H0 Hq]. split; cbn [Stream.put_seq Stream.cur_seq Stream.seq_queue].
    - lia.
    - rewrite fmap_app, Hq. cbn [fmap list_fmap fst].
      by rewrite (seqZ_app 0 (Stream.cur_seq l0) 1) by lia. }
  assert (forall l0 l1,
    Stream.cur_seq l1 = Stream.cur_seq l0 ->
    Stream.seq_queue l1 = Stream.seq_queue l0 ->
    dispatched_in_order l0 -> dispatched_in_order l1) as Hframe.
  { intros l0 l1 E1 E2 [H0 Hq]. split; by rewrite ?E1, ?E2. }
  intros H1 Hc. split.
  - refine (books_cycle dispatched_in_order Hput _ _ _ refresh dt env l w b l' w' H1 Hc).
    + intros l0 d. by apply Hframe.
    + intros ? ? ? ? ? l0 _. by apply Hframe.
    + intros l0 l1 E1 E2 _ _ _ _. by apply Hframe.
  - refine (books_setup dispatched_in_order Hput _ dt w _).
    + intros l0 l1 E1 E2 _ _ _ _. by apply Hframe.
    + by split.
Qed.

Lemma cycle_dispatches_in_order_witness :
  dispatched_in_order
    (Stream.put_seq (Stream.set_max_seqs (Stream.receive one_thread_locals frag5) 9))
  /\ dispatched_in_order (Stream.setup DTYPE_VIDEO (world_at live_info 0)).1.
Proof.
  apply (cycle_dispatches_in_order sample_refresh DTYPE_VIDEO frag5_arrives
           one_thread_locals (world_at live_info 0) true _ (world_at live_info 0)).
  - split; [by vm_compute | reflexivity].
  - reflexivity.
Defined.

(** X23: the counters of [download_stream] agree at the end of every
    cycle of the main loop: [cur_frag] is the number of fragments
    written, with one progress report for each, and [active_downloads]
    is the number of sequence numbers handed out less the number of
    fragments received. *)
Theorem cycle_keeps_balance refresh dt env l w b l' w' :
  balanced l ->
  Stream.cycle refresh dt env l w = Some (b, l', w') ->
  balanced l' /\ balanced (Stream.setup dt w).1.
Proof.
  assert (forall l0 l1,
    Stream.seq_queue l1 = Stream.seq_queue l0 ->
    Stream.cur_frag l1 = Stream.cur_frag l0 ->
    Stream.progress_queue l1 = Stream.progress_queue l0 ->
    Stream.active_downloads l1 = Stream.active_downloads l0 ->
    Stream.data l1 = Stream.data l0 ->
    balanced l0 -> balanced l1) as Hframe.
  { intros l0 l1 E2 E3 E4 E5 E6 [Hc Ha]. split; by rewrite ?E2, ?E3, ?E4, ?E5, ?E6. }
  assert (forall l0, balanced l0 -> balanced (Stream.put_seq l0)) as Hput.
  { intros l0 [Hc Ha]. split; [done|].
    cbn [Stream.put_seq Stream.active_downloads Stream.seq_queue Stream.data
         Stream.progress_queue].
    rewrite Ha, !len_app. unfold len. simpl. lia. }
  assert (forall l0 d, balanced l0 -> balanced (Stream.receive l0 d)) as Hrecv.
  { intros l0 d [Hc Ha]. split; [done|].
    cbn [Stream.receive Stream.active_downloads Stream.seq_queue Stream.data
         Stream.progress_queue].
    rewrite Ha, len_app. unfold len. simpl. lia. }
  assert (forall dt0 i d n removed l0,
    is_Some (Stream.data l0 !! i) -> balanced l0 ->
    balanced (Stream.written dt0 i d n removed l0)) as Hwritten.
  { intros dt0 i d n removed l0 Hi [Hc Ha]. split.
    - cbn [Stream.written Stream.cur_frag Stream.progress_queue].
      rewrite Hc, len_app. unfold len. simpl. lia.
    - cbn [Stream.written Stream.active_downloads Stream.seq_queue Stream.data
           Stream.progress_queue].
      pose proof (lookup_lt_is_Some_1 _ _ Hi).
      rewrite Ha, len_app. unfold len. rewrite length_delete by done. simpl. lia. }
  intros H1 Hc. split.
  - refine (books_cycle balanced Hput Hrecv Hwritten _ refresh dt env l w b l' w' H1 Hc).
    intros l0 l1 _ E2 E3 E4 E5 E6. by apply Hframe.
  - refine (books_setup balanced Hput _ dt w _).
    + intros l0 l1 _ E2 E3 E4 E5 E6. by apply Hframe.
    + by split.
Qed.

Lemma cycle_keeps_balance_witness :
  balanced
    (Stream.put_seq (Stream.set_max_seqs (Stream.receive one_thread_locals frag5) 9))
  /\ balanced (Stream.setup DTYPE_VIDEO (world_at live_info 0)).1.
Proof.
  apply (cycle_keeps_balance sample_refresh DTYPE_VIDEO frag5_arrives
           one_thread_locals (world_at live_info 0) true _ (world_at live_info 0)).
  - split; reflexivity.
  - reflexivity.
Defined.

(** ** [download_stream]: emptying the data queue *)

(** X24: every fragment taken from the data queue is kept in [data],
    whether the download goes on or not, so that its file is written or
    deleted later; the highest head number known never goes down; and
    once the download is being stopped, or no worker is alive, no
    further sequence number is handed out. *)
Theorem drain_keeps_fragments downloading arrived l :
  let l' := Stream.drain downloading arrived l in
  Stream.data l' = Stream.data l ++ arrived
  /\ Stream.stopping l' = Stream.stopping l
  /\ Stream.f l' = Stream.f l /\ Stream.cur_frag l' = Stream.cur_frag l
  /\ Stream.max_seqs l <= Stream.max_seqs l'
  /\ (downloading = false \/ Stream.stopping l = true ->
      Stream.seq_queue l' = Stream.seq_queue l
      /\ Stream.cur_seq l' = Stream.cur_seq l
      /\ Stream.max_seqs l' = Stream.max_seqs l).
Proof.
  revert l. induction arrived as [|d arrived IH]; intros l.
  - cbn zeta. cbn [Stream.drain]. rewrite app_nil_r. repeat split; (done || lia).
  - cbn zeta. cbn [Stream.drain].
    destruct (negb downloading || Stream.stopping (Stream.receive l d)) eqn:Hstop.
    + destruct (IH (Stream.receive l d)) as (H1 & H2 & H3 & H4 & H5 & H6).
      rewrite H1, H2, H3, H4. cbn [Stream.receive Stream.data Stream.stopping
        Stream.f Stream.cur_frag Stream.max_seqs] in *.
      rewrite <- app_assoc. do 5 (split; [done|]).
      intros Hor. by destruct (H6 Hor) as (-> & -> & ->).
    + apply orb_false_iff in Hstop as [Hd Hs].
      set (l1 := if x_head_seqnum d >? Stream.max_seqs (Stream.receive l d)
                 then Stream.set_max_seqs (Stream.receive l d) (x_head_seqnum d)
                 else Stream.receive l d).
      set (l2 := if Stream.max_seqs l1 >? 0
                 then (if Stream.cur_seq l1 <=? Stream.max_seqs l1 + 1
                       then Stream.put_seq l1 else l1)
                 else Stream.put_seq l1).
      assert (Stream.data l1 = Stream.data l ++ [d]
              /\ Stream.stopping l1 = Stream.stopping l
              /\ Stream.f l1 = Stream.f l /\ Stream.cur_frag l1 = Stream.cur_frag l
              /\ Stream.max_seqs l <= Stream.max_seqs l1) as (A1 & A2 & A3 & A4 & A5).
      { subst l1. destruct (Z.gtb_spec (x_head_seqnum d)
                              (Stream.max_seqs (Stream.receive l d))) as [Hgt|];
          cbn [Stream.set_max_seqs Stream.receive Stream.data Stream.stopping
               Stream.f Stream.cur_frag Stream.max_seqs] in *;
          repeat split; (done || lia). }
      assert (Stream.data l2 = Stream.data l1 /\ Stream.stopping l2 = Stream.stopping l1
              /\ Stream.f l2 = Stream.f l1 /\ Stream.cur_frag l2 = Stream.cur_frag l1
              /\ Stream.max_seqs l2 = Stream.max_seqs l1) as (B1 & B2 & B3 & B4 & B5).
      { subst l2. destruct (_ >? 0); [destruct (_ <=? _)|]; by repeat split. }
      destruct (IH l2) as (H1 & H2 & H3 & H4 & H5 & _).
      rewrite H1, H2, H3, H4, B1, B2, B3, B4, A1, A2, A3, A4, <- app_assoc.
      do 4 (split; [done|]). split; [lia|].
      intros [->|Hs']; [done|].
      cbn [Stream.receive Stream.stopping] in Hs. congruence.
Qed.

Lemma put_seq_queue l :
  Stream.seq_queue (Stream.put_seq l)
  = Stream.seq_queue l ++ [(Stream.cur_seq l, Stream.max_seqs l)].
Proof. reflexivity. Qed.

(** X25: while it empties the data queue, [download_stream] hands out
    at most one new sequence number for each fragment received, and
    when the head number it knows is above 0 the number handed out is
    at most one above it, the head number itself being at least that
    of the fragment just received. *)
Theorem drain_dispatch_bound downloading arrived l :
  exists put,
    Stream.seq_queue (Stream.drain downloading arrived l) = Stream.seq_queue l ++ put
    /\ (length put <= length arrived)%nat
    /\ Forall (fun e => 0 < e.2 -> e.1 <= e.2 + 1) put
    /\ Forall (fun e => Stream.max_seqs l <= e.2) put.
Proof.
  revert l. induction arrived as [|d arrived IH]; intros l.
  - exists []. cbn [Stream.drain]. by rewrite app_nil_r.
  - cbn [Stream.drain].
    destruct (negb downloading || Stream.stopping (Stream.receive l d)).
    + destruct (IH (Stream.receive l d)) as (put & -> & Hlen & Hb & Hm).
      exists put. split; [done|]. split; [simpl; lia | done].
    + set (l1 := if x_head_seqnum d >? Stream.max_seqs (Stream.receive l d)
                 then Stream.set_max_seqs (Stream.receive l d) (x_head_seqnum d)
                 else Stream.receive l d).
      assert (Stream.seq_queue l1 = Stream.seq_queue l
              /\ Stream.max_seqs l <= Stream.max_seqs l1) as [E1 E2].
      { subst l1. destruct (Z.gtb_spec (x_head_seqnum d)
                              (Stream.max_seqs (Stream.receive l d)));
          cbn [Stream.set_max_seqs Stream.receive Stream.seq_queue Stream.max_seqs] in *;
          split; (done || lia). }
      destruct (Z.gtb_spec (Stream.max_seqs l1) 0) as [Hpos|Hneg];
        [destruct (Z.leb_spec (Stream.cur_seq l1) (Stream.max_seqs l1 + 1)) as [Hle|Hgt]|].
      * destruct (IH (Stream.put_seq l1)) as (put & -> & Hlen & Hb & Hm).
        exists ((Stream.cur_seq l1, Stream.max_seqs l1) :: put).
        rewrite put_seq_queue, E1, <- app_assoc. split; [done|].
        split; [simpl; lia|]. split; constructor; try done.
        eapply Forall_impl; [exact Hm|]. intros e He.
        cbn [Stream.put_seq Stream.max_seqs] in He. lia.
      * destruct (IH l1) as (put & -> & Hlen & Hb & Hm).
        exists put. rewrite E1. split; [done|]. split; [simpl; lia|]. split; [done|].
        eapply Forall_impl; [exact Hm|]. intros e He. simpl in He. lia.
      * destruct (IH (Stream.put_seq l1)) as (put & -> & Hlen & Hb & Hm).
        exists ((Stream.cur_seq l1, Stream.max_seqs l1) :: put).
        rewrite put_seq_queue, E1, <- app_assoc. split; [done|].
        split; [simpl; lia|]. split; constructor; try done.
        -- cbn [fst snd]. lia.
        -- eapply Forall_impl; [exact Hm|]. intros e He.
           cbn [Stream.put_seq Stream.max_seqs] in He. lia.
Qed.

Example drain_ex :
  Stream.seq_queue (Stream.drain true [frag5; Build_Fragment 1 "b" 9]
                      (Stream.put_seq (Stream.put_seq one_thread_locals)))
  = [(0, -1); (1, -1); (2, -1); (3, 9); (4, 9)].
Proof. reflexivity. Qed.

(** ** [download_stream]: starting the threads *)

Lemma start_threads_loop_spec fuel dt : forall l info,
  thread_count info - active_threads (mdl_info info dt) <= Z.of_nat fuel ->
  let n := Z.max 0 (thread_count info - active_threads (mdl_info info dt)) in
  let r := Stream.start_threads_loop fuel dt l info in
  active_threads (mdl_info r.2 dt)
  = Z.max (active_threads (mdl_info info dt)) (thread_count info)
  /\ thread_count r.2 = thread_count info
  /\ Stream.dthreads r.1 = Stream.dthreads l ++ seqZ (Stream.tnum l) n
  /\ Stream.tnum r.1 = Stream.tnum l + n
  /\ Stream.cur_seq r.1 = Stream.cur_seq l + n
  /\ Stream.active_downloads r.1 = Stream.active_downloads l + n
  /\ len (Stream.seq_queue r.1) = len (Stream.seq_queue l) + n.
Proof.
  induction fuel as [|fuel IH]; intros l info Hfuel.
  - cbn zeta. cbn [Stream.start_threads_loop fst snd].
    replace (Z.max 0 _) with 0 by lia. rewrite seqZ_nil, app_nil_r by lia.
    repeat split; lia.
  - cbn zeta. cbn [Stream.start_threads_loop].
    destruct (Z.ltb_spec (active_threads (mdl_info info dt)) (thread_count info))
      as [Hlt|Hge].
    + set (info1 := set_active_threads info dt (active_threads (mdl_info info dt) + 1)).
      set (l1 := Stream.put_seq (Stream.add_thread l)).
      assert (active_threads (mdl_info info1 dt) = active_threads (mdl_info info dt) + 1)
        as Ea by (by destruct dt).
      assert (thread_count info1 = thread_count info) as Et by done.
      destruct (IH l1 info1) as (H1 & H2 & H3 & H4 & H5 & H6 & H7); [lia|].
      rewrite H1, H2, H3, H4, H5, H6, H7, Ea, Et.
      cbn [l1 Stream.put_seq Stream.add_thread Stream.dthreads Stream.tnum
           Stream.cur_seq Stream.active_downloads Stream.seq_queue].
      rewrite len_app. unfold len at 2. cbn [length].
      replace (Z.max 0 (thread_count info - active_threads (mdl_info info dt)))
        with (1 + Z.max 0 (thread_count info - (active_threads (mdl_info info dt) + 1)))
        by lia.
      rewrite (seqZ_app (Stream.tnum l) 1) by lia.
      rewrite <- app_assoc. repeat split; (done || lia).
    + cbn [fst snd]. replace (Z.max 0 _) with 0 by lia.
      rewrite seqZ_nil, app_nil_r by lia. repeat split; lia.
Qed.

(** X26: when [download_stream] starts threads it starts exactly as
    many as the track is short of [thread_count] (none when it has
    enough), numbers them on from [tnum], hands each one sequence
    number, and leaves [active_threads] at [thread_count], or where it
    was when that was higher already. *)
Theorem start_threads_count dt l info :
  let n := Z.max 0 (thread_count info - active_threads (mdl_info info dt)) in
  let r := Stream.start_threads dt l info in
  active_threads (mdl_info r.2 dt)
  = Z.max (active_threads (mdl_info info dt)) (thread_count info)
  /\ thread_count r.2 = thread_count info
  /\ Stream.dthreads r.1 = Stream.dthreads l ++ seqZ (Stream.tnum l) n
  /\ Stream.tnum r.1 = Stream.tnum l + n
  /\ Stream.cur_seq r.1 = Stream.cur_seq l + n
  /\ Stream.active_downloads r.1 = Stream.active_downloads l + n
  /\ len (Stream.seq_queue r.1) = len (Stream.seq_queue l) + n.
Proof.
  unfold Stream.start_threads. apply start_threads_loop_spec. lia.
Qed.

Example start_threads_ex :
  let r := Stream.start_threads DTYPE_AUDIO Stream.locals_init
             (set_thread_count DownloadInfo_init 3) in
  Stream.dthreads r.1 = [0; 1; 2]
  /\ Stream.seq_queue r.1 = [(0, -1); (1, -1); (2, -1)]
  /\ active_threads (mdl_audio r.2) = 3.
Proof. repeat split. Qed.

(** ** URLs given by the user *)

Lemma find_from_split sub s : forall i k,
  0 <= i -> find_from sub s i = i + Z.of_nat k ->
  exists pre post,
    s = pre +:+ sub +:+ post /\ String.length pre = k
    /\ String.substring 0 k s = pre.
Proof.
  induction s as [|c s IH]; intros i k Hi; cbn [find_from].
  - destruct (String.prefix sub "") eqn:Hp; [|lia].
    apply prefix_app in Hp as [post Hp]. intros Hk.
    assert (k = O) as -> by lia. by exists "", post.
  - destruct (String.prefix sub (String c s)) eqn:Hp.
    + apply prefix_app in Hp as [post Hp]. intros Hk.
      assert (k = O) as -> by lia. by exists "", post.
    + intros Hk. destruct (find_from_lower_bound sub s (i + 1)) as [Hm|Hge]; [lia|].
      destruct k as [|k]; [lia|].
      destruct (IH (i + 1) k) as (pre & post & -> & Hlen & Hsub); [lia | lia |].
      exists (String c pre), post. split; [done|]. split; [simpl; by rewrite Hlen|].
      cbn [String.substring]. by rewrite Hsub.
Qed.

Lemma substring_app_length body rest :
  String.substring 0 (String.length body) (body +:+ rest) = body.
Proof.
  induction body as [|c body IH]; [by destruct rest|].
  rewrite append_cons. cbn [String.length String.substring]. by rewrite IH.
Qed.

Lemma length_append a b :
  String.length (a +:+ b) = (String.length a + String.length b)%nat.
Proof.
  induction a as [|c a IH]; [done|]. rewrite append_cons. simpl. by rewrite IH.
Qed.

Lemma parse_gvideo_url_accepted netloc query parse_qs url dt nurl :
  parse_gvideo_url netloc query parse_qs url dt = Ret nurl -> nurl <> "" ->
  endswith (lower (netloc url)) ".googlevideo.com" = true
  /\ is_Some (parse_qs (query url) !! "noclen")
  /\ (exists itag, int_param (parse_qs (query url)) "itag" = Ret itag
        /\ (dt = DTYPE_AUDIO <-> itag = AUDIO_ITAG))
  /\ nurl = slice_str_to url (find url "&sq=") +:+ "&sq={0}".
Proof.
  unfold parse_gvideo_url.
  destruct (int_param (parse_qs (query url)) "itag") as [itag|e]; [|done].
  destruct (endswith (lower (netloc url)) ".googlevideo.com");
    cbn [negb]; [|by intros [= <-]].
  destruct (bool_decide (is_Some (parse_qs (query url) !! "noclen"))) eqn:Hn;
    cbn [negb]; [|by intros [= <-]].
  apply bool_decide_eq_true in Hn.
  destruct dt; cbn [bool_decide decide_rel dtype_eq_dec andb];
    destruct (Z.eqb_spec itag AUDIO_ITAG) as [Hi|Hi]; cbn [negb];
    try (by intros [= <-]); intros [= <-] _;
    (split; [done|]); (split; [done|]); (split; [|done]); exists itag;
    (split; [done|]); split; done.
Qed.

(** X27: a URL that [parse_gvideo_url] accepts (its result is not
    empty) is on a host ending in [.googlevideo.com], has a [noclen]
    parameter and an [itag] that is 140 exactly for the audio track;
    when it holds [&sq=], the result is the URL up to its first [&sq=]
    followed by [&sq={0}]: all that followed is dropped. *)
Theorem parse_gvideo_url_accepts netloc query parse_qs url dt nurl :
  parse_gvideo_url netloc query parse_qs url dt = Ret nurl -> nurl <> "" ->
  endswith (lower (netloc url)) ".googlevideo.com" = true
  /\ is_Some (parse_qs (query url) !! "noclen")
  /\ (exists itag, int_param (parse_qs (query url)) "itag" = Ret itag
        /\ (dt = DTYPE_AUDIO <-> itag = AUDIO_ITAG))
  /\ (0 <= find url "&sq=" ->
      exists pre post,
        url = pre +:+ "&sq=" +:+ post
        /\ Z.of_nat (String.length pre) = find url "&sq="
        /\ nurl = pre +:+ "&sq={0}").
Proof.
  intros H Hne.
  destruct (parse_gvideo_url_accepted _ _ _ _ _ _ H Hne) as (H1 & H2 & H3 & ->).
  split; [done|]. split; [done|]. split; [done|]. intros Hpos.
  destruct (find_from_split "&sq=" url 0 (Z.to_nat (find url "&sq=")))
    as (pre & post & E & Hlen & Hsub); [lia | unfold find in *; lia |].
  exists pre, post. split; [done|]. split; [lia|].
  unfold slice_str_to. destruct (Z.ltb_spec (find url "&sq=") 0); [lia|].
  by rewrite Hsub.
Qed.

Lemma parse_gvideo_url_accepts_witness :
  let url := "https://r1.googlevideo.com/videoplayback?itag=140&noclen=1&sq=7&rn=3" in
  let parse_qs := fun _ : string =>
    ({[ "itag" := ["140"]; "noclen" := ["1"]; "sq" := ["7"]; "rn" := ["3"] ]}
     : gmap string (list string)) in
  let netloc := fun _ : string => "r1.googlevideo.com" in
  let query := fun _ : string => "itag=140&noclen=1&sq=7&rn=3" in
  endswith (lower (netloc url)) ".googlevideo.com" = true
  /\ is_Some (parse_qs (query url) !! "noclen")
  /\ (exists itag, int_param (parse_qs (query url)) "itag" = Ret itag
        /\ (DTYPE_AUDIO = DTYPE_AUDIO <-> itag = AUDIO_ITAG))
  /\ (0 <= find url "&sq=" ->
      exists pre post,
        url = pre +:+ "&sq=" +:+ post
        /\ Z.of_nat (String.length pre) = find url "&sq="
        /\ "https://r1.googlevideo.com/videoplayback?itag=140&noclen=1&sq={0}"
           = pre +:+ "&sq={0}").
Proof.
  intros url parse_qs netloc query.
  apply (parse_gvideo_url_accepts netloc query parse_qs url DTYPE_AUDIO).
  - vm_compute. reflexivity.
  - discriminate.
Defined.

(** X28: when the URL that [parse_gvideo_url] accepts holds no [&sq=],
    the index -1 that [find] returns is used as the end of the slice:
    the result is the URL without its last character, followed by
    [&sq={0}]. *)
Theorem parse_gvideo_url_without_sq netloc query parse_qs url dt nurl body c :
  is_ascii_text url = true ->
  parse_gvideo_url netloc query parse_qs url dt = Ret nurl -> nurl <> "" ->
  find url "&sq=" = -1 ->
  url = body +:+ String c "" ->
  nurl = body +:+ "&sq={0}".
Proof.
  intros _ H Hne Hfind ->.
  destruct (parse_gvideo_url_accepted _ _ _ _ _ _ H Hne) as (_ & _ & _ & ->).
  rewrite Hfind. unfold slice_str_to. change (-1 <? 0) with true. cbn iota.
  rewrite length_append. cbn [String.length].
  replace (Z.to_nat (Z.of_nat (String.length body + 1) + -1))
    with (String.length body) by lia.
  by rewrite substring_app_length.
Qed.

Lemma parse_gvideo_url_without_sq_witness :
  "https://r1.googlevideo.com/videoplayback?itag=140&noclen=&sq={0}"
  = "https://r1.googlevideo.com/videoplayback?itag=140&noclen=" +:+ "&sq={0}".
Proof.
  apply (parse_gvideo_url_without_sq
           (fun _ => "r1.googlevideo.com") (fun _ => "itag=140&noclen=1")
           (fun _ => {[ "itag" := ["140"]; "noclen" := ["1"] ]})
           "https://r1.googlevideo.com/videoplayback?itag=140&noclen=1" DTYPE_AUDIO
           _ _ "1").
  - reflexivity.
  - vm_compute. reflexivity.
  - discriminate.
  - reflexivity.
  - reflexivity.
Defined.

Example parse_gvideo_url_ex :
  parse_gvideo_url (fun _ => "example.com") (fun _ => "itag=140")
    (fun _ => {[ "itag" := ["140"] ]}) "https://example.com/?itag=140" DTYPE_AUDIO
  = Ret ""
  /\ parse_gvideo_url (fun _ => "example.com") (fun _ => "v=abc")
       (fun _ => {[ "v" := ["abc"] ]}) "https://example.com/?v=abc" DTYPE_AUDIO
     = Raise KeyError.
Proof. split; reflexivity. Qed.

Lemma rstrip_chars_split chars s :
  exists tail, s = rstrip_chars chars s +:+ tail /\ all_in chars tail = true.
Proof.
  induction s as [|c s (tail & E & Hall)]; [by exists ""|].
  cbn [rstrip_chars]. destruct (rstrip_chars chars s) as [|c' r] eqn:Hr.
  - destruct (has_char c chars) eqn:Hc.
    + exists (String c s). split; [done|]. cbn [all_in]. rewrite Hc.
      rewrite append_nil_l in E. by rewrite E.
    + exists tail. split; [|done]. rewrite append_cons. by rewrite <- E.
  - exists tail. split; [|done]. rewrite append_cons. by rewrite <- E.
Qed.

Lemma rstrip_chars_idem chars s :
  rstrip_chars chars (rstrip_chars chars s) = rstrip_chars chars s.
Proof.
  induction s as [|c s IH]; [done|].
  cbn [rstrip_chars]. destruct (rstrip_chars chars s) as [|c' r] eqn:Hr.
  - destruct (has_char c chars) eqn:Hc; [done|].
    cbn [rstrip_chars]. by rewrite Hc.
  - cbn [rstrip_chars]. cbn [rstrip_chars] in IH. by rewrite IH.
Qed.

(** X29: for a direct [googlevideo.com] URL the video id that
    [parse_input_url] notes is the [id] parameter with every [.] and
    [1] at its end taken off, not only the suffix [.1]; it is noted as
    the [id] of the file name format too, and from then on
    [get_video_info] returns False without probing or changing
    anything, whatever the time. *)
Theorem note_gvideo_url_vid query parse_qs info info' :
  note_gvideo_url query parse_qs info = Ret info' ->
  (exists id tail,
     parse_qs (query (url info)) !! "id" ≫= head = Some id
     /\ id = vid info' +:+ tail /\ all_in ".1" tail = true)
  /\ rstrip_chars ".1" (vid info') = vid info'
  /\ finfo_id (format_info info') = vid info'
  /\ forall refresh w, w_info w = info' -> get_video_info refresh w = (RFalse, w).
Proof.
  unfold note_gvideo_url.
  destruct (parse_qs (query (url info)) !! "id") as [values|] eqn:Hid; [|done].
  destruct values as [|id values]; [done|]. cbn [lookup list_lookup].
  intros [= <-]. cbn [set_gvideo_vid vid format_info finfo_id].
  split; [|split; [apply rstrip_chars_idem | split; [done|]]].
  - destruct (rstrip_chars_split ".1" id) as (tail & E & Hall).
    by exists id, tail.
  - intros refresh w Hw. unfold get_video_info. by rewrite Hw.
Qed.

Lemma note_gvideo_url_vid_witness :
  let info := set_quality DownloadInfo_init 140 in
  let parse_qs := fun _ : string =>
    ({[ "id" := ["Wq1xVh8fX11.1"]; "itag" := ["140"] ]} : gmap string (list string)) in
  let info' := set_gvideo_vid info "Wq1xVh8fX" in
  (exists id tail,
     parse_qs (url info) !! "id" ≫= head = Some id
     /\ id = vid info' +:+ tail /\ all_in ".1" tail = true)
  /\ rstrip_chars ".1" (vid info') = vid info'
  /\ finfo_id (format_info info') = vid info'
  /\ forall refresh w, w_info w = info' -> get_video_info refresh w = (RFalse, w).
Proof.
  intros info parse_qs info'.
  apply (note_gvideo_url_vid (fun q => q) parse_qs info info').
  reflexivity.
Defined.

(** ** [download_stream]: the count of failed writes *)

Lemma drain_tries downloading arrived l :
  Stream.tries (Stream.drain downloading arrived l) = Stream.tries l.
Proof.
  revert l. induction arrived as [|d arrived IH]; intros l; [done|].
  cbn [Stream.drain].
  destruct (negb downloading || Stream.stopping (Stream.receive l d)); [by rewrite IH|].
  rewrite IH.
  destruct (_ >? Stream.max_seqs (Stream.receive l d));
    (destruct (_ >? 0); [destruct (_ <=? _)|]); done.
Qed.

Lemma refill_loop_tries fuel active l :
  Stream.tries (Stream.refill_loop fuel active l) = Stream.tries l.
Proof.
  revert l. induction fuel as [|fuel IH]; intros l; [done|].
  cbn [Stream.refill_loop]. destruct (_ <? _); [|done]. by rewrite IH.
Qed.

Lemma write_fragment_tries dt io i d l w r :
  0 < Stream.tries l <= 10 ->
  Stream.write_fragment dt io i d l w = Some r ->
  0 <= Stream.tries r.1.2 <= 10.
Proof.
  intros Ht. unfold Stream.write_fragment.
  destruct (w_files w !! fname d) as [content|];
    [|intros [= <-]; cbn [fst snd Stream.set_tries Stream.tries]; lia].
  destruct io as [removed|[|k]].
  - intros H. apply bind_Some in H as (bufs & _ & [= <-]).
    cbn [fst snd Stream.written Stream.tries]. lia.
  - intros [= <-]. cbn [fst snd Stream.set_tries Stream.tries]. lia.
  - intros H. apply bind_Some in H as (bufs & _ & [= <-]).
    cbn [fst snd Stream.set_tries Stream.write_bufs Stream.tries]. lia.
Qed.

Lemma write_loop_tries fuel dt ios i l w l' w' :
  0 <= Stream.tries l <= 10 ->
  Stream.write_loop fuel dt ios i l w = Some (l', w') ->
  0 <= Stream.tries l' <= 10.
Proof.
  revert ios i l w. induction fuel as [|fuel IH]; intros ios i l w Ht; [done|].
  rewrite write_loop_S.
  destruct (Z.of_nat i <? len (Stream.data l)); cbn [andb]; [|by intros [= <- <-]].
  destruct (Z.gtb_spec (Stream.tries l) 0) as [Hpos|]; [|by intros [= <- <-]].
  destruct (Stream.data l !! i) as [d|]; [|by intros [= <- <-]].
  destruct (negb _); [by apply IH|].
  intros H. apply bind_Some in H as (r & Hr & Hrun).
  apply write_fragment_tries in Hr; [|lia].
  apply IH in Hrun; [done|].
  destruct (Stream.stopping r.1.2); [done|].
  pose proof (restart_threads_frame dt r.1.2 r.2) as (_ & E & _).
  cbn zeta in E. by rewrite E.
Qed.

(** X30: the count of tries left for writing stays between 0 and 10
    through every cycle of the main loop of [download_stream], and a
    cycle in which it runs out (ten passes in a row have failed to
    write the next fragment) raises [info.stopping]. *)
Theorem cycle_tries_bounds refresh dt env l w b l' w' :
  0 <= Stream.tries l <= 10 ->
  Stream.cycle refresh dt env l w = Some (b, l', w') ->
  0 <= Stream.tries l' <= 10
  /\ (0 < Stream.tries l -> Stream.tries l' = 0 -> stopping (w_info w') = true).
Proof.
  intros Ht. unfold Stream.cycle.
  set (l0 := Stream.drain _ _ _).
  assert (Stream.tries l0 = Stream.tries l) as E0 by (subst l0; by rewrite drain_tries).
  destruct (negb _); [intros [= _ <- _]; rewrite E0; split; [done | lia]|].
  destruct (len (Stream.data l0) =? 0).
  - intros [= _ <- _].
    assert (Stream.tries (if negb (Stream.stopping l0) && (Stream.active_downloads l0 <=? 0)
                          then Stream.refill (active_threads (mdl_info (w_info w) dt)) l0
                          else l0) = Stream.tries l) as ->.
    { destruct (_ && _); [|done]. unfold Stream.refill. by rewrite refill_loop_tries. }
    split; [done | lia].
  - intros H. apply bind_Some in H as ([l2 w2] & Hw & [= _ <- <-]).
    pose proof (write_loop_tries _ _ _ _ _ _ _ _ ltac:(by rewrite E0) Hw) as Ht2.
    split; [done|]. intros _ Hzero.
    destruct (Z.leb_spec (Stream.tries l2) 0); [done | lia].
Qed.

Lemma cycle_tries_bounds_witness :
  let r := Stream.cycle sample_refresh DTYPE_VIDEO
             (Stream.Build_cycle_env (fun _ => true) [frag0] [])
             (Stream.set_tries one_thread_locals 1) (world_at live_info 0) in
  exists l' w', r = Some (true, l', w')
    /\ 0 <= Stream.tries l' <= 10
    /\ (0 < 1 -> Stream.tries l' = 0 -> stopping (w_info w') = true).
Proof.
  intros r.
  assert (exists l' w', r = Some (true, l', w')) as (l' & w' & E)
    by (eexists _, _; vm_compute; reflexivity).
  exists l', w'. split; [exact E|].
  apply (cycle_tries_bounds sample_refresh DTYPE_VIDEO
           (Stream.Build_cycle_env (fun _ => true) [frag0] [])
           (Stream.set_tries one_thread_locals 1) (world_at live_info 0) true l' w').
  - vm_compute. split; discriminate.
  - exact E.
Defined.

Example cycle_stops_after_failed_writes :
  exists l' w',
    Stream.cycle sample_refresh DTYPE_VIDEO
      (Stream.Build_cycle_env (fun _ => true) [frag0] [])
      (Stream.set_tries one_thread_locals 1) (world_at live_info 0)
    = Some (true, l', w')
    /\ Stream.tries l' = 0 /\ Stream.data l' = [frag0] /\ Stream.f l' = []
    /\ stopping (w_info w') = true.
Proof. eexists _, _. repeat split; vm_compute; reflexivity. Qed.
